(** * ImageFlow Pro (src/app.js): transform pipeline, crop session and peer
    session, embedded as Rocq functions over explicit state.

    Conventions of the embedding.
    - A JavaScript number is a rational [Q] (finite values). The quotient and
      the product of the dimension computation of [applyLosslessProcessing],
      whose rounded value the pipeline reports, are rounded to binary64
      ([Js.round64]); elsewhere arithmetic is exact.
      Where the source can divide by zero the model says so at that place.
    - A string is the sequence of the bytes of its UTF-8 encoding.
    - Integer-valued quantities of the DOM (pixel sizes, byte sizes) are [Z].
    - [null]/[undefined] is [None]; truthiness of an optional number is
      [truthy].
    - The host (image decoder, canvas encoder, Pica) is a [Browser] record the
      functions take as an argument.
    - A rejected promise or a thrown exception is the [Rejected] completion.
    - [console.*] output, rendering ([updateStats], [renderImages]) and the
      wall-clock fields ([processingTime], [timeSaved]) carry no state the
      properties below read and are left out. *)

From Stdlib Require Import ZArith QArith Qround Qabs Qpower Lia Lqa List String Ascii Bool.
From Stdlib Require Import DecimalString.
From Stdlib Require Floats.
Import ListNotations.

Open Scope string_scope.
Open Scope Z_scope.

(** Strict equality of two strings. *)
Notation "a === b" := (String.eqb a b) (at level 70, no associativity).

(* ================================================================== *)
(** * JavaScript primitives *)
(* ================================================================== *)

Module Js.

(** [Math.round]: nearest integer, ties towards +infinity. *)
Definition Math_round (q : Q) : Z := Qfloor (q + (1 # 2))%Q.

(** [Math.max] / [Math.min] on two finite numbers. *)
Definition Math_max (a b : Q) : Q := if Qlt_le_dec a b then b else a.
Definition Math_min (a b : Q) : Q := if Qlt_le_dec b a then b else a.
Definition Math_abs (a : Q) : Q := Qabs a.

(** ** binary64

    A quotient or product computed in binary64 is the exact result rounded to
    the nearest number with a 53-bit significand, ties to the even
    significand, with gradual underflow below [2^-1022]. Results of magnitude
    [2^1024] and above (the JavaScript [Infinity]) are outside the model. *)

(** [2^e]. *)
Definition pow2 (e : Z) : Q := (2 ^ e)%Q.

(** [floor (log2 |q|)] for [q] other than zero. *)
Definition ilog2 (q : Q) : Z :=
  let e := Z.log2 (Z.abs (Qnum q)) - Z.log2 (Zpos (Qden q)) in
  if Qle_bool (pow2 e) (Qabs q) then e else e - 1.

(** Nearest integer, ties to the even one. *)
Definition roundEven (q : Q) : Z :=
  let f := Qfloor q in
  let r := (q - inject_Z f)%Q in
  if Qlt_le_dec r (1 # 2) then f
  else if Qlt_le_dec (1 # 2) r then f + 1
  else if Z.even f then f else f + 1.

(** The binary64 number nearest to [q]. *)
Definition round64 (q : Q) : Q :=
  if Qeq_bool q 0 then 0%Q
  else
    let e := Z.max (ilog2 q) (-1022) in
    let ulp := pow2 (e - 52) in
    (inject_Z (roundEven (q / ulp)) * ulp)%Q.

(** [a / b] and [a * b] on two binary64 numbers. *)
Definition div64 (a b : Q) : Q := round64 (a / b).
Definition mul64 (a b : Q) : Q := round64 (a * b).

(** The kernel's binary64 numbers, to compare [round64] with: the number
    holding an integer below [2^53], and the rational a finite number is. *)
Definition float_of_Z (z : Z) : PrimFloat.float :=
  if z <? 0 then PrimFloat.opp (PrimFloat.of_uint63 (Uint63.of_Z (- z)))
  else PrimFloat.of_uint63 (Uint63.of_Z z).

Definition Q_of_float (f : PrimFloat.float) : option Q :=
  match FloatOps.Prim2SF f with
  | SpecFloat.S754_zero _ => Some 0%Q
  | SpecFloat.S754_finite s m e =>
      Some ((if s then -1 else 1) * inject_Z (Zpos m) * pow2 e)%Q
  | _ => None
  end.

(** Comparisons as booleans. *)
Definition gt (a b : Q) : bool := if Qlt_le_dec b a then true else false.
Definition ge (a b : Q) : bool := if Qlt_le_dec a b then false else true.
Definition le (a b : Q) : bool := ge b a.

(** [a / b > r] with the IEEE results of a zero divisor: [a / 0] is
    [+Infinity] for [a > 0], [NaN] for [a = 0], [-Infinity] for [a < 0]. *)
Definition div_gt (a b r : Q) : bool :=
  if Qeq_bool b 0 then gt a 0 else gt (a / b)%Q r.

(** Truthiness of a number that may be [null]/[undefined]. *)
Definition truthy (v : option Z) : bool :=
  match v with
  | Some z => negb (z =? 0)
  | None => false
  end.

(** [v || d] on an optional number. *)
Definition or_else (v : option Z) (d : Z) : Z :=
  match v with
  | Some z => if z =? 0 then d else z
  | None => d
  end.

(** [s.split(sep)] for a one-character separator. *)
Fixpoint split (sep : ascii) (s : string) : list string :=
  match s with
  | EmptyString => [EmptyString]
  | String c rest =>
      if Ascii.eqb c sep then EmptyString :: split sep rest
      else match split sep rest with
           | h :: t => String c h :: t
           | [] => [String c EmptyString]
           end
  end.

Inductive Error := Err (message : string).

(** Outcome of an [async] call or of a block that may throw. *)
Inductive Completion (A : Type) :=
| Resolved (a : A)
| Rejected (e : Error).
Arguments Resolved {A} a.
Arguments Rejected {A} e.

End Js.
Import Js.

(* ================================================================== *)
(** * Host environment *)
(* ================================================================== *)

(** What was painted on a canvas. *)
Inductive Drawn :=
| Blank
| DirectCopy                                   (* ctx.drawImage(img, 0, 0) *)
| ScaledDraw                                   (* ctx.drawImage(img, 0, 0, w, h) *)
| CropDraw (sx sy sw sh : Z)                   (* ctx.drawImage(src, sx, sy, sw, sh, 0, 0, sw, sh) *)
| PicaResize (filter : string) (unsharpAmount : Z).

Record Canvas := {
  canvas_width : Z;
  canvas_height : Z;
  canvas_style : option (Z * Z);               (* style.width / style.height in px *)
  canvas_scale : Q;                            (* factor of ctx.scale, 1 when never called *)
  canvas_drawn : Drawn
}.

(** Result of [pica.resize]: resolves or throws. *)
Inductive PicaOutcome := PicaOk | PicaThrows.

Record Browser := {
  (** [new Image(); img.src = src]: [onload] with the natural size, or [onerror]. *)
  decodeImage : string -> option (Z * Z);
  (** [canvas.toDataURL(type, quality)]. *)
  toDataURL : Canvas -> string -> option Q -> string;
  (** [window.devicePixelRatio || 1]. *)
  devicePixelRatio : Q;
  (** [window.pica]: absent, or present with the outcome of [resize]. *)
  pica : option PicaOutcome
}.

(* ================================================================== *)
(** * Format encoder (app.js 1081-1132) *)
(* ================================================================== *)

Module Encoder.

(** Entry of [this.formatConfigs]; the encoder reads only [lossless]. *)
Record FormatConfig := { lossless : bool }.

(** Shape of [this.formatConfigs]: one entry per key. *)
Record FormatConfigs := {
  cfg_png : FormatConfig;
  cfg_webp : FormatConfig;
  cfg_avif : FormatConfig;
  cfg_tiff : FormatConfig;
  cfg_jpg : FormatConfig
}.

(** [this.formatConfigs] as the constructor builds it. *)
Definition formatConfigs : FormatConfigs :=
  {| cfg_png := {| lossless := true |};
     cfg_webp := {| lossless := true |};
     cfg_avif := {| lossless := true |};
     cfg_tiff := {| lossless := true |};
     cfg_jpg := {| lossless := false |} |}.

(** [configs[format]]. *)
Definition lookup (configs : FormatConfigs) (format : string) : option FormatConfig :=
  if format === "png" then Some (cfg_png configs)
  else if format === "webp" then Some (cfg_webp configs)
  else if format === "avif" then Some (cfg_avif configs)
  else if format === "tiff" then Some (cfg_tiff configs)
  else if format === "jpg" then Some (cfg_jpg configs)
  else None.

Section WithBrowser.
Variable br : Browser.

Definition optimizeWebP (canvas : Canvas) (config : FormatConfig) (quality : Q) : string :=
  if lossless config then toDataURL br canvas "image/webp" (Some 1%Q)
  else toDataURL br canvas "image/webp" (Some quality).

Definition optimizePNG (canvas : Canvas) (config : FormatConfig) : string :=
  toDataURL br canvas "image/png" None.

Definition optimizeAVIF (canvas : Canvas) (config : FormatConfig) (quality : Q) : string :=
  if lossless config then toDataURL br canvas "image/avif" (Some 1%Q)
  else toDataURL br canvas "image/avif" (Some quality).

(** The source warns on the console and encodes PNG. *)
Definition optimizeTIFF (canvas : Canvas) (config : FormatConfig) : string :=
  toDataURL br canvas "image/png" None.

Definition optimizeJPEG (canvas : Canvas) (config : FormatConfig) (quality : Q) : string :=
  let jpegQuality := Math_max (85 # 100) quality in
  toDataURL br canvas "image/jpeg" (Some jpegQuality).

(** [configs] is [this.formatConfigs]; [quality = 1] when omitted. *)
Definition applyFormatOptimization (configs : FormatConfigs)
    (canvas : Canvas) (format : string) (quality : option Q) : string :=
  let quality := match quality with Some q => q | None => 1%Q end in
  let formatConfig :=
    match lookup configs format with
    | Some c => c
    | None => cfg_png configs
    end in
  if format === "webp" then optimizeWebP canvas formatConfig quality
  else if format === "png" then optimizePNG canvas formatConfig
  else if format === "avif" then optimizeAVIF canvas formatConfig quality
  else if format === "tiff" then optimizeTIFF canvas formatConfig
  else if (format === "jpg") || (format === "jpeg") then optimizeJPEG canvas formatConfig quality
  else toDataURL br canvas ("image/" ++ format) (Some quality).

End WithBrowser.

End Encoder.

(* ================================================================== *)
(** * Application state (constructor, app.js 3-78) *)
(* ================================================================== *)

(** Settings object handed to the pipeline. [None] is a property the caller
    leaves out; for [width] and [height], which have no default, it is also
    the [null] that [parseInt(...) || null] gives. No caller passes [null]
    for a property that has a default. *)
Module Settings.
Record t := {
  format : string;
  quality : option Q;
  width : option Z;
  height : option Z;
  maintainAspect : option bool
}.
End Settings.

(** Entry of [this.images] as [addImage] builds it and the pipeline updates it. *)
Record ImageRecord := {
  id : Q;                                      (* Date.now() + Math.random() *)
  name : string;
  size : Z;
  type : string;
  width : Z;
  height : Z;
  src : string;
  processed : bool;
  processedSize : option Z;
  processedSrc : option string;
  processedFormat : option string;
  processedDimensions : option (Z * Z)
}.

Record StorageData := {
  limit : Z;
  originalSize : Z;
  compressedSize : Z
}.

Record ProcessingOptions := {
  algorithm : string;
  enableSharpening : bool
}.

(** State of a PeerJS data connection. *)
Inductive ConnState := Opening | Open | Closed.

(** The listeners the application registers on a connection. *)
Inductive Handler :=
| ReceiveFileOnData          (* handleIncomingConnection: conn.on('data', ...) *)
| UnregisterOnClose          (* handleIncomingConnection: conn.on('close', ...) *)
| RegisterOnOpen             (* connectManual: conn.on('open', ...) *)
| NotifyOnError.             (* connectManual: conn.on('error', ...) *)

(** Message of [sendFile]. *)
Record FileData := {
  fd_type : string;
  fd_name : string;
  fd_data : string;
  fd_size : Z
}.

(** A connection object; [sent] logs the calls of [conn.send] together with
    the state the connection was in at the call. *)
Record DataConnection := {
  peer : string;
  state : ConnState;
  handlers : list (string * Handler);
  sent : list (ConnState * FileData)
}.

(** [showNotification(message, type)]. *)
Definition Notification := (string * string)%type.

(** An [a] element the application creates and clicks to save a file. *)
Record Link := { link_href : string; link_download : string }.

Record App := {
  images : list ImageRecord;
  storageData : StorageData;
  totalProcessed : Z;                          (* processingStats.totalProcessed *)
  processingOptions : ProcessingOptions;
  notifications : list Notification;           (* toasts, oldest first *)
  progressModal : bool;                        (* progress modal shown *)
  progressCount : Z;
  peerReady : bool;                            (* this.peer is set *)
  heap : list DataConnection;                  (* connection objects, by reference *)
  connections : list nat;                      (* this.connections: references into heap *)
  received : list Link                         (* links receiveFile clicked, oldest first *)
}.

Definition newApp : App :=
  {| images := [];
     storageData := {| limit := 1000 * 1024 * 1024; originalSize := 0; compressedSize := 0 |};
     totalProcessed := 0;
     processingOptions := {| algorithm := "lanczos"; enableSharpening := false |};
     notifications := [];
     progressModal := false;
     progressCount := 0;
     peerReady := true;
     heap := [];
     connections := [];
     received := [] |}.

Definition with_images (app : App) (imgs : list ImageRecord) : App :=
  {| images := imgs; storageData := storageData app; totalProcessed := totalProcessed app;
     processingOptions := processingOptions app; notifications := notifications app;
     progressModal := progressModal app; progressCount := progressCount app;
     peerReady := peerReady app; heap := heap app; connections := connections app;
     received := received app |}.

Definition with_storageData (app : App) (sd : StorageData) : App :=
  {| images := images app; storageData := sd; totalProcessed := totalProcessed app;
     processingOptions := processingOptions app; notifications := notifications app;
     progressModal := progressModal app; progressCount := progressCount app;
     peerReady := peerReady app; heap := heap app; connections := connections app;
     received := received app |}.

Definition with_totalProcessed (app : App) (n : Z) : App :=
  {| images := images app; storageData := storageData app; totalProcessed := n;
     processingOptions := processingOptions app; notifications := notifications app;
     progressModal := progressModal app; progressCount := progressCount app;
     peerReady := peerReady app; heap := heap app; connections := connections app;
     received := received app |}.

Definition with_progress (app : App) (shown : bool) (count : Z) : App :=
  {| images := images app; storageData := storageData app; totalProcessed := totalProcessed app;
     processingOptions := processingOptions app; notifications := notifications app;
     progressModal := shown; progressCount := count;
     peerReady := peerReady app; heap := heap app; connections := connections app;
     received := received app |}.

Definition with_peer (app : App) (h : list DataConnection) (cs : list nat) : App :=
  {| images := images app; storageData := storageData app; totalProcessed := totalProcessed app;
     processingOptions := processingOptions app; notifications := notifications app;
     progressModal := progressModal app; progressCount := progressCount app;
     peerReady := peerReady app; heap := h; connections := cs;
     received := received app |}.

Definition with_received (app : App) (links : list Link) : App :=
  {| images := images app; storageData := storageData app; totalProcessed := totalProcessed app;
     processingOptions := processingOptions app; notifications := notifications app;
     progressModal := progressModal app; progressCount := progressCount app;
     peerReady := peerReady app; heap := heap app; connections := connections app;
     received := links |}.

Definition showNotification (app : App) (message type : string) : App :=
  {| images := images app; storageData := storageData app; totalProcessed := totalProcessed app;
     processingOptions := processingOptions app;
     notifications := notifications app ++ [(message, type)];
     progressModal := progressModal app; progressCount := progressCount app;
     peerReady := peerReady app; heap := heap app; connections := connections app;
     received := received app |}.

Definition showProgress (app : App) (show : bool) : App :=
  with_progress app show (progressCount app).
Definition updateProgress (app : App) (current : Z) : App :=
  with_progress app (progressModal app) current.
Definition hideProgress (app : App) : App := showProgress app false.

(** [this.images.findIndex(img => img.id == imageId)], with the entry. *)
Fixpoint findIndex (imgs : list ImageRecord) (imageId : Q) : option (nat * ImageRecord) :=
  match imgs with
  | [] => None
  | im :: rest =>
      if Qeq_bool (id im) imageId then Some (O, im)
      else match findIndex rest imageId with
           | Some (i, found) => Some (S i, found)
           | None => None
           end
  end.

(** Assignment to the object at position [i] of an array. *)
Fixpoint store {A : Type} (l : list A) (i : nat) (a : A) : list A :=
  match l, i with
  | [], _ => []
  | _ :: rest, O => a :: rest
  | b :: rest, S j => b :: store rest j a
  end.

(** [l.splice(i, 1)]. *)
Fixpoint splice1 {A : Type} (l : list A) (i : nat) : list A :=
  match l, i with
  | [], _ => []
  | _ :: rest, O => rest
  | b :: rest, S j => b :: splice1 rest j
  end.

(* ================================================================== *)
(** * Transform pipeline (app.js 841-1079) *)
(* ================================================================== *)

Module Pipeline.
Import Encoder.

(** Value [applyLosslessProcessing] returns. *)
Record ProcessedData := {
  dataUrl : string;
  pd_size : Z;
  dimensions : Z * Z;
  pd_format : string
}.

(** Inputs [batchProcess] reads from the form: [quickFormat],
    [parseInt(qualitySlider)], [parseInt(customWidth)] and
    [parseInt(customHeight)] ([None] when [NaN]), [maintainAspect.checked]. *)
Record Form := {
  quickFormat : string;
  qualitySlider : Z;
  customWidth : option Z;
  customHeight : option Z;
  maintainAspectChecked : bool
}.

(** [parseInt(v) || null]. *)
Definition or_null (v : option Z) : option Z :=
  match v with
  | Some z => if z =? 0 then None else Some z
  | None => None
  end.

Definition paint (c : Canvas) (d : Drawn) : Canvas :=
  {| canvas_width := canvas_width c; canvas_height := canvas_height c;
     canvas_style := canvas_style c; canvas_scale := canvas_scale c;
     canvas_drawn := d |}.

(** "Calculate target dimensions" of [applyLosslessProcessing] for a source
    of natural size [nw] x [nh]; [width] and [height] are integers a binary64
    number holds exactly. With [nw] or [nh] zero the source computes with
    [Infinity] or [NaN]: the canvas it then sizes gets 0 in the derived
    dimension, as here, while the [dimensions] it reports hold the
    non-finite value. *)
Definition targetDimensions (nw nh : Z) (settings : Settings.t) : Z * Z :=
  let width := Settings.width settings in
  let height := Settings.height settings in
  let maintainAspect :=
    match Settings.maintainAspect settings with Some b => b | None => true end in
  let targetWidth := or_else width nw in
  let targetHeight := or_else height nh in
  if (truthy width || truthy height) && maintainAspect then
    let aspectRatio := div64 (inject_Z nw) (inject_Z nh) in
    if truthy width && negb (truthy height) then
      (targetWidth, Math_round (div64 (inject_Z (or_else width 0)) aspectRatio))
    else if truthy height && negb (truthy width) then
      (Math_round (mul64 (inject_Z (or_else height 0)) aspectRatio), targetHeight)
    else (targetWidth, targetHeight)
  else (targetWidth, targetHeight).

(** File handed to [addImage]: [file_data] is the data URL the
    [FileReader] produces, [None] when reading fails. *)
Record File := {
  file_name : string;
  file_size : Z;
  file_type : string;
  file_data : option string
}.

Section WithBrowser.
Variable br : Browser.

(** The products with the device pixel ratio are exact; the pixel sizes are
    what the canvas keeps of them, their integer part. *)
Definition createHighQualityCanvas (width height : Z) : Canvas :=
  let devicePixelRatio := devicePixelRatio br in
  if gt devicePixelRatio 1 then
    {| canvas_width := Qfloor (inject_Z width * devicePixelRatio)%Q;
       canvas_height := Qfloor (inject_Z height * devicePixelRatio)%Q;
       canvas_style := Some (width, height);
       canvas_scale := devicePixelRatio;
       canvas_drawn := Blank |}
  else
    {| canvas_width := width; canvas_height := height;
       canvas_style := None; canvas_scale := 1; canvas_drawn := Blank |}.

Definition fallbackCanvasResize (targetCanvas : Canvas) : Canvas :=
  paint targetCanvas ScaledDraw.

(** Never throws: a failing [pica.resize] is caught and replaced by a
    scaled draw. *)
Definition resizeWithAdvancedAlgorithm (opts : ProcessingOptions)
    (targetCanvas : Canvas) (algorithm : string) : Canvas :=
  match pica br with
  | None => fallbackCanvasResize targetCanvas
  | Some outcome =>
      let unsharpAmount := if enableSharpening opts then 80 else 0 in
      let filter :=
        if algorithm === "lanczos" then "lanczos3"
        else if algorithm === "bicubic" then "catrom"
        else if algorithm === "bilinear" then "linear"
        else if algorithm === "nearest" then "box"
        else "lanczos3" in
      match outcome with
      | PicaOk => paint targetCanvas (PicaResize filter unsharpAmount)
      | PicaThrows => paint targetCanvas ScaledDraw
      end
  end.

(** [sourceImg] is given by its natural size. Reading [.length] of a
    missing second component of the split data URL throws. *)
Definition applyLosslessProcessing (opts : ProcessingOptions)
    (sourceImg : Z * Z) (settings : Settings.t) : Completion ProcessedData :=
  let '(naturalWidth, naturalHeight) := sourceImg in
  let format := Settings.format settings in
  let '(targetWidth, targetHeight) := targetDimensions naturalWidth naturalHeight settings in
  let canvas := createHighQualityCanvas targetWidth targetHeight in
  let canvas :=
    if negb (targetWidth =? naturalWidth) || negb (targetHeight =? naturalHeight)
    then resizeWithAdvancedAlgorithm opts canvas (algorithm opts)
    else paint canvas DirectCopy in
  let optimizedDataUrl :=
    applyFormatOptimization br formatConfigs canvas format (Settings.quality settings) in
  match nth_error (split "," optimizedDataUrl) 1 with
  | None => Rejected (Err "TypeError: Cannot read properties of undefined (reading 'length')")
  | Some base64 =>
      let base64Length := Z.of_nat (String.length base64) in
      let actualSize := Math_round (inject_Z base64Length * (75 # 100))%Q in
      Resolved {| dataUrl := optimizedDataUrl;
                  pd_size := actualSize;
                  dimensions := (targetWidth, targetHeight);
                  pd_format := format |}
  end.

(** [image] is the object at position [ref] of [this.images]; it is updated
    in place when the transform succeeds and left alone when it fails. The
    call and the completion are one step here: nothing else runs while the
    image decodes. [Async], further down, takes the two apart. *)
Definition processImageLossless (app : App) (ref : nat) (image : ImageRecord)
    (settings : Settings.t) : App * Completion ProcessedData :=
  match decodeImage br (src image) with
  | None => (app, Rejected (Err "Failed to load image for processing"))
  | Some img =>
      match applyLosslessProcessing (processingOptions app) img settings with
      | Rejected processingError => (app, Rejected processingError)
      | Resolved processedData =>
          let image' :=
            {| id := id image; name := name image; size := size image;
               type := type image; width := width image; height := height image;
               src := src image;
               processed := true;
               processedSize := Some (pd_size processedData);
               processedSrc := Some (dataUrl processedData);
               processedFormat := Some (Settings.format settings);
               processedDimensions := Some (dimensions processedData) |} in
          let app := with_images app (store (images app) ref image') in
          let sd := storageData app in
          let app := with_storageData app
            {| limit := limit sd; originalSize := originalSize sd;
               compressedSize := compressedSize sd + pd_size processedData |} in
          let app := with_totalProcessed app (totalProcessed app + 1) in
          (app, Resolved processedData)
      end
  end.

(** Resolves with [None] when no image has the id; notifies and rethrows
    when the transform fails. *)
Definition processImageWithSettings (app : App) (imageId : Q)
    (settings : Settings.t) : App * Completion (option ProcessedData) :=
  match findIndex (images app) imageId with
  | None => (app, Resolved None)
  | Some (ref, image) =>
      match processImageLossless app ref image settings with
      | (app, Resolved pd) => (app, Resolved (Some pd))
      | (app, Rejected error) =>
          (showNotification app "Képfeldolgozás sikertelen!" "error", Rejected error)
      end
  end.

(** The [for] loop of [batchProcess] from index [i]; [fuel] bounds the
    number of iterations, [None] is fuel exhausted. *)
Fixpoint batchLoop (fuel : nat) (app : App) (settings : Settings.t) (i : nat)
    : option (App * Completion unit) :=
  match nth_error (images app) i with
  | None => Some (app, Resolved tt)                       (* i < this.images.length fails *)
  | Some image =>
      match fuel with
      | O => None
      | S fuel' =>
          match processImageWithSettings app (id image) settings with
          | (app, Rejected error) => Some (app, Rejected error)
          | (app, Resolved _) =>
              batchLoop fuel' (updateProgress app (Z.of_nat i + 1)) settings (S i)
          end
      end
  end.

Definition batchProcess (app : App) (form : Form) : option (App * Completion unit) :=
  match images app with
  | [] => Some (showNotification app "Nincs feldolgozandó kép!" "warning", Resolved tt)
  | _ =>
      let settings :=
        {| Settings.format := quickFormat form;
           Settings.quality := Some (inject_Z (qualitySlider form) / 100)%Q;
           Settings.width := or_null (customWidth form);
           Settings.height := or_null (customHeight form);
           Settings.maintainAspect := Some (maintainAspectChecked form) |} in
      let app := showProgress app true in
      match batchLoop (List.length (images app)) app settings 0 with
      | None => None
      | Some (app, Rejected error) => Some (app, Rejected error)
      | Some (app, Resolved _) =>
          let app := hideProgress app in
          Some (showNotification app "Batch feldolgozás befejezve!" "success", Resolved tt)
      end
  end.

(** [newId] is the value of [Date.now() + Math.random()] at the call. The
    per-type chart statistics are not part of the model. *)
Definition addImage (app : App) (file : File) (newId : Q) : App * Completion unit :=
  match file_data file with
  | None => (app, Rejected (Err ("Fájlolvasási hiba: " ++ file_name file)))
  | Some result =>
      match decodeImage br result with
      | None => (app, Rejected (Err ("Sérült vagy érvénytelen képfájl: " ++ file_name file)))
      | Some (w, h) =>
          if (w =? 0) || (h =? 0) then
            (app, Rejected (Err ("Érvénytelen képméret: " ++ file_name file)))
          else if (w >? 16384) || (h >? 16384) then
            (app, Rejected (Err ("A kép mérete túl nagy: " ++ file_name file)))
          else
            let imageData :=
              {| id := newId; name := file_name file; size := file_size file;
                 type := file_type file; width := w; height := h; src := result;
                 processed := false; processedSize := None; processedSrc := None;
                 processedFormat := None; processedDimensions := None |} in
            let app := with_images app (images app ++ [imageData]) in
            let sd := storageData app in
            let app := with_storageData app
              {| limit := limit sd; originalSize := originalSize sd + file_size file;
                 compressedSize := compressedSize sd |} in
            (app, Resolved tt)
      end
  end.

End WithBrowser.

(** [removeImage(imageId)]; a [processedSize] of [null] or [0] is falsy. *)
Definition removeImage (app : App) (imageId : Q) : App :=
  match findIndex (images app) imageId with
  | None => app
  | Some (imageIndex, image) =>
      let sd := storageData app in
      let originalSize' := originalSize sd - size image in
      let compressedSize' :=
        if truthy (processedSize image)
        then compressedSize sd - or_else (processedSize image) 0
        else compressedSize sd in
      let app := with_storageData app
        {| limit := limit sd; originalSize := originalSize';
           compressedSize := compressedSize' |} in
      let app := with_images app (splice1 (images app) imageIndex) in
      showNotification app "Kép törölve!" "info"
  end.

End Pipeline.

(* ================================================================== *)
(** * Crop session (app.js 1182-1753) *)
(* ================================================================== *)

Module Crop.

Definition imageWidth (image : ImageRecord) : Z := width image.
Definition imageHeight (image : ImageRecord) : Z := height image.

Open Scope Q_scope.

(** [this.cropState.cropArea], in preview pixels. *)
Record CropArea := { x : Q; y : Q; width : Q; height : Q }.

(** Size of the crop canvas element. *)
Record CropCanvas := { cwidth : Z; cheight : Z }.

(** [this.cropState]; [scale] and [canvas] are unset until a session opens. *)
Record CropState := {
  active : bool;
  imageId : option Q;
  cropArea : CropArea;
  scale : option Q;
  canvas : option CropCanvas
}.

(** The part of the [#cropOverlay] subtree the handlers read and write:
    the value of the ratio select, whether [#cropSelection] and
    [#cropHandles] are displayed, and [style.left]/[style.top] of the eight
    handle elements in document order (nw, n, ne, e, se, s, sw, w). *)
Record Overlay := {
  cropAspectRatio : string;
  selectionDisplayed : bool;
  handlesDisplayed : bool;
  handleStyle : list (Q * Q)
}.

(** Variables closed over by the listeners of [setupCropInteraction]. The
    numbers are read only after they were assigned. *)
Record Interaction := {
  isSelecting : bool;
  isDragging : bool;
  isResizing : bool;
  startX : Q;
  startY : Q;
  currentHandle : option string
}.

Record World := {
  cropState : CropState;
  overlay : option Overlay;             (* present while the overlay is in the document *)
  interaction : option Interaction      (* present once the preview image has loaded *)
}.

(** [data-handle] of the handle elements, in document order. *)
Definition handleNames : list string :=
  ["nw"; "n"; "ne"; "e"; "se"; "s"; "sw"; "w"].

(** State of a fresh application (constructor). *)
Definition newWorld : World :=
  {| cropState := {| active := false; imageId := None;
                     cropArea := {| x := 0; y := 0; width := 0; height := 0 |};
                     scale := None; canvas := None |};
     overlay := None;
     interaction := None |}.

Definition with_cropArea (cs : CropState) (area : CropArea) : CropState :=
  {| active := active cs; imageId := imageId cs; cropArea := area;
     scale := scale cs; canvas := canvas cs |}.

(** The table [ratios] of [constrainToAspectRatio]. *)
Definition ratios (aspectRatio : string) : option Q :=
  if aspectRatio === "1:1" then Some 1
  else if aspectRatio === "4:3" then Some (4 / 3)
  else if aspectRatio === "16:9" then Some (16 / 9)
  else if aspectRatio === "3:2" then Some (3 / 2)
  else if aspectRatio === "21:9" then Some (21 / 9)
  else None.

(** [aspectRatio] is the value of the ratio select, [canvas] is
    [this.cropState.canvas]. *)
Definition constrainToAspectRatio (aspectRatio : string) (canvas : CropCanvas)
    (area : CropArea) : CropArea :=
  if aspectRatio === "free" then area
  else
    match ratios aspectRatio with
    | None => area
    | Some ratio =>
        let area :=
          if div_gt (width area) (height area) ratio
          then {| x := x area; y := y area;
                  width := height area * ratio; height := height area |}
          else {| x := x area; y := y area;
                  width := width area; height := width area / ratio |} in
        let area :=
          if gt (x area + width area) (inject_Z (cwidth canvas))
          then {| x := inject_Z (cwidth canvas) - width area; y := y area;
                  width := width area; height := height area |}
          else area in
        if gt (y area + height area) (inject_Z (cheight canvas))
        then {| x := x area; y := inject_Z (cheight canvas) - height area;
                width := width area; height := height area |}
        else area
    end.

Definition handleResize (canvas : CropCanvas) (px py : Q) (handle : string)
    (area : CropArea) : CropArea :=
  if handle === "nw" then
    let newWidth := x area + width area - px in
    let newHeight := y area + height area - py in
    if gt newWidth 0 && gt newHeight 0 && ge px 0 && ge py 0
    then {| x := px; y := py; width := newWidth; height := newHeight |}
    else area
  else if handle === "ne" then
    let neWidth := px - x area in
    let neHeight := y area + height area - py in
    if gt neWidth 0 && gt neHeight 0 && le px (inject_Z (cwidth canvas)) && ge py 0
    then {| x := x area; y := py; width := neWidth; height := neHeight |}
    else area
  else if handle === "se" then
    if ge px (x area) && ge py (y area)
       && le px (inject_Z (cwidth canvas)) && le py (inject_Z (cheight canvas))
    then {| x := x area; y := y area; width := px - x area; height := py - y area |}
    else area
  else if handle === "sw" then
    let swWidth := x area + width area - px in
    let swHeight := py - y area in
    if gt swWidth 0 && gt swHeight 0 && ge px 0 && le py (inject_Z (cheight canvas))
    then {| x := px; y := y area; width := swWidth; height := swHeight |}
    else area
  else if handle === "n" then
    let nHeight := y area + height area - py in
    if gt nHeight 0 && ge py 0
    then {| x := x area; y := py; width := width area; height := nHeight |}
    else area
  else if handle === "e" then
    if ge px (x area) && le px (inject_Z (cwidth canvas))
    then {| x := x area; y := y area; width := px - x area; height := height area |}
    else area
  else if handle === "s" then
    if ge py (y area) && le py (inject_Z (cheight canvas))
    then {| x := x area; y := y area; width := width area; height := py - y area |}
    else area
  else if handle === "w" then
    let wWidth := x area + width area - px in
    if gt wWidth 0 && ge px 0
    then {| x := px; y := y area; width := wWidth; height := height area |}
    else area
  else area.

Definition isPointInSelection (area : CropArea) (px py : Q) : bool :=
  ge px (x area) && le px (x area + width area)
  && ge py (y area) && le py (y area + height area).

(** First handle whose stored position is nearer than the tolerance. *)
Fixpoint firstHandleNear (names : list string) (styles : list (Q * Q)) (px py : Q)
    : option string :=
  match names, styles with
  | name :: names', (handleX, handleY) :: styles' =>
      if gt 8 (Math_abs (px - handleX)) && gt 8 (Math_abs (py - handleY))
      then Some name
      else firstHandleNear names' styles' px py
  | _, _ => None
  end.

Definition getHandleAtPosition (ov : Overlay) (px py : Q) : option string :=
  if negb (handlesDisplayed ov) then None
  else firstHandleNear handleNames (handleStyle ov) px py.

Definition updateHandlePositions (area : CropArea) : list (Q * Q) :=
  [ (x area, y area);
    (x area + width area / 2, y area);
    (x area + width area, y area);
    (x area + width area, y area + height area / 2);
    (x area + width area, y area + height area);
    (x area + width area / 2, y area + height area);
    (x area, y area + height area);
    (x area, y area + height area / 2) ].

Definition updateCropSelection (area : CropArea) (ov : Overlay) : Overlay :=
  if gt (width area) 0 && gt (height area) 0 then
    {| cropAspectRatio := cropAspectRatio ov;
       selectionDisplayed := true; handlesDisplayed := true;
       handleStyle := updateHandlePositions area |}
  else
    {| cropAspectRatio := cropAspectRatio ov;
       selectionDisplayed := false; handlesDisplayed := false;
       handleStyle := handleStyle ov |}.

(** [setupCropCanvas]: size of the preview canvas and the scale factor. The
    quotients are the JavaScript ones for an image of non-zero size. *)
Definition setupCropCanvas (image : ImageRecord) : CropCanvas * Q :=
  let maxWidth := 800 in
  let maxHeight := 600 in
  let canvasWidth := imageWidth image in
  let canvasHeight := imageHeight image in
  let '(canvasWidth, canvasHeight) :=
    if ((canvasWidth >? 800) || (canvasHeight >? 600))%Z then
      let s := Math_min (maxWidth / inject_Z canvasWidth) (maxHeight / inject_Z canvasHeight) in
      (Math_round (inject_Z canvasWidth * s), Math_round (inject_Z canvasHeight * s))
    else (canvasWidth, canvasHeight) in
  ({| cwidth := canvasWidth; cheight := canvasHeight |},
   inject_Z canvasWidth / inject_Z (imageWidth image)).

(** [initializeCropMode]: a new overlay (ratio select on its first option,
    selection and handles hidden), a new canvas, new listeners.
    [previewLoads] tells whether the preview image fires [onload]. *)
Definition initializeCropMode (images : list ImageRecord) (previewLoads : bool)
    (id : Q) (w : World) : World :=
  match findIndex images id with
  | None => w
  | Some (_, image) =>
      let '(cv, s) := setupCropCanvas image in
      {| cropState := {| active := true; imageId := Some id;
                         cropArea := cropArea (cropState w);
                         scale := Some s; canvas := Some cv |};
         overlay := Some {| cropAspectRatio := "free"; selectionDisplayed := false;
                            handlesDisplayed := false; handleStyle := [] |};
         interaction :=
           if previewLoads then
             Some {| isSelecting := false; isDragging := false; isResizing := false;
                     startX := 0; startY := 0; currentHandle := None |}
           else None |}
  end.

Definition closeCropMode (w : World) : World :=
  {| cropState := {| active := false; imageId := None;
                     cropArea := cropArea (cropState w);
                     scale := scale (cropState w); canvas := canvas (cropState w) |};
     overlay := None;
     interaction := None |}.

Definition resetCropSelection (w : World) : World :=
  match overlay w with
  | None => w
  | Some ov =>
      let area := {| x := 0; y := 0; width := 0; height := 0 |} in
      {| cropState := with_cropArea (cropState w) area;
         overlay := Some (updateCropSelection area ov);
         interaction := interaction w |}
  end.

(** The select's [onchange]: the select already shows [ratio]. *)
Definition setCropAspectRatio (ratio : string) (w : World) : World :=
  match overlay w, canvas (cropState w) with
  | Some ov, Some cv =>
      let ov := {| cropAspectRatio := ratio; selectionDisplayed := selectionDisplayed ov;
                   handlesDisplayed := handlesDisplayed ov; handleStyle := handleStyle ov |} in
      let area := cropArea (cropState w) in
      if gt (width area) 0 && gt (height area) 0 then
        let area := constrainToAspectRatio (cropAspectRatio ov) cv area in
        {| cropState := with_cropArea (cropState w) area;
           overlay := Some (updateCropSelection area ov);
           interaction := interaction w |}
      else
        {| cropState := cropState w; overlay := Some ov; interaction := interaction w |}
  | _, _ => w
  end.

(** Events of the crop canvas and of the handle container. *)
Inductive Event :=
| MouseDown (px py : Q)
| MouseMove (px py : Q)
| MouseUp
| HandlesMouseDown (handle : string).

Definition mousedown (px py : Q) (cs : CropState) (ov : Overlay) (it : Interaction)
    : CropState * Overlay * Interaction :=
  match getHandleAtPosition ov px py with
  | Some handle =>
      (cs, ov,
       {| isSelecting := isSelecting it; isDragging := isDragging it; isResizing := true;
          startX := startX it; startY := startY it; currentHandle := Some handle |})
  | None =>
      if isPointInSelection (cropArea cs) px py then
        (cs, ov,
         {| isSelecting := isSelecting it; isDragging := true; isResizing := isResizing it;
            startX := px - x (cropArea cs); startY := py - y (cropArea cs);
            currentHandle := currentHandle it |})
      else
        let area := {| x := px; y := py; width := 0; height := 0 |} in
        (with_cropArea cs area, updateCropSelection area ov,
         {| isSelecting := true; isDragging := isDragging it; isResizing := isResizing it;
            startX := px; startY := py; currentHandle := currentHandle it |})
  end.

Definition mousemove (cv : CropCanvas) (px py : Q) (cs : CropState) (ov : Overlay)
    (it : Interaction) : CropState * Overlay * Interaction :=
  if isSelecting it then
    let w := px - startX it in
    let h := py - startY it in
    let area := {| x := if gt w 0 then startX it else px;
                   y := if gt h 0 then startY it else py;
                   width := Math_abs w; height := Math_abs h |} in
    let area := constrainToAspectRatio (cropAspectRatio ov) cv area in
    (with_cropArea cs area, updateCropSelection area ov, it)
  else if isDragging it then
    let area := cropArea cs in
    let newX := Math_max 0 (Math_min (inject_Z (cwidth cv) - width area) (px - startX it)) in
    let newY := Math_max 0 (Math_min (inject_Z (cheight cv) - height area) (py - startY it)) in
    let area := {| x := newX; y := newY; width := width area; height := height area |} in
    (with_cropArea cs area, updateCropSelection area ov, it)
  else if isResizing it then
    let area :=
      match currentHandle it with
      | Some handle => handleResize cv px py handle (cropArea cs)
      | None => cropArea cs
      end in
    let area := constrainToAspectRatio (cropAspectRatio ov) cv area in
    (with_cropArea cs area, updateCropSelection area ov, it)
  else (cs, ov, it).

Definition mouseup (it : Interaction) : Interaction :=
  {| isSelecting := false; isDragging := false; isResizing := false;
     startX := startX it; startY := startY it; currentHandle := None |}.

(** One event delivered to the listeners of the open session. Without
    overlay or listeners nothing receives it. *)
Definition step (w : World) (e : Event) : World :=
  match overlay w, interaction w, canvas (cropState w) with
  | Some ov, Some it, Some cv =>
      match e with
      | MouseDown px py =>
          let '(cs, ov, it) := mousedown px py (cropState w) ov it in
          {| cropState := cs; overlay := Some ov; interaction := Some it |}
      | MouseMove px py =>
          let '(cs, ov, it) := mousemove cv px py (cropState w) ov it in
          {| cropState := cs; overlay := Some ov; interaction := Some it |}
      | MouseUp =>
          {| cropState := cropState w; overlay := Some ov; interaction := Some (mouseup it) |}
      | HandlesMouseDown handle =>
          {| cropState := cropState w; overlay := Some ov;
             interaction :=
               Some {| isSelecting := isSelecting it; isDragging := isDragging it;
                       isResizing := true; startX := startX it; startY := startY it;
                       currentHandle := Some handle |} |}
      end
  | _, _, _ => w
  end.

Definition run (w : World) (events : list Event) : World := fold_left step events w.

(** Crop rectangle in source pixels, as [applyCropAndDownload] computes it.
    The quotients are the JavaScript ones for a non-zero scale. *)
Record SourceArea := { sx : Z; sy : Z; swidth : Z; sheight : Z }.

Definition toSourceArea (scale : Q) (area : CropArea) : SourceArea :=
  {| sx := Math_round (x area / scale);
     sy := Math_round (y area / scale);
     swidth := Math_round (width area / scale);
     sheight := Math_round (height area / scale) |}.

(** A source-space rectangle mapped back to preview space. *)
Definition toPreviewArea (scale : Q) (s : SourceArea) : CropArea :=
  {| x := inject_Z (sx s) * scale;
     y := inject_Z (sy s) * scale;
     width := inject_Z (swidth s) * scale;
     height := inject_Z (sheight s) * scale |}.

(** What [applyCropAndDownload] does. *)
Inductive Export :=
| NothingSelected                          (* warning toast, no transform *)
| NoImage
| CropFailed                               (* error toast *)
| Downloaded (filename : string) (dataUrl : string) (area : SourceArea).

(** [processCroppedImage]: Pica only for the [lanczos] choice; a throwing
    [pica.resize] or an undecodable source rejects. *)
Definition processCroppedImage (br : Browser) (image : ImageRecord) (source : SourceArea)
    (algorithm : string) : Completion string :=
  match decodeImage br (src image) with
  | None => Rejected (Err "Failed to load image for cropping")
  | Some _ =>
      let blank := {| canvas_width := swidth source; canvas_height := sheight source;
                      canvas_style := None; canvas_scale := 1;
                      canvas_drawn := Blank |} in
      match pica br, algorithm === "lanczos" with
      | Some PicaThrows, true => Rejected (Err "pica.resize")
      | Some PicaOk, true =>
          Resolved (toDataURL br
            {| canvas_width := swidth source; canvas_height := sheight source;
               canvas_style := None; canvas_scale := 1;
               canvas_drawn := PicaResize "lanczos3" 0 |}
            "image/png" None)
      | _, _ =>
          Resolved (toDataURL br
            {| canvas_width := swidth source; canvas_height := sheight source;
               canvas_style := None; canvas_scale := 1;
               canvas_drawn := CropDraw (sx source) (sy source) (swidth source) (sheight source) |}
            "image/png" None)
      end
  end.

(** [cropAlgorithm] is the value of the algorithm select. *)
Definition applyCropAndDownload (br : Browser) (images : list ImageRecord)
    (cropAlgorithm : string) (w : World) : World * Export :=
  let area := cropArea (cropState w) in
  if Qeq_bool (width area) 0 || Qeq_bool (height area) 0 then (w, NothingSelected)
  else
    match imageId (cropState w), scale (cropState w) with
    | Some id, Some scale =>
        match findIndex images id with
        | None => (w, NoImage)
        | Some (_, image) =>
            let source := toSourceArea scale area in
            match processCroppedImage br image source cropAlgorithm with
            | Rejected _ => (w, CropFailed)
            | Resolved dataUrl =>
                (closeCropMode w, Downloaded ("cropped_" ++ name image) dataUrl source)
            end
        end
    | _, _ => (w, NoImage)
    end.

End Crop.

(* ================================================================== *)
(** * Peer session (app.js 184-346, 1966-1994) *)
(* ================================================================== *)

Module Peer.

(** [String.prototype.trim] strips the code points of WhiteSpace (TAB, VT,
    FF, U+FEFF and the space separators) and of LineTerminator (LF, CR,
    U+2028, U+2029). In UTF-8 they take one, two or three bytes. *)
Definition isSpace (c : ascii) : bool :=
  match nat_of_ascii c with
  | 9%nat | 10%nat | 11%nat | 12%nat | 13%nat | 32%nat => true
  | _ => false
  end.

(** U+00A0. *)
Definition isSpace2 (a b : ascii) : bool :=
  ((nat_of_ascii a =? 194) && (nat_of_ascii b =? 160))%nat.

(** U+1680, U+2000 to U+200A, U+2028, U+2029, U+202F, U+205F, U+3000, U+FEFF. *)
Definition isSpace3 (a b c : ascii) : bool :=
  let a := nat_of_ascii a in
  let b := nat_of_ascii b in
  let c := nat_of_ascii c in
  (((a =? 225) && (b =? 154) && (c =? 128))
   || ((a =? 226) && (b =? 128)
       && (((128 <=? c) && (c <=? 138)) || (c =? 168) || (c =? 169) || (c =? 175)))
   || ((a =? 226) && (b =? 129) && (c =? 159))
   || ((a =? 227) && (b =? 128) && (c =? 128))
   || ((a =? 239) && (b =? 187) && (c =? 191)))%nat.

(** Removal of leading white space, for recognisers of the one-, two- and
    three-byte code points. *)
Fixpoint trimStartWith (sp1 : ascii -> bool) (sp2 : ascii -> ascii -> bool)
    (sp3 : ascii -> ascii -> ascii -> bool) (s : string) : string :=
  match s with
  | String a r1 =>
      if sp1 a then trimStartWith sp1 sp2 sp3 r1
      else
        match r1 with
        | String b r2 =>
            if sp2 a b then trimStartWith sp1 sp2 sp3 r2
            else
              match r2 with
              | String c r3 => if sp3 a b c then trimStartWith sp1 sp2 sp3 r3 else s
              | EmptyString => s
              end
        | EmptyString => s
        end
  | EmptyString => EmptyString
  end.

Definition reverse (s : string) : string :=
  string_of_list_ascii (rev (list_ascii_of_string s)).

Definition trimStart (s : string) : string :=
  trimStartWith isSpace isSpace2 isSpace3 s.

(** Trailing white space is leading white space of the reversed string, each
    code point with its bytes in reverse order. *)
Definition trimEnd (s : string) : string :=
  reverse (trimStartWith isSpace (fun b a => isSpace2 a b)
             (fun c b a => isSpace3 a b c) (reverse s)).

(** [s.trim()]. *)
Definition trim (s : string) : string := trimEnd (trimStart s).

(** Events PeerJS delivers on a connection. *)
Inductive ConnEvent :=
| EvOpen
| EvClose
| EvError
| EvData (data : FileData).

Definition eventName (e : ConnEvent) : string :=
  match e with
  | EvOpen => "open"
  | EvClose => "close"
  | EvError => "error"
  | EvData _ => "data"
  end.

Definition with_state (c : DataConnection) (st : ConnState) : DataConnection :=
  {| peer := peer c; state := st; handlers := handlers c; sent := sent c |}.

(** [conn.on(event, handler)]. *)
Definition on (c : DataConnection) (event : string) (h : Handler) : DataConnection :=
  {| peer := peer c; state := state c; handlers := handlers c ++ [(event, h)];
     sent := sent c |}.

(** [conn.send(data)]: the call is logged with the state of the connection.
    What PeerJS does with it lies outside the source. *)
Definition send (c : DataConnection) (data : FileData) : DataConnection :=
  {| peer := peer c; state := state c; handlers := handlers c;
     sent := sent c ++ [(state c, data)] |}.

Definition update (app : App) (conn : nat) (f : DataConnection -> DataConnection) : App :=
  match nth_error (heap app) conn with
  | Some c => with_peer app (store (heap app) conn (f c)) (connections app)
  | None => app
  end.

(** [handleIncomingConnection(conn)]. *)
Definition handleIncomingConnection (app : App) (conn : nat) : App :=
  let app := with_peer app (heap app) (connections app ++ [conn]) in
  let app := update app conn (fun c => on c "data" ReceiveFileOnData) in
  update app conn (fun c => on c "close" UnregisterOnClose).

(** [peer.on('connection', ...)]: PeerJS hands over a new connection object
    for the remote peer [remote]. *)
Definition incoming (app : App) (remote : string) : App :=
  let conn := List.length (heap app) in
  let c := {| peer := remote; state := Opening; handlers := []; sent := [] |} in
  handleIncomingConnection (with_peer app (heap app ++ [c]) (connections app)) conn.

(** [connectManual()]; [input] is the value of the [deviceId] field.
    [this.peer.connect] throws when there is no peer object. *)
Definition connectManual (app : App) (input : string) : App :=
  let deviceId := trim input in
  if deviceId === "" then
    showNotification app "Kérem adja meg az eszköz ID-ját!" "warning"
  else if negb (peerReady app) then
    showNotification app "Csatlakozás sikertelen!" "error"
  else
    let conn := List.length (heap app) in
    let c := {| peer := deviceId; state := Opening; handlers := []; sent := [] |} in
    let app := with_peer app (heap app ++ [c]) (connections app) in
    let app := update app conn (fun c => on c "open" RegisterOnOpen) in
    update app conn (fun c => on c "error" NotifyOnError).

(** [receiveFile(data)]: the payload is saved through a link click under the
    name the sender gave, then the toast is shown. *)
Definition receiveFile (app : App) (data : FileData) : App :=
  let link := {| link_href := fd_data data; link_download := fd_name data |} in
  let app := with_received app (received app ++ [link]) in
  showNotification app ("Fájl érkezett: " ++ fd_name data) "success".

(** Body of one registered listener. *)
Definition runHandler (app : App) (conn : nat) (h : Handler) (e : ConnEvent) : App :=
  match h with
  | RegisterOnOpen =>
      let app := with_peer app (heap app) (connections app ++ [conn]) in
      showNotification app "Eszköz sikeresen csatlakoztatva!" "success"
  | UnregisterOnClose =>
      with_peer app (heap app)
        (filter (fun c => negb (Nat.eqb c conn)) (connections app))
  | NotifyOnError =>
      showNotification app "Csatlakozás sikertelen!" "error"
  | ReceiveFileOnData =>
      match e with
      | EvData data =>
          if fd_type data === "file" then receiveFile app data else app
      | _ => app
      end
  end.

(** PeerJS emits [e] on connection [conn]: the connection changes state on
    [open] and [close], then the listeners of that event run in order. *)
Definition emit (app : App) (conn : nat) (e : ConnEvent) : App :=
  match nth_error (heap app) conn with
  | None => app
  | Some c =>
      let app :=
        match e with
        | EvOpen => update app conn (fun c => with_state c Open)
        | EvClose => update app conn (fun c => with_state c Closed)
        | _ => app
        end in
      fold_left
        (fun app '(event, h) =>
           if event === eventName e then runHandler app conn h e else app)
        (handlers c) app
  end.

(** [disconnectDevice(peerId)]: every registered connection to [peerId] is
    closed and dropped from [this.connections]. Listeners that PeerJS may run
    inside [conn.close()] act on the array this assignment replaces. *)
Definition disconnectDevice (app : App) (peerId : string) : App :=
  let hit conn :=
    match nth_error (heap app) conn with
    | Some c => peer c === peerId
    | None => false
    end in
  let app' :=
    fold_left (fun app conn => if hit conn then update app conn (fun c => with_state c Closed)
                               else app)
              (connections app) app in
  let app' := with_peer app' (heap app') (filter (fun conn => negb (hit conn)) (connections app)) in
  showNotification app' "Eszköz leválasztva" "info".

(** [this.connections.find(conn => conn.peer === connectionId)]. *)
Fixpoint findConnection (heap : list DataConnection) (conns : list nat)
    (connectionId : string) : option (nat * DataConnection) :=
  match conns with
  | [] => None
  | conn :: rest =>
      match nth_error heap conn with
      | Some c => if peer c === connectionId then Some (conn, c)
                  else findConnection heap rest connectionId
      | None => findConnection heap rest connectionId
      end
  end.

(** [a || b] on an optional string: empty and missing are falsy. *)
Definition str_or (a : option string) (b : string) : string :=
  match a with
  | Some s => if s === "" then b else s
  | None => b
  end.

Definition sendFile (app : App) (imageId : Q) (connectionId : string) : App :=
  match findIndex (images app) imageId,
        findConnection (heap app) (connections app) connectionId with
  | Some (_, image), Some (conn, _) =>
      let fileData :=
        {| fd_type := "file";
           fd_name := name image;
           fd_data := str_or (processedSrc image) (src image);
           fd_size := or_else (processedSize image) (size image) |} in
      let app := update app conn (fun c => send c fileData) in
      showNotification app "Fájl elküldve!" "success"
  | _, _ => showNotification app "Fájl küldése sikertelen!" "error"
  end.

End Peer.

(* ================================================================== *)
(** * Loading files, single-image actions, statistics
      (app.js 374-583, 1135-1179, 1755-1821) *)
(* ================================================================== *)

Module Library.
Import Pipeline.

(** Decimal rendering of a count in a template string. *)
Definition showNat (n : nat) : string := NilZero.string_of_uint (Nat.to_uint n).

Definition supportedTypes : list string :=
  ["image/jpeg"; "image/jpg"; "image/png"; "image/webp"; "image/gif"; "image/bmp";
   "image/svg+xml"].

Definition maxFileSize : Z := 50 * 1024 * 1024.

(** The entry [processFiles] pushes to [invalidFiles] for a file it skips;
    [None] for a file it pushes to [validImageFiles]. *)
Definition rejection (file : File) : option string :=
  if negb (prefix "image/" (file_type file)) then
    Some (file_name file ++ " (nem képfájl)")
  else if negb (existsb (fun t => t === file_type file) supportedTypes) then
    Some (file_name file ++ " (nem támogatott formátum)")
  else if file_size file >? maxFileSize then
    Some (file_name file ++ " (túl nagy, max 50MB)")
  else if file_size file =? 0 then
    Some (file_name file ++ " (üres fájl)")
  else None.

Definition accepted (file : File) : bool :=
  match rejection file with None => true | Some _ => false end.

Fixpoint invalidEntries (files : list File) : list string :=
  match files with
  | [] => []
  | file :: rest =>
      match rejection file with
      | Some entry => entry :: invalidEntries rest
      | None => invalidEntries rest
      end
  end.

(** [files.reduce((sum, file) => sum + file.size, 0)]. *)
Definition totalSize (files : list File) : Z :=
  fold_left (fun sum file => sum + file_size file) files 0.

Section WithBrowser.
Variable br : Browser.

(** The loading loop of [processFiles] from index [i]: each file is added
    under its own try/catch. [newIds i] is the id drawn for file [i]. *)
Fixpoint addAll (app : App) (files : list File) (newIds : nat -> Q) (i : nat)
    (successCount : nat) (failedFiles : list string) : App * nat * list string :=
  match files with
  | [] => (app, successCount, failedFiles)
  | file :: rest =>
      match addImage br app file (newIds i) with
      | (app, Resolved _) =>
          addAll (updateProgress app (Z.of_nat i + 1)) rest newIds (S i)
                 (S successCount) failedFiles
      | (app, Rejected _) =>
          addAll (updateProgress app (Z.of_nat i + 1)) rest newIds (S i)
                 successCount (failedFiles ++ [file_name file])
      end
  end.

Definition processFiles (app : App) (files : list File) (newIds : nat -> Q) : App :=
  if (List.length files =? 0)%nat then
    showNotification app "Kérem válasszon fájlokat!" "warning"
  else if (100 <? List.length files)%nat then
    showNotification app "Túl sok fájl! Maximum 100 fájl tölthető fel egyszerre." "error"
  else
    let validImageFiles := filter accepted files in
    let invalidFiles := invalidEntries files in
    let app :=
      match invalidFiles with
      | [] => app
      | _ =>
          showNotification app
            (showNat (List.length invalidFiles) ++ " fájl kihagyva: "
             ++ String.concat ", " (firstn 3 invalidFiles)
             ++ (if (3 <? List.length invalidFiles)%nat then "..." else ""))
            "warning"
      end in
    match validImageFiles with
    | [] => showNotification app "Nincsenek érvényes képfájlok a feltöltéshez!" "error"
    | _ =>
        let totalNewSize := totalSize validImageFiles in
        if originalSize (storageData app) + totalNewSize >? limit (storageData app) then
          showNotification app "Nincs elegendő tárterület! Töröljön néhány képet." "error"
        else
          let app := showProgress app true in
          let '(app, successCount, failedFiles) :=
            addAll app validImageFiles newIds 0 0 [] in
          let app := hideProgress app in
          if (0 <? successCount)%nat then
            let message := showNat successCount ++ " kép sikeresen betöltve!" in
            let message :=
              match failedFiles with
              | [] => message
              | _ => message ++ " " ++ showNat (List.length failedFiles)
                     ++ " kép betöltése sikertelen."
              end in
            showNotification app message
              (if (successCount =? List.length validImageFiles)%nat
               then "success" else "warning")
          else showNotification app "Egyik kép sem tölthető be!" "error"
    end.

(** [String.prototype.toUpperCase] on ASCII letters. *)
Definition upper (c : ascii) : ascii :=
  let n := nat_of_ascii c in
  if ((97 <=? n) && (n <=? 122))%nat then ascii_of_nat (n - 32) else c.

Fixpoint toUpperCase (s : string) : string :=
  match s with
  | EmptyString => EmptyString
  | String c rest => String (upper c) (toUpperCase rest)
  end.

(** [convertFormat(imageId, targetFormat)]: maximum quality, no resize; a
    failing transform is caught and reported. *)
Definition convertFormat (app : App) (imageId : Q) (targetFormat : string) : App :=
  match findIndex (images app) imageId with
  | None => app
  | Some _ =>
      let settings :=
        {| Settings.format := targetFormat; Settings.quality := Some 1%Q;
           Settings.width := None; Settings.height := None;
           Settings.maintainAspect := Some true |} in
      match processImageWithSettings br app imageId settings with
      | (app, Resolved _) =>
          showNotification app
            ("Kép konvertálva " ++ toUpperCase targetFormat ++ " formátumba!") "success"
      | (app, Rejected _) =>
          showNotification app "Formátum konverzió sikertelen!" "error"
      end
  end.

(** [quickProcess()]: the loop of [batchProcess] with format and quality
    only. *)
Definition quickProcess (app : App) (form : Form) : option (App * Completion unit) :=
  match images app with
  | [] => Some (showNotification app "Nincs feldolgozandó kép!" "warning", Resolved tt)
  | _ =>
      let settings :=
        {| Settings.format := quickFormat form;
           Settings.quality := Some (inject_Z (qualitySlider form) / 100)%Q;
           Settings.width := None; Settings.height := None;
           Settings.maintainAspect := None |} in
      let app := showProgress app true in
      match batchLoop br (List.length (images app)) app settings 0 with
      | None => None
      | Some (app, Rejected error) => Some (app, Rejected error)
      | Some (app, Resolved _) =>
          let app := hideProgress app in
          Some (showNotification app "Gyors feldolgozás befejezve!" "success", Resolved tt)
      end
  end.

End WithBrowser.

(** What a click on a generated link saves. *)
Record Download := { filename : string; href : string }.

(** [downloadImage(imageId)]. *)
Definition downloadImage (app : App) (imageId : Q) : App * option Download :=
  match findIndex (images app) imageId with
  | None => (app, None)
  | Some (_, image) =>
      (showNotification app "Kép letöltve!" "success",
       Some {| filename := if processed image then "processed_" ++ name image
                           else name image;
               href := Peer.str_or (processedSrc image) (src image) |})
  end.

(** [downloadOriginal(imageId)]. *)
Definition downloadOriginal (app : App) (imageId : Q) : App * option Download :=
  match findIndex (images app) imageId with
  | None => (app, None)
  | Some (_, image) =>
      (showNotification app "Eredeti kép letöltve!" "success",
       Some {| filename := "original_" ++ name image; href := src image |})
  end.

(** Number of occurrences of a character: [s.match(/c/g)?.length || 0]. *)
Fixpoint countChar (c : ascii) (s : string) : Z :=
  match s with
  | EmptyString => 0
  | String d rest => (if Ascii.eqb d c then 1 else 0) + countChar c rest
  end.

(** [calculateDataUrlSize(dataUrl)]; [None] is a value that is not a string. *)
Definition calculateDataUrlSize (dataUrl : option string) : Z :=
  match dataUrl with
  | None => 0
  | Some url =>
      if url === "" then 0
      else
        match nth_error (split "," url) 1 with
        | None => 0
        | Some base64String =>
            if base64String === "" then 0
            else
              let stringLength := Z.of_nat (String.length base64String) in
              let sizeInBytes := stringLength * 3 / 4 in
              let paddingCount := countChar "=" base64String in
              sizeInBytes - paddingCount
        end
  end.

(** The savings figure of [updateStats]. The quotient is the JavaScript one
    because it is taken only for a positive [originalSize]. *)
Definition savingsPercent (sd : StorageData) : Z :=
  if originalSize sd >? 0 then
    Math_round ((1 - inject_Z (compressedSize sd) / inject_Z (originalSize sd)) * 100)%Q
  else 0.

End Library.

(* ================================================================== *)
(** * Predicates the properties are stated with *)
(* ================================================================== *)

(** Sum of the sizes of the listed images. *)
Definition sumSizes (imgs : list ImageRecord) : Z :=
  fold_right (fun im acc => size im + acc) 0 imgs.

(** Sum of the sizes of the processed artifacts of the listed images; an image
    without artifact contributes nothing. *)
Definition sumProcessedSizes (imgs : list ImageRecord) : Z :=
  fold_right (fun im acc => or_else (processedSize im) 0 + acc) 0 imgs.

(** The aggregate counters agree with the image list. *)
Definition countersPaired (app : App) : Prop :=
  originalSize (storageData app) = sumSizes (images app)
  /\ compressedSize (storageData app) = sumProcessedSizes (images app).

(** The operations on the image list. *)
Inductive Op :=
| AddImage (file : Pipeline.File) (newId : Q)
| Transform (imageId : Q) (settings : Settings.t)
| RemoveImage (imageId : Q).

Definition applyOp (br : Browser) (app : App) (op : Op) : App :=
  match op with
  | AddImage file newId => fst (Pipeline.addImage br app file newId)
  | Transform imageId settings =>
      fst (Pipeline.processImageWithSettings br app imageId settings)
  | RemoveImage imageId => Pipeline.removeImage app imageId
  end.

Definition runOps (br : Browser) (app : App) (ops : list Op) : App :=
  fold_left (applyOp br) ops app.

(** ** Transforms that overlap other operations

    [processImageLossless] reads [this.images] when it is called and writes
    the image object and the counters when the image it loads has decoded;
    in between other handlers run. An image object is known by an identity
    that stays with it when [this.images] is spliced. *)

Module Async.

(** A transform waiting for its image to decode: the image object it found
    (line 882), the [src] it loads, its settings. *)
Record Pending := {
  target : nat;
  source : string;
  p_settings : Settings.t
}.

Record Session := {
  s_app : App;
  objects : list nat;            (* identity of the object at each position of this.images *)
  fresh : nat;                   (* identity of the next object created *)
  pending : list Pending         (* transforms waiting for their image, oldest first *)
}.

Definition newSession : Session :=
  {| s_app := newApp; objects := []; fresh := 0; pending := [] |}.

Inductive Event :=
| ImageLoaded (file : Pipeline.File) (newId : Q)          (* addImage settles *)
| TransformCalled (imageId : Q) (settings : Settings.t)   (* processImageWithSettings, up to img.src = image.src *)
| SourceDecoded (k : nat)                                 (* img.onload / img.onerror of the k-th pending transform *)
| RemoveCalled (imageId : Q).                             (* removeImage *)

(** Position of the object [o] in [this.images]. *)
Fixpoint indexOf (o : nat) (l : list nat) : option nat :=
  match l with
  | [] => None
  | x :: rest => if Nat.eqb x o then Some O else option_map S (indexOf o rest)
  end.

(** [img.onload] or [img.onerror] of a pending transform, with the [catch]
    of [processImageWithSettings]. The rest of the transform reads nothing
    the other operations change. An object that is still listed is updated
    where it stands; one that was removed meanwhile is updated out of sight,
    and the counters are raised all the same. *)
Definition settle (br : Browser) (s : Session) (p : Pending) : App :=
  let app := s_app s in
  let listed :=
    match indexOf (target p) (objects s) with
    | Some ref =>
        match nth_error (images app) ref with
        | Some image => Some (ref, image)
        | None => None
        end
    | None => None
    end in
  match listed with
  | Some (ref, image) =>
      match Pipeline.processImageLossless br app ref image (p_settings p) with
      | (app, Resolved _) => app
      | (app, Rejected _) => showNotification app "Képfeldolgozás sikertelen!" "error"
      end
  | None =>
      match decodeImage br (source p) with
      | None => showNotification app "Képfeldolgozás sikertelen!" "error"
      | Some img =>
          match Pipeline.applyLosslessProcessing br (processingOptions app) img
                  (p_settings p) with
          | Rejected _ => showNotification app "Képfeldolgozás sikertelen!" "error"
          | Resolved processedData =>
              let sd := storageData app in
              let app := with_storageData app
                {| limit := limit sd; originalSize := originalSize sd;
                   compressedSize := compressedSize sd + Pipeline.pd_size processedData |} in
              with_totalProcessed app (totalProcessed app + 1)
          end
      end
  end.

Definition step (br : Browser) (s : Session) (e : Event) : Session :=
  match e with
  | ImageLoaded file newId =>
      match Pipeline.addImage br (s_app s) file newId with
      | (app, Resolved _) =>
          {| s_app := app; objects := objects s ++ [fresh s]; fresh := S (fresh s);
             pending := pending s |}
      | (app, Rejected _) =>
          {| s_app := app; objects := objects s; fresh := fresh s; pending := pending s |}
      end
  | TransformCalled imageId settings =>
      match findIndex (images (s_app s)) imageId with
      | Some (ref, image) =>
          match nth_error (objects s) ref with
          | Some o =>
              {| s_app := s_app s; objects := objects s; fresh := fresh s;
                 pending := pending s
                            ++ [{| target := o; source := src image;
                                   p_settings := settings |}] |}
          | None => s
          end
      | None => s
      end
  | SourceDecoded k =>
      match nth_error (pending s) k with
      | Some p =>
          {| s_app := settle br s p; objects := objects s; fresh := fresh s;
             pending := splice1 (pending s) k |}
      | None => s
      end
  | RemoveCalled imageId =>
      match findIndex (images (s_app s)) imageId with
      | Some (ref, _) =>
          {| s_app := Pipeline.removeImage (s_app s) imageId;
             objects := splice1 (objects s) ref; fresh := fresh s;
             pending := pending s |}
      | None => s
      end
  end.

Definition run (br : Browser) (s : Session) (events : list Event) : Session :=
  fold_left (step br) events s.

(** The object at position [ref] of [this.images] has a transform pending. *)
Definition busy (s : Session) (ref : nat) : Prop :=
  match nth_error (objects s) ref with
  | Some o => In o (map target (pending s))
  | None => False
  end.

(** No transform is called on an image that has an artifact or a pending
    transform, and no image is removed while a transform of it is pending. *)
Fixpoint oneTransformEach (br : Browser) (s : Session) (events : list Event) : Prop :=
  match events with
  | [] => True
  | e :: rest =>
      match e with
      | TransformCalled imageId _ =>
          match findIndex (images (s_app s)) imageId with
          | Some (ref, image) => truthy (processedSize image) = false /\ ~ busy s ref
          | None => True
          end
      | RemoveCalled imageId =>
          match findIndex (images (s_app s)) imageId with
          | Some (ref, _) => ~ busy s ref
          | None => True
          end
      | _ => True
      end
      /\ oneTransformEach br (step br s e) rest
  end.

(** The counters agree with the list, the identities are those of the listed
    objects, and every pending transform is the only one of a listed object
    that has no artifact. *)
Definition consistent (s : Session) : Prop :=
  countersPaired (s_app s)
  /\ List.length (objects s) = List.length (images (s_app s))
  /\ NoDup (objects s)
  /\ (forall o, In o (objects s) -> (o < fresh s)%nat)
  /\ NoDup (map target (pending s))
  /\ (forall p, In p (pending s) ->
        exists ref image,
          nth_error (objects s) ref = Some (target p)
          /\ nth_error (images (s_app s)) ref = Some image
          /\ truthy (processedSize image) = false).

End Async.

(** No two of the numbers are equal. *)
Definition distinctIds (ids : list Q) : Prop :=
  forall i j a b,
    nth_error ids i = Some a -> nth_error ids j = Some b -> (a == b)%Q -> i = j.

(** The canvas encoder always returns a data URL with a payload after a
    comma. *)
Definition encoderHasPayload (br : Browser) : Prop :=
  forall canvas type q, nth_error (split "," (toDataURL br canvas type q)) 1 <> None.

(** [addImage] would add the file: it can be read, decodes, and is neither
    empty nor larger than 16384 pixels in a dimension. *)
Definition loads (br : Browser) (file : Pipeline.File) : bool :=
  match Pipeline.file_data file with
  | Some result =>
      match decodeImage br result with
      | Some (w, h) =>
          negb ((w =? 0) || (h =? 0)) && negb ((w >? 16384) || (h >? 16384))
      | None => false
      end
  | None => false
  end.

(** Sum of the sizes of some files. *)
Definition sumFileSizes (files : list Pipeline.File) : Z :=
  fold_right (fun file acc => Pipeline.file_size file + acc) 0 files.

(** [processFiles] gets as far as its loading loop: between 1 and 100 files,
    and the accepted ones fit the storage limit. *)
Definition admitted (app : App) (files : list Pipeline.File) : bool :=
  negb (List.length files =? 0)%nat
  && negb (100 <? List.length files)%nat
  && negb (originalSize (storageData app)
           + sumFileSizes (filter Library.accepted files) >? limit (storageData app)).

(** [n] copies of a character. *)
Fixpoint repeatChar (c : ascii) (n : nat) : string :=
  match n with
  | O => EmptyString
  | S m => String c (repeatChar c m)
  end.

(** The string of the given bytes. *)
Definition encode (bytes : list nat) : string :=
  string_of_list_ascii (map ascii_of_nat bytes).

(** UTF-8 encodings of the white space and line terminator code points of
    ECMAScript. *)
Definition whiteSpace : list (list nat) :=
  [ [9]; [10]; [11]; [12]; [13]; [32];                    (* TAB LF VT FF CR SP *)
    [194; 160];                                            (* U+00A0 *)
    [225; 154; 128];                                       (* U+1680 *)
    [226; 128; 128]; [226; 128; 129]; [226; 128; 130];     (* U+2000 .. *)
    [226; 128; 131]; [226; 128; 132]; [226; 128; 133];
    [226; 128; 134]; [226; 128; 135]; [226; 128; 136];
    [226; 128; 137]; [226; 128; 138];                      (* .. U+200A *)
    [226; 128; 168]; [226; 128; 169];                      (* U+2028 U+2029 *)
    [226; 128; 175];                                       (* U+202F *)
    [226; 129; 159];                                       (* U+205F *)
    [227; 128; 128];                                       (* U+3000 *)
    [239; 187; 191] ]%nat.                                 (* U+FEFF *)

(** A string made of white space code points only. *)
Inductive AllWhite : string -> Prop :=
| AllWhite_empty : AllWhite ""
| AllWhite_more (codePoint : list nat) (rest : string) :
    In codePoint whiteSpace -> AllWhite rest -> AllWhite (encode codePoint ++ rest).

(** The quotient [w / (nw / nh)] and the product [w * (nw / nh)] are the
    same number in the model and on the kernel's binary64 numbers. *)
Definition agree64 (w nw nh : Z) : bool :=
  let same (f : PrimFloat.float) (q : Q) :=
    match Q_of_float f with
    | Some p => Qeq_bool p q
    | None => false
    end in
  let ratio := PrimFloat.div (float_of_Z nw) (float_of_Z nh) in
  let aspectRatio := div64 (inject_Z nw) (inject_Z nh) in
  same (PrimFloat.div (float_of_Z w) ratio) (div64 (inject_Z w) aspectRatio)
  && same (PrimFloat.mul (float_of_Z w) ratio) (mul64 (inject_Z w) aspectRatio).


(** The rectangle lies inside the canvas and has non-negative extent. *)
Definition inCanvas (cv : Crop.CropCanvas) (area : Crop.CropArea) : Prop :=
  (0 <= Crop.x area /\ 0 <= Crop.y area
   /\ 0 <= Crop.width area /\ 0 <= Crop.height area
   /\ Crop.x area + Crop.width area <= inject_Z (Crop.cwidth cv)
   /\ Crop.y area + Crop.height area <= inject_Z (Crop.cheight cv))%Q.

(** A non-empty rectangle has the ratio [r]. *)
Definition hasRatio (r : Q) (area : Crop.CropArea) : Prop :=
  (0 < Crop.width area -> 0 < Crop.height area ->
   Crop.width area / Crop.height area == r)%Q.

(** The pointer of a mouse event lies on the canvas. *)
Definition pointerOnCanvas (cv : Crop.CropCanvas) (e : Crop.Event) : Prop :=
  match e with
  | Crop.MouseDown px py | Crop.MouseMove px py =>
      (0 <= px /\ px <= inject_Z (Crop.cwidth cv)
       /\ 0 <= py /\ py <= inject_Z (Crop.cheight cv))%Q
  | _ => True
  end.

(** The invariant of the rectangle and of the interaction variables, over the
    pieces of the world the listeners work on. *)
Definition piecesInvariant (cv : Crop.CropCanvas) (r : Q)
    (p : Crop.CropState * Crop.Overlay * Crop.Interaction) : Prop :=
  let '(cs, ov, it) := p in
  Crop.canvas cs = Some cv
  /\ Crop.ratios (Crop.cropAspectRatio ov) = Some r
  /\ inCanvas cv (Crop.cropArea cs)
  /\ hasRatio r (Crop.cropArea cs)
  /\ (Crop.isSelecting it = true ->
      (0 <= Crop.startX it /\ Crop.startX it <= inject_Z (Crop.cwidth cv)
       /\ 0 <= Crop.startY it /\ Crop.startY it <= inject_Z (Crop.cheight cv))%Q).

(** A session is open over canvas [cv] with the ratio [r] selected; the
    rectangle lies inside the canvas and, when not empty, has that ratio; the
    anchor of a selection being drawn lies on the canvas. *)
Definition sessionInvariant (cv : Crop.CropCanvas) (r : Q) (w : Crop.World) : Prop :=
  exists ov it,
    Crop.overlay w = Some ov
    /\ Crop.interaction w = Some it
    /\ Crop.canvas (Crop.cropState w) = Some cv
    /\ Crop.ratios (Crop.cropAspectRatio ov) = Some r
    /\ inCanvas cv (Crop.cropArea (Crop.cropState w))
    /\ hasRatio r (Crop.cropArea (Crop.cropState w))
    /\ (Crop.isSelecting it = true ->
        (0 <= Crop.startX it /\ Crop.startX it <= inject_Z (Crop.cwidth cv)
         /\ 0 <= Crop.startY it /\ Crop.startY it <= inject_Z (Crop.cheight cv))%Q).

(* ================================================================== *)
(** * Concrete hosts and scenarios *)
(* ================================================================== *)

Module Scenario.
Import Pipeline.

(** A host that decodes every [data:image/...] source as a 4000 x 3000
    picture, fails on anything else, encodes PNG, JPEG and WebP under their
    own media type and everything else as PNG, and has no Pica. *)
Definition host : Browser :=
  {| decodeImage := fun src =>
       if prefix "data:image/" src then Some (4000, 3000) else None;
     toDataURL := fun _ type _ =>
       if (type === "image/jpeg") || (type === "image/webp")
       then "data:" ++ type ++ ";base64,AAAAAAAA"
       else "data:image/png;base64,AAAA";
     devicePixelRatio := 1;
     pica := None |}.

Definition picture (i : Z) (source : string) : ImageRecord :=
  {| id := inject_Z i; name := "p.png"; size := 1000; type := "image/png";
     width := 4000; height := 3000; src := source;
     processed := false; processedSize := None; processedSrc := None;
     processedFormat := None; processedDimensions := None |}.

(** Three listed images; the second one no longer decodes. *)
Definition threeImages : App :=
  with_storageData
    (with_images newApp
       [picture 1 "data:image/png;base64,AAAA"; picture 2 "corrupt";
        picture 3 "data:image/png;base64,AAAA"])
    {| limit := 1000 * 1024 * 1024; originalSize := 3000; compressedSize := 0 |}.

(** The same host on a display of device pixel ratio 2. *)
Definition retinaHost : Browser :=
  {| decodeImage := decodeImage host; toDataURL := toDataURL host;
     devicePixelRatio := 2; pica := None |}.

(** Two listed images that decode. *)
Definition twoImages : App :=
  with_storageData
    (with_images newApp
       [picture 1 "data:image/png;base64,AAAA"; picture 2 "data:image/png;base64,BBBB"])
    {| limit := 1000 * 1024 * 1024; originalSize := 2000; compressedSize := 0 |}.

Definition pngForm : Form :=
  {| quickFormat := "png"; qualitySlider := 90; customWidth := None;
     customHeight := None; maintainAspectChecked := true |}.

Definition pngSettings : Settings.t :=
  {| Settings.format := "png"; Settings.quality := Some (90 / 100)%Q;
     Settings.width := None; Settings.height := None;
     Settings.maintainAspect := Some true |}.

(** Width 50 for a 100 x 127 source: the exact height 63.5 is a tie. *)
Definition tieSettings : Settings.t :=
  {| Settings.format := "png"; Settings.quality := Some 1%Q;
     Settings.width := Some 50; Settings.height := None;
     Settings.maintainAspect := Some true |}.

(** Pixel sizes [round64] is compared with the kernel's numbers on. *)
Definition sizes : list Z :=
  [1; 3; 7; 50; 100; 127; 333; 480; 600; 1080; 1920; 4000; 5000; 16384].

Definition tiffSettings : Settings.t :=
  {| Settings.format := "tiff"; Settings.quality := Some 1%Q;
     Settings.width := None; Settings.height := None;
     Settings.maintainAspect := Some true |}.

Definition pngFile : File :=
  {| file_name := "p.png"; file_size := 1000; file_type := "image/png";
     file_data := Some "data:image/png;base64,AAAA" |}.






(** One image added, transformed twice, then removed. *)
Definition added : App := fst (addImage host newApp pngFile 1%Q).
Definition once : App := fst (processImageWithSettings host added 1%Q pngSettings).
Definition twice : App := fst (processImageWithSettings host once 1%Q pngSettings).
Definition removed : App := removeImage twice 1%Q.

(** An outbound connection to ["peer-b"] opens and is then closed by the
    remote side; afterwards image 1 is sent to ["peer-b"]. *)
Definition outboundClosed : App :=
  let app := with_images newApp [picture 1 "data:image/png;base64,AAAA"] in
  let app := Peer.connectManual app "peer-b" in
  let app := Peer.emit app 0%nat Peer.EvOpen in
  Peer.emit app 0%nat Peer.EvClose.
Definition outboundSend : App := Peer.sendFile outboundClosed 1%Q "peer-b".

(** The same with an inbound connection. *)
Definition inboundClosed : App :=
  let app := with_images newApp [picture 1 "data:image/png;base64,AAAA"] in
  let app := Peer.incoming app "peer-b" in
  let app := Peer.emit app 0%nat Peer.EvOpen in
  Peer.emit app 0%nat Peer.EvClose.
Definition inboundSend : App := Peer.sendFile inboundClosed 1%Q "peer-b".

(** Two crop sessions: a selection is drawn over a 1600 x 1200 image and the
    session is cancelled; crop mode is then opened on a 100 x 100 image, the
    ratio 4:3 is chosen and the selection is dragged. *)
Definition large : ImageRecord :=
  {| id := 1%Q; name := "large.png"; size := 1000; type := "image/png";
     width := 1600; height := 1200; src := "data:image/png;base64,AAAA";
     processed := false; processedSize := None; processedSrc := None;
     processedFormat := None; processedDimensions := None |}.
Definition small : ImageRecord :=
  {| id := 2%Q; name := "small.png"; size := 100; type := "image/png";
     width := 100; height := 100; src := "data:image/png;base64,AAAA";
     processed := false; processedSize := None; processedSrc := None;
     processedFormat := None; processedDimensions := None |}.

Definition firstSession : Crop.World :=
  let w := Crop.initializeCropMode [large; small] true 1%Q Crop.newWorld in
  let w := Crop.run w [Crop.MouseDown 100 100; Crop.MouseMove 500 400; Crop.MouseUp] in
  Crop.closeCropMode w.

Definition secondSession : Crop.World :=
  let w := Crop.initializeCropMode [large; small] true 2%Q firstSession in
  Crop.setCropAspectRatio "4:3" w.

Definition secondSessionDragged : Crop.World :=
  Crop.run secondSession [Crop.MouseDown 50 50; Crop.MouseMove 60 60; Crop.MouseUp].

End Scenario.

(* ================================================================== *)
(** * Properties *)
(* ================================================================== *)

(** ** Format encoder *)

Lemma Math_max_ge_l (a b : Q) : (a <= Math_max a b)%Q.
Proof.
  unfold Math_max. destruct (Qlt_le_dec a b) as [H | H].
  - apply Qlt_le_weak, H.
  - apply Qle_refl.
Qed.

Lemma Math_max_ge_r (a b : Q) : (b <= Math_max a b)%Q.
Proof.
  unfold Math_max. destruct (Qlt_le_dec a b) as [H | H].
  - apply Qle_refl.
  - exact H.
Qed.

Lemma Math_min_le_l (a b : Q) : (Math_min a b <= a)%Q.
Proof.
  unfold Math_min. destruct (Qlt_le_dec b a) as [H | H].
  - apply Qlt_le_weak, H.
  - apply Qle_refl.
Qed.

Lemma Math_min_le_r (a b : Q) : (Math_min a b <= b)%Q.
Proof.
  unfold Math_min. destruct (Qlt_le_dec b a) as [H | H].
  - apply Qle_refl.
  - exact H.
Qed.

(** C7. Whatever quality is requested, [optimizeJPEG] hands
    [max(0.85, quality)] to the JPEG encode, which is at least 0.85; the
    dispatcher reaches it for both spellings of the format. *)
Theorem C7_jpeg_quality_floor :
  forall (br : Browser) (canvas : Canvas) (config : Encoder.FormatConfig) (q : Q),
    Encoder.optimizeJPEG br canvas config q
      = toDataURL br canvas "image/jpeg" (Some (Math_max (85 # 100) q))
    /\ (85 # 100 <= Math_max (85 # 100) q)%Q
    /\ (q <= Math_max (85 # 100) q)%Q
    /\ Encoder.applyFormatOptimization br Encoder.formatConfigs canvas "jpg" (Some q)
         = toDataURL br canvas "image/jpeg" (Some (Math_max (85 # 100) q))
    /\ Encoder.applyFormatOptimization br Encoder.formatConfigs canvas "jpeg" (Some q)
         = toDataURL br canvas "image/jpeg" (Some (Math_max (85 # 100) q)).
Proof.
  intros br canvas config q. repeat split.
  - apply Math_max_ge_l.
  - apply Math_max_ge_r.
Qed.

(** C8. With a configuration marked lossless [optimizeWebP] and
    [optimizeAVIF] encode at quality 1.0 whatever was requested; with one not
    marked lossless they pass the requested quality on. Through the dispatcher
    and the constructor's table, whose [webp] and [avif] entries are lossless,
    the quality is 1.0. *)
Theorem C8_webp_avif_lossless_quality :
  forall (br : Browser) (canvas : Canvas) (q : Q),
    Encoder.optimizeWebP br canvas {| Encoder.lossless := true |} q
      = toDataURL br canvas "image/webp" (Some 1%Q)
    /\ Encoder.optimizeAVIF br canvas {| Encoder.lossless := true |} q
      = toDataURL br canvas "image/avif" (Some 1%Q)
    /\ Encoder.optimizeWebP br canvas {| Encoder.lossless := false |} q
      = toDataURL br canvas "image/webp" (Some q)
    /\ Encoder.optimizeAVIF br canvas {| Encoder.lossless := false |} q
      = toDataURL br canvas "image/avif" (Some q)
    /\ Encoder.applyFormatOptimization br Encoder.formatConfigs canvas "webp" (Some q)
      = toDataURL br canvas "image/webp" (Some 1%Q)
    /\ Encoder.applyFormatOptimization br Encoder.formatConfigs canvas "avif" (Some q)
      = toDataURL br canvas "image/avif" (Some 1%Q).
Proof.
  intros br canvas q. repeat split.
Qed.

(** ** Target dimensions *)

Lemma Math_round_near (q : Q) :
  (inject_Z (Math_round q) <= q + (1 # 2) /\ q - (1 # 2) < inject_Z (Math_round q))%Q.
Proof.
  unfold Math_round.
  pose proof (Qfloor_le (q + (1 # 2))) as Hle.
  pose proof (Qlt_floor (q + (1 # 2))) as Hlt.
  rewrite inject_Z_plus in Hlt. change (inject_Z 1) with 1%Q in Hlt.
  split; lra.
Qed.

Lemma Math_round_comp (a b : Q) : (a == b)%Q -> Math_round a = Math_round b.
Proof.
  intros H. unfold Math_round. apply Qfloor_comp. rewrite H. reflexivity.
Qed.

Lemma inject_Z_pos (z : Z) : 0 < z -> (0 < inject_Z z)%Q.
Proof.
  intros H. change 0%Q with (inject_Z 0). rewrite <- Zlt_Qlt. exact H.
Qed.

Lemma truthy_false_or_else (v : option Z) (d : Z) :
  truthy v = false -> or_else v d = d.
Proof.
  destruct v as [z |]; simpl; [| reflexivity].
  destruct (Z.eqb_spec z 0); simpl; [reflexivity | discriminate].
Qed.

(** *** binary64 rounding *)

Lemma pow2_pos (e : Z) : (0 < pow2 e)%Q.
Proof. apply Qpower_0_lt. reflexivity. Qed.

Lemma pow2_plus (a b : Z) : (pow2 (a + b) == pow2 a * pow2 b)%Q.
Proof. apply Qpower_plus. discriminate. Qed.

Lemma pow2_le (a b : Z) : a <= b -> (pow2 a <= pow2 b)%Q.
Proof. intros H. apply Qpower_le_compat_l; [exact H | discriminate]. Qed.

Lemma pow2_lt_inv (a b : Z) : (pow2 a < pow2 b)%Q -> a < b.
Proof. intros H. apply (Qpower_lt_compat_l_inv 2); [exact H | reflexivity]. Qed.

Lemma pow2_inject (k : Z) : 0 <= k -> (inject_Z (2 ^ k) == pow2 k)%Q.
Proof. intros H. apply (Zpower_Qpower 2 k H). Qed.

Lemma ilog2_spec (q : Q) :
  ~ (q == 0)%Q -> (pow2 (ilog2 q) <= Qabs q /\ Qabs q < pow2 (ilog2 q + 1))%Q.
Proof.
  destruct q as [n d]. intros Hq.
  assert (Ha : 0 < Z.abs n).
  { assert (n <> 0) by (intros ->; apply Hq; reflexivity). lia. }
  unfold ilog2. cbn [Qnum Qden].
  set (a := Z.abs n) in *. set (ln := Z.log2 a). set (ld := Z.log2 (Zpos d)).
  destruct (Z.log2_spec a Ha) as [La Ua].
  destruct (Z.log2_spec (Zpos d) ltac:(lia)) as [Ld Ud].
  fold ln in La, Ua. fold ld in Ld, Ud.
  assert (Hln : 0 <= ln) by apply Z.log2_nonneg.
  assert (Hld : 0 <= ld) by apply Z.log2_nonneg.
  assert (Habs : (Qabs (n # d) == inject_Z a / inject_Z (Zpos d))%Q).
  { change (Qabs (n # d)) with (a # d). apply Qmake_Qdiv. }
  assert (Qd : (0 < inject_Z (Zpos d))%Q) by reflexivity.
  assert (QLa : (pow2 ln <= inject_Z a)%Q).
  { rewrite <- pow2_inject by lia. rewrite <- Zle_Qle. exact La. }
  assert (QUa : (inject_Z a < pow2 (ln + 1))%Q).
  { rewrite <- pow2_inject by lia. rewrite <- Zlt_Qlt. exact Ua. }
  assert (QLd : (pow2 ld <= inject_Z (Zpos d))%Q).
  { rewrite <- pow2_inject by lia. rewrite <- Zle_Qle. exact Ld. }
  assert (QUd : (inject_Z (Zpos d) < pow2 (ld + 1))%Q).
  { rewrite <- pow2_inject by lia. rewrite <- Zlt_Qlt. exact Ud. }
  destruct (Qle_bool (pow2 (ln - ld)) (Qabs (n # d))) eqn:E.
  - apply Qle_bool_iff in E. split; [exact E |].
    rewrite Habs. apply Qlt_shift_div_r; [exact Qd |].
    apply Qlt_le_trans with (1 := QUa).
    replace (ln + 1) with ((ln - ld + 1) + ld) by ring.
    rewrite pow2_plus.
    apply Qmult_le_l; [apply pow2_pos | exact QLd].
  - assert (E' : (Qabs (n # d) < pow2 (ln - ld))%Q).
    { apply Qnot_le_lt. intros H. apply Qle_bool_iff in H. congruence. }
    split.
    + rewrite Habs. apply Qle_shift_div_l; [exact Qd |].
      apply Qle_trans with (2 := QLa).
      replace ln with ((ln - ld - 1) + (ld + 1)) at 2 by ring.
      rewrite pow2_plus.
      apply Qmult_le_l; [apply pow2_pos | apply Qlt_le_weak, QUd].
    + replace (ln - ld - 1 + 1) with (ln - ld) by ring. exact E'.
Qed.

Lemma ilog2_ge (q : Q) (k : Z) :
  ~ (q == 0)%Q -> (pow2 k <= Qabs q)%Q -> k <= ilog2 q.
Proof.
  intros Hq Hk. destruct (ilog2_spec q Hq) as [_ Hu].
  assert (H : k < ilog2 q + 1).
  { apply pow2_lt_inv. apply Qle_lt_trans with (1 := Hk). exact Hu. }
  lia.
Qed.

Lemma roundEven_near (x : Q) :
  (x - (1 # 2) <= inject_Z (roundEven x) /\ inject_Z (roundEven x) <= x + (1 # 2))%Q.
Proof.
  unfold roundEven.
  pose proof (Qfloor_le x) as Hle. pose proof (Qlt_floor x) as Hlt.
  rewrite inject_Z_plus in Hlt. change (inject_Z 1) with 1%Q in Hlt.
  destruct (Qlt_le_dec (x - inject_Z (Qfloor x)) (1 # 2)) as [A | A].
  - split; lra.
  - destruct (Qlt_le_dec (1 # 2) (x - inject_Z (Qfloor x))) as [B | B].
    + rewrite inject_Z_plus. change (inject_Z 1) with 1%Q. split; lra.
    + destruct (Z.even (Qfloor x)).
      * split; lra.
      * rewrite inject_Z_plus. change (inject_Z 1) with 1%Q. split; lra.
Qed.

(** Relative error of one rounding in the normal range. *)
Lemma round64_error (q : Q) :
  (0 < q)%Q -> (pow2 (-1022) <= q)%Q ->
  (q * (1 - pow2 (-53)) <= round64 q /\ round64 q <= q * (1 + pow2 (-53)))%Q.
Proof.
  intros Hpos Hnormal.
  assert (Hq : ~ (q == 0)%Q) by lra.
  assert (Habs : (Qabs q == q)%Q) by (apply Qabs_pos; lra).
  assert (He : -1022 <= ilog2 q).
  { apply ilog2_ge; [exact Hq |]. rewrite Habs. exact Hnormal. }
  destruct (ilog2_spec q Hq) as [Hl _]. rewrite Habs in Hl.
  unfold round64.
  destruct (Qeq_bool q 0) eqn:E; [apply Qeq_bool_iff in E; contradiction |].
  rewrite Z.max_l by lia.
  set (e := ilog2 q) in *. set (ulp := pow2 (e - 52)).
  assert (Hulp : (0 < ulp)%Q) by apply pow2_pos.
  destruct (roundEven_near (q / ulp)) as [Lo Hi].
  set (k := inject_Z (roundEven (q / ulp))) in *.
  assert (Hq' : (q == q / ulp * ulp)%Q) by (field; lra).
  assert (Hhalf : (ulp * (1 # 2) <= q * pow2 (-53))%Q).
  { assert (Hu : (ulp * (1 # 2) == pow2 e * pow2 (-53))%Q).
    { unfold ulp. replace (e - 52) with (e + -52) by ring. rewrite pow2_plus.
      change (pow2 (-52)) with (1 # 4503599627370496)%Q.
      change (pow2 (-53)) with (1 # 9007199254740992)%Q. field. }
    rewrite Hu. apply Qmult_le_compat_r; [exact Hl | apply Qlt_le_weak, pow2_pos]. }
  assert (L : ((q / ulp - (1 # 2)) * ulp <= k * ulp)%Q).
  { apply Qmult_le_compat_r; lra. }
  assert (U : (k * ulp <= (q / ulp + (1 # 2)) * ulp)%Q).
  { apply Qmult_le_compat_r; lra. }
  split; lra.
Qed.

(** Two roundings of a quotient, one rounding inside the divisor: the
    relative error is at most [4 * 2^-53]. *)
Lemma quotient_bounds (w r a s t q : Q) :
  let u := (1 # 9007199254740992)%Q in
  (0 < w)%Q -> (0 < r)%Q ->
  (r * (1 - u) <= a /\ a <= r * (1 + u))%Q ->
  (s == w / a)%Q -> (t == w / r)%Q ->
  (s * (1 - u) <= q /\ q <= s * (1 + u))%Q ->
  (t * (1 - 4 * u) <= q /\ q <= t * (1 + 4 * u))%Q.
Proof.
  intros u Hw Hr [La Ua] Hs Ht [Lq Uq]. unfold u in *. clear u.
  assert (Ha : (0 < a)%Q) by lra.
  assert (Hsa : (s * a == w)%Q) by (rewrite Hs; field; lra).
  assert (Htr : (t * r == w)%Q) by (rewrite Ht; field; lra).
  assert (Htpos : (0 < t)%Q).
  { rewrite Ht. apply Qlt_shift_div_l; lra. }
  assert (Hspos : (0 < s)%Q).
  { rewrite Hs. apply Qlt_shift_div_l; lra. }
  assert (S1 : (s <= t * (1 + 2 * (1 # 9007199254740992)))%Q).
  { rewrite Hs. apply Qle_shift_div_r; [exact Ha |].
    rewrite <- Htr. rewrite <- Qmult_assoc. apply Qmult_le_l; [exact Htpos |]. lra. }
  assert (S2 : (t * (1 - 2 * (1 # 9007199254740992)) <= s)%Q).
  { rewrite Hs. apply Qle_shift_div_l; [exact Ha |].
    rewrite <- Htr. rewrite <- Qmult_assoc. apply Qmult_le_l; [exact Htpos |]. lra. }
  split; lra.
Qed.

Lemma product_bounds (h r a q : Q) :
  let u := (1 # 9007199254740992)%Q in
  (0 < h)%Q -> (0 < r)%Q ->
  (r * (1 - u) <= a /\ a <= r * (1 + u))%Q ->
  (h * a * (1 - u) <= q /\ q <= h * a * (1 + u))%Q ->
  (h * r * (1 - 4 * u) <= q /\ q <= h * r * (1 + 4 * u))%Q.
Proof.
  intros u Hh Hr [La Ua] [Lq Uq]. unfold u in *. clear u.
  assert (P1 : (h * (r * (1 - (1 # 9007199254740992))) <= h * a)%Q).
  { apply Qmult_le_l; [exact Hh | exact La]. }
  assert (P2 : (h * a <= h * (r * (1 + (1 # 9007199254740992))))%Q).
  { apply Qmult_le_l; [exact Hh | exact Ua]. }
  assert (Hhr : (0 < h * r)%Q) by (apply Qmult_lt_0_compat; assumption).
  set (p := (h * a)%Q) in *. 
  assert (P1' : (h * r * (1 - (1 # 9007199254740992)) <= p)%Q) by lra.
  assert (P2' : (p <= h * r * (1 + (1 # 9007199254740992)))%Q) by lra.
  set (t := (h * r)%Q) in *.
  split; lra.
Qed.

Lemma Qfloor_unique (x : Q) (k : Z) :
  (inject_Z k <= x)%Q -> (x < inject_Z (k + 1))%Q -> Qfloor x = k.
Proof.
  intros Hl Hu.
  pose proof (Qfloor_resp_le _ _ Hl) as H1. rewrite Qfloor_Z in H1.
  pose proof (Qfloor_le x) as H2.
  assert (H3 : Qfloor x < k + 1).
  { rewrite Zlt_Qlt. apply Qle_lt_trans with (1 := H2). exact Hu. }
  lia.
Qed.

Lemma Math_round_le (a b : Q) : (a <= b)%Q -> Math_round a <= Math_round b.
Proof. intros H. unfold Math_round. apply Qfloor_resp_le. lra. Qed.

(** What [Math.round] makes of a number [q] within the relative distance
    [2^-51] of [exact]. *)
Lemma rounded_near_exact (exact q : Q) :
  (0 < exact)%Q ->
  (exact * (1 - 4 * (1 # 9007199254740992)) <= q
   /\ q <= exact * (1 + 4 * (1 # 9007199254740992)))%Q ->
  let slack := (exact * pow2 (-51))%Q in
  (Qabs (inject_Z (Math_round q) - exact) <= (1 # 2) + slack)%Q
  /\ Math_round (exact - slack) <= Math_round q <= Math_round (exact + slack)
  /\ (Math_round (exact - slack) = Math_round (exact + slack) ->
      Math_round q = Math_round exact)
  /\ (forall k, (exact == inject_Z k)%Q -> k < 2 ^ 50 -> Math_round q = k).
Proof.
  intros Hpos [Lq Uq] slack. unfold slack.
  change (pow2 (-51)) with (1 # 2251799813685248)%Q.
  destruct (Math_round_near q) as [Hle Hlt].
  assert (Hlo : Math_round (exact - exact * (1 # 2251799813685248)) <= Math_round q).
  { apply Math_round_le. lra. }
  assert (Hhi : Math_round q <= Math_round (exact + exact * (1 # 2251799813685248))).
  { apply Math_round_le. lra. }
  split; [| split; [| split]].
  - apply Qabs_Qle_condition. split; lra.
  - split; assumption.
  - intros E.
    assert (H1 : Math_round (exact - exact * (1 # 2251799813685248)) <= Math_round exact).
    { apply Math_round_le. lra. }
    assert (H2 : Math_round exact <= Math_round (exact + exact * (1 # 2251799813685248))).
    { apply Math_round_le. lra. }
    lia.
  - intros k Hk Hsmall.
    assert (Qk : (inject_Z k < 1125899906842624)%Q).
    { change 1125899906842624%Q with (inject_Z (2 ^ 50)). rewrite <- Zlt_Qlt. exact Hsmall. }
    unfold Math_round. apply Qfloor_unique.
    + lra.
    + rewrite inject_Z_plus. change (inject_Z 1) with 1%Q. lra.
Qed.

Lemma natural_size_bounds (z : Z) (b : Z) :
  0 < z -> z <= b -> (1 <= inject_Z z /\ inject_Z z <= inject_Z b)%Q.
Proof.
  intros H1 H2. split.
  - change 1%Q with (inject_Z 1). rewrite <- Zle_Qle. lia.
  - rewrite <- Zle_Qle. exact H2.
Qed.

(** The binary64 aspect ratio of a source of natural size below [2^32]. *)
Lemma aspectRatio_bounds (nw nh : Z) :
  0 < nw < 2 ^ 32 -> 0 < nh < 2 ^ 32 ->
  let r := (inject_Z nw / inject_Z nh)%Q in
  let a := div64 (inject_Z nw) (inject_Z nh) in
  ((1 # 4294967296) <= r /\ r <= 4294967296)%Q
  /\ (r * (1 - (1 # 9007199254740992)) <= a /\ a <= r * (1 + (1 # 9007199254740992)))%Q.
Proof.
  intros Hnw Hnh r a.
  destruct (natural_size_bounds nw (2 ^ 32) ltac:(lia) ltac:(lia)) as [W1 W2].
  destruct (natural_size_bounds nh (2 ^ 32) ltac:(lia) ltac:(lia)) as [H1 H2].
  change (inject_Z (2 ^ 32)) with 4294967296%Q in W2, H2.
  assert (Rl : ((1 # 4294967296) <= r)%Q).
  { unfold r. apply Qle_shift_div_l; lra. }
  assert (Ru : (r <= 4294967296)%Q).
  { unfold r. apply Qle_shift_div_r; lra. }
  split; [split; assumption |].
  assert (Hn : (pow2 (-1022) <= r)%Q).
  { apply Qle_trans with (pow2 (-32)); [apply pow2_le; lia |].
    change (pow2 (-32)) with (1 # 4294967296)%Q. exact Rl. }
  pose proof (round64_error r ltac:(lra) Hn) as E.
  change (pow2 (-53)) with (1 # 9007199254740992)%Q in E. exact E.
Qed.

(** [width / aspectRatio] in binary64 against the exact [width * nh / nw]. *)
Lemma derived_height_bounds (w nw nh : Z) :
  0 < w <= 2 ^ 53 -> 0 < nw < 2 ^ 32 -> 0 < nh < 2 ^ 32 ->
  let exact := (inject_Z w * inject_Z nh / inject_Z nw)%Q in
  let q := div64 (inject_Z w) (div64 (inject_Z nw) (inject_Z nh)) in
  (0 < exact)%Q
  /\ (exact * (1 - 4 * (1 # 9007199254740992)) <= q
      /\ q <= exact * (1 + 4 * (1 # 9007199254740992)))%Q.
Proof.
  intros Hw Hnw Hnh exact q.
  destruct (aspectRatio_bounds nw nh Hnw Hnh) as [[Rl Ru] [La Ua]].
  destruct (natural_size_bounds w (2 ^ 53) ltac:(lia) ltac:(lia)) as [W1 W2].
  destruct (natural_size_bounds nw (2 ^ 32) ltac:(lia) ltac:(lia)) as [N1 _].
  destruct (natural_size_bounds nh (2 ^ 32) ltac:(lia) ltac:(lia)) as [M1 _].
  set (r := (inject_Z nw / inject_Z nh)%Q) in *.
  set (a := div64 (inject_Z nw) (inject_Z nh)) in *.
  assert (Ha : (0 < a)%Q) by lra.
  assert (Hex : (exact == inject_Z w / r)%Q) by (unfold exact, r; field; lra).
  assert (Hs : (pow2 (-1022) <= inject_Z w / a)%Q).
  { apply Qle_trans with (pow2 (-33)); [apply pow2_le; lia |].
    change (pow2 (-33)) with (1 # 8589934592)%Q.
    apply Qle_shift_div_l; lra. }
  assert (Hspos : (0 < inject_Z w / a)%Q) by (apply Qlt_shift_div_l; lra).
  pose proof (round64_error (inject_Z w / a) Hspos Hs) as E.
  change (pow2 (-53)) with (1 # 9007199254740992)%Q in E.
  split.
  - rewrite Hex. apply Qlt_shift_div_l; lra.
  - apply (quotient_bounds (inject_Z w) r a (inject_Z w / a) exact q);
      [lra | lra | split; assumption | reflexivity | exact Hex | exact E].
Qed.

(** [height * aspectRatio] in binary64 against the exact [height * nw / nh]. *)
Lemma derived_width_bounds (h nw nh : Z) :
  0 < h <= 2 ^ 53 -> 0 < nw < 2 ^ 32 -> 0 < nh < 2 ^ 32 ->
  let exact := (inject_Z h * inject_Z nw / inject_Z nh)%Q in
  let q := mul64 (inject_Z h) (div64 (inject_Z nw) (inject_Z nh)) in
  (0 < exact)%Q
  /\ (exact * (1 - 4 * (1 # 9007199254740992)) <= q
      /\ q <= exact * (1 + 4 * (1 # 9007199254740992)))%Q.
Proof.
  intros Hh Hnw Hnh exact q.
  destruct (aspectRatio_bounds nw nh Hnw Hnh) as [[Rl Ru] [La Ua]].
  destruct (natural_size_bounds h (2 ^ 53) ltac:(lia) ltac:(lia)) as [W1 W2].
  destruct (natural_size_bounds nh (2 ^ 32) ltac:(lia) ltac:(lia)) as [M1 _].
  set (r := (inject_Z nw / inject_Z nh)%Q) in *.
  set (a := div64 (inject_Z nw) (inject_Z nh)) in *.
  assert (Ha : ((1 # 8589934592) <= a)%Q) by lra.
  assert (Hex : (exact == inject_Z h * r)%Q) by (unfold exact, r; field; lra).
  assert (Hp : ((1 # 8589934592) <= inject_Z h * a)%Q).
  { apply Qle_trans with (1 * a)%Q; [lra |].
    apply Qmult_le_compat_r; lra. }
  assert (Hs : (pow2 (-1022) <= inject_Z h * a)%Q).
  { apply Qle_trans with (pow2 (-33)); [apply pow2_le; lia |].
    change (pow2 (-33)) with (1 # 8589934592)%Q. exact Hp. }
  pose proof (round64_error (inject_Z h * a) ltac:(lra) Hs) as E.
  change (pow2 (-53)) with (1 # 9007199254740992)%Q in E.
  assert (Hpos : (0 < inject_Z h * r)%Q) by (apply Qmult_lt_0_compat; lra).
  split; [lra |].
  pose proof (product_bounds (inject_Z h) r a q ltac:(lra) ltac:(lra)
                (conj La Ua) E) as [B1 B2].
  cbv zeta in B1, B2.
  split; lra.
Qed.

(** C6, as amended. With aspect preservation on and exactly one of width and
    height given, the other target dimension is [Math.round] of a binary64
    quotient or product, not of the exact proportional value
    [exact = given * otherNatural / givenNatural]. It lies within
    [1/2 + exact * 2^-51] of [exact], between the roundings of
    [exact - exact * 2^-51] and [exact + exact * 2^-51]; it is [round(exact)]
    whenever those two roundings agree, and it is [exact] itself whenever
    [exact] is a whole number below [2^50]. A 4000 x 3000 source with width
    800 yields 800 x 600. *)
Theorem C6_derived_dimension :
  forall (nw nh : Z) (settings : Settings.t),
    0 < nw < 2 ^ 32 -> 0 < nh < 2 ^ 32 ->
    Settings.maintainAspect settings <> Some false ->
    (forall w, Settings.width settings = Some w -> 0 < w <= 2 ^ 53 ->
       truthy (Settings.height settings) = false ->
       let exact := (inject_Z w * inject_Z nh / inject_Z nw)%Q in
       let slack := (exact * pow2 (-51))%Q in
       let derived := snd (Pipeline.targetDimensions nw nh settings) in
       fst (Pipeline.targetDimensions nw nh settings) = w
       /\ (Qabs (inject_Z derived - exact) <= (1 # 2) + slack)%Q
       /\ Math_round (exact - slack) <= derived <= Math_round (exact + slack)
       /\ (Math_round (exact - slack) = Math_round (exact + slack) ->
           derived = Math_round exact)
       /\ (forall k, (exact == inject_Z k)%Q -> k < 2 ^ 50 -> derived = k))
    /\ (forall h, Settings.height settings = Some h -> 0 < h <= 2 ^ 53 ->
       truthy (Settings.width settings) = false ->
       let exact := (inject_Z h * inject_Z nw / inject_Z nh)%Q in
       let slack := (exact * pow2 (-51))%Q in
       let derived := fst (Pipeline.targetDimensions nw nh settings) in
       snd (Pipeline.targetDimensions nw nh settings) = h
       /\ (Qabs (inject_Z derived - exact) <= (1 # 2) + slack)%Q
       /\ Math_round (exact - slack) <= derived <= Math_round (exact + slack)
       /\ (Math_round (exact - slack) = Math_round (exact + slack) ->
           derived = Math_round exact)
       /\ (forall k, (exact == inject_Z k)%Q -> k < 2 ^ 50 -> derived = k))
    /\ Pipeline.targetDimensions 4000 3000
         {| Settings.format := "webp"; Settings.quality := Some 1%Q;
            Settings.width := Some 800; Settings.height := None;
            Settings.maintainAspect := Some true |} = (800, 600).
Proof.
  intros nw nh settings Hnw Hnh Hasp.
  assert (Hma : match Settings.maintainAspect settings with
                | Some b => b | None => true end = true).
  { destruct (Settings.maintainAspect settings) as [[|] |]; congruence. }
  split; [| split].
  - intros w Hw Hw0 Hh exact slack derived.
    assert (Ht : truthy (Some w) = true).
    { simpl. destruct (Z.eqb_spec w 0); [lia | reflexivity]. }
    assert (Ho : forall d, or_else (Some w) d = w).
    { intros d. simpl. destruct (Z.eqb_spec w 0); [lia | reflexivity]. }
    assert (E : Pipeline.targetDimensions nw nh settings
                = (w, Math_round (div64 (inject_Z w) (div64 (inject_Z nw) (inject_Z nh))))).
    { unfold Pipeline.targetDimensions. rewrite Hma, Hw, Hh, Ht.
      simpl orb. simpl andb. cbv iota. rewrite !Ho. reflexivity. }
    unfold derived. rewrite E. cbn [fst snd].
    destruct (derived_height_bounds w nw nh Hw0 Hnw Hnh) as [Hpos Hq].
    split; [reflexivity |].
    exact (rounded_near_exact exact _ Hpos Hq).
  - intros h Hh Hh0 Hw exact slack derived.
    assert (Ht : truthy (Some h) = true).
    { simpl. destruct (Z.eqb_spec h 0); [lia | reflexivity]. }
    assert (Ho : forall d, or_else (Some h) d = h).
    { intros d. simpl. destruct (Z.eqb_spec h 0); [lia | reflexivity]. }
    assert (E : Pipeline.targetDimensions nw nh settings
                = (Math_round (mul64 (inject_Z h) (div64 (inject_Z nw) (inject_Z nh))), h)).
    { unfold Pipeline.targetDimensions. rewrite Hma, Hh, Hw, Ht.
      simpl orb. simpl andb. cbv iota. rewrite !Ho. reflexivity. }
    unfold derived. rewrite E. cbn [fst snd].
    destruct (derived_width_bounds h nw nh Hh0 Hnw Hnh) as [Hpos Hq].
    split; [reflexivity |].
    exact (rounded_near_exact exact _ Hpos Hq).
  - vm_compute. reflexivity.
Qed.

(** The pipeline reports the dimensions [targetDimensions] computes. *)
Lemma applyLosslessProcessing_dimensions :
  forall br opts nw nh settings pd,
    Pipeline.applyLosslessProcessing br opts (nw, nh) settings = Resolved pd ->
    Pipeline.dimensions pd = Pipeline.targetDimensions nw nh settings.
Proof.
  intros br opts nw nh settings pd. unfold Pipeline.applyLosslessProcessing.
  destruct (Pipeline.targetDimensions nw nh settings) as [tw th].
  destruct (nth_error _ 1); [| discriminate].
  intros H. injection H as <-. reflexivity.
Qed.

Lemma C6_witness :
  snd (Pipeline.targetDimensions 1920 1080
         {| Settings.format := "png"; Settings.quality := None;
            Settings.width := Some 1280; Settings.height := None;
            Settings.maintainAspect := None |}) = 720.
Proof.
  destruct (C6_derived_dimension 1920 1080
              {| Settings.format := "png"; Settings.quality := None;
                 Settings.width := Some 1280; Settings.height := None;
                 Settings.maintainAspect := None |}
              ltac:(lia) ltac:(lia) ltac:(discriminate)) as [H _].
  destruct (H 1280 eq_refl ltac:(lia) eq_refl) as [_ [_ [_ [_ E]]]].
  exact (E 720 ltac:(reflexivity) ltac:(lia)).
Defined.

(** C6, as stated, fails at a tie. For a 100 x 127 source and width 50 the
    exact proportional height is 63.5, which rounds to 64; the binary64
    quotient [50 / (100 / 127)] lies just below 63.5 and the pipeline
    derives 63. *)
Lemma C6_counterexample :
  Pipeline.targetDimensions 100 127 Scenario.tieSettings = (50, 63)
  /\ Math_round (inject_Z 50 * inject_Z 127 / inject_Z 100) = 64
  /\ Pipeline.targetDimensions 100 127 Scenario.tieSettings
     <> (50, Math_round (inject_Z 50 * inject_Z 127 / inject_Z 100)).
Proof.
  split; [vm_compute; reflexivity |].
  split; [vm_compute; reflexivity |].
  vm_compute. discriminate.
Qed.

(** [round64] against the kernel's binary64 division and multiplication: at
    the tie above, and on every combination of the listed sizes. *)
Lemma round64_is_binary64 :
  option_map Math_round
    (Q_of_float (PrimFloat.div (float_of_Z 50)
                   (PrimFloat.div (float_of_Z 100) (float_of_Z 127)))) = Some 63
  /\ forallb (fun w => forallb (fun nw => forallb (fun nh => agree64 w nw nh)
                                   Scenario.sizes) Scenario.sizes) Scenario.sizes = true.
Proof.
  split; vm_compute; reflexivity.
Qed.

(** ** Crop coordinates *)

Lemma round_trip_component (s c : Q) :
  (0 < s)%Q ->
  (Qabs (inject_Z (Math_round (c / s)) * s - c) <= s * (1 # 2))%Q.
Proof.
  intros Hs.
  destruct (Math_round_near (c / s)) as [Hle Hlt].
  assert (Hc : (c == c / s * s)%Q) by (field; lra).
  set (q := (c / s)%Q) in *. set (k := inject_Z (Math_round q)) in *.
  apply Qabs_Qle_condition. split.
  - assert (H : ((q - (1 # 2)) * s <= k * s)%Q).
    { apply Qmult_le_compat_r; lra. }
    lra.
  - assert (H : (k * s <= (q + (1 # 2)) * s)%Q).
    { apply Qmult_le_compat_r; lra. }
    lra.
Qed.

(** C9. For a scale factor in (0, 1], rounding each preview coordinate
    divided by the scale and multiplying the result by the scale again gives
    back the preview rectangle within one pixel in each of x, y, width and
    height (within half a pixel, in fact). *)
Theorem C9_crop_round_trip :
  forall (scale : Q) (area : Crop.CropArea),
    (0 < scale)%Q -> (scale <= 1)%Q ->
    let back := Crop.toPreviewArea scale (Crop.toSourceArea scale area) in
    (Qabs (Crop.x back - Crop.x area) <= 1
     /\ Qabs (Crop.y back - Crop.y area) <= 1
     /\ Qabs (Crop.width back - Crop.width area) <= 1
     /\ Qabs (Crop.height back - Crop.height area) <= 1)%Q
    /\ (Qabs (Crop.x back - Crop.x area) <= 1 # 2
     /\ Qabs (Crop.y back - Crop.y area) <= 1 # 2
     /\ Qabs (Crop.width back - Crop.width area) <= 1 # 2
     /\ Qabs (Crop.height back - Crop.height area) <= 1 # 2)%Q.
Proof.
  intros scale area Hpos Hle back.
  assert (H : forall c, (Qabs (inject_Z (Math_round (c / scale)) * scale - c) <= 1 # 2)%Q).
  { intros c. pose proof (round_trip_component scale c Hpos). lra. }
  assert (H1 : forall c, (Qabs (inject_Z (Math_round (c / scale)) * scale - c) <= 1)%Q).
  { intros c. specialize (H c). lra. }
  unfold back, Crop.toPreviewArea, Crop.toSourceArea.
  cbn [Crop.x Crop.y Crop.width Crop.height Crop.sx Crop.sy Crop.swidth Crop.sheight].
  repeat split; auto.
Qed.

Lemma C9_witness :
  let area := {| Crop.x := 101; Crop.y := 57; Crop.width := 333; Crop.height := 200 |} in
  let back := Crop.toPreviewArea (1 # 5) (Crop.toSourceArea (1 # 5) area) in
  (Qabs (Crop.x back - Crop.x area) <= 1)%Q.
Proof.
  intros area back.
  destruct (C9_crop_round_trip (1 # 5) area ltac:(reflexivity) ltac:(discriminate))
    as [[H _] _].
  exact H.
Defined.

(** ** Transform pipeline *)

Lemma findIndex_nth_error (imgs : list ImageRecord) (imageId : Q) :
  forall i im, findIndex imgs imageId = Some (i, im) ->
    nth_error imgs i = Some im /\ Qeq_bool (id im) imageId = true.
Proof.
  induction imgs as [| a rest IH]; simpl; intros i im H; [discriminate |].
  destruct (Qeq_bool (id a) imageId) eqn:E.
  - injection H as <- <-. auto.
  - destruct (findIndex rest imageId) as [[j found] |]; [| discriminate].
    injection H as <- <-. simpl. apply IH. reflexivity.
Qed.

Lemma nth_error_store {A : Type} (l : list A) (i : nat) (a b : A) :
  nth_error l i = Some b -> nth_error (store l i a) i = Some a.
Proof.
  revert i. induction l as [| c rest IH]; intros [| j]; simpl; try discriminate; auto.
Qed.







(** A failing item ends the loop: the rejection of [processImageWithSettings]
    is the result of [batchLoop], and no later image is visited. *)
Lemma batchLoop_rejects :
  forall br fuel app app' settings i image error,
    nth_error (images app) i = Some image ->
    Pipeline.processImageWithSettings br app (id image) settings = (app', Rejected error) ->
    Pipeline.batchLoop br (S fuel) app settings i = Some (app', Rejected error).
Proof.
  intros br fuel app app' settings i image error Hnth Hrej.
  simpl. rewrite Hnth, Hrej. reflexivity.
Qed.

(** C1. Three listed images, the second of which no longer decodes:
    [batchProcess] rejects with the decode failure of the second image. The
    first image is processed; the third, which the pipeline transforms when
    asked directly, is never visited; the progress modal stays open and no
    completion toast is shown. *)
Theorem C1_batch_stops_at_failed_item :
  exists app',
    Pipeline.batchProcess Scenario.host Scenario.threeImages Scenario.pngForm
      = Some (app', Rejected (Err "Failed to load image for processing"))
    /\ map processed (images app') = [true; false; false]
    /\ totalProcessed app' = 1
    /\ progressModal app' = true
    /\ notifications app' = [("Képfeldolgozás sikertelen!", "error")]
    /\ exists app3 pd,
         Pipeline.processImageWithSettings Scenario.host Scenario.threeImages 3%Q
           Scenario.pngSettings = (app3, Resolved (Some pd)).
Proof.
  eexists. split; [vm_compute; reflexivity |].
  repeat split. eexists _, _. vm_compute. reflexivity.
Qed.

(** C3. One image is added and transformed twice with the same settings, each
    transform producing a 3-byte artifact. After the first transform the
    counters agree with the list; after the second [compressedSize] is 6 while
    the only artifact in the list has 3 bytes; after the image is removed the
    list is empty and [compressedSize] is still 3. *)
Theorem C3_repeated_transform_counts_twice :
  countersPaired Scenario.added
  /\ countersPaired Scenario.once
  /\ compressedSize (storageData Scenario.twice) = 6
  /\ sumProcessedSizes (images Scenario.twice) = 3
  /\ ~ countersPaired Scenario.twice
  /\ images Scenario.removed = []
  /\ originalSize (storageData Scenario.removed) = 0
  /\ compressedSize (storageData Scenario.removed) = 3
  /\ ~ countersPaired Scenario.removed.
Proof.
  repeat split; try (vm_compute; reflexivity).
  - intros [_ H]. vm_compute in H. discriminate.
  - intros [_ H]. vm_compute in H. discriminate.
Qed.

(** ** Peer session *)

(** C2. An outbound connection opened by [connectManual] that the remote side
    has closed is still registered; [sendFile] towards it calls [send] on the
    closed connection and reports success, and no failure is signalled. *)
Theorem C2_send_on_closed_outbound_connection :
  map state (heap Scenario.outboundClosed) = [Closed]
  /\ connections Scenario.outboundClosed = [0%nat]
  /\ map sent (heap Scenario.outboundSend)
       = [[(Closed, {| fd_type := "file"; fd_name := "p.png";
                       fd_data := "data:image/png;base64,AAAA"; fd_size := 1000 |})]]
  /\ notifications Scenario.outboundSend
       = (notifications Scenario.outboundClosed ++ [("Fájl elküldve!", "success")])%list.
Proof.
  repeat split.
Qed.

(** An inbound connection that was closed is unregistered by its [close]
    listener, so [sendFile] towards it sends nothing and reports the failure. *)
Lemma send_on_closed_inbound_connection :
  map state (heap Scenario.inboundClosed) = [Closed]
  /\ connections Scenario.inboundClosed = []
  /\ map sent (heap Scenario.inboundSend) = [[]]
  /\ notifications Scenario.inboundSend
       = (notifications Scenario.inboundClosed ++ [("Fájl küldése sikertelen!", "error")])%list.
Proof.
  repeat split.
Qed.

(** [sendFile] sends exactly when the recipient id is found among the
    registered connections; the state of the connection is not consulted. *)
Lemma sendFile_ignores_state :
  forall app imageId connectionId ref image conn c,
    findIndex (images app) imageId = Some (ref, image) ->
    Peer.findConnection (heap app) (connections app) connectionId = Some (conn, c) ->
    notifications (Peer.sendFile app imageId connectionId)
      = (notifications app ++ [("Fájl elküldve!", "success")])%list.
Proof.
  intros app imageId connectionId ref image conn c Hi Hc.
  unfold Peer.sendFile. rewrite Hi, Hc.
  unfold Peer.update. destruct (nth_error (heap app) conn); reflexivity.
Qed.

(** A recipient id that no registered connection carries: nothing is sent and
    the failure is reported. *)
Theorem sendFile_unregistered_rejected :
  forall (app : App) (imageId : Q) (connectionId : string),
    Peer.findConnection (heap app) (connections app) connectionId = None ->
    Peer.sendFile app imageId connectionId
      = showNotification app "Fájl küldése sikertelen!" "error".
Proof.
  intros app imageId connectionId Hc. unfold Peer.sendFile. rewrite Hc.
  destruct (findIndex (images app) imageId) as [[ref image] |]; reflexivity.
Qed.

Lemma sendFile_unregistered_witness :
  Peer.sendFile Scenario.inboundClosed 1%Q "peer-b"
    = showNotification Scenario.inboundClosed "Fájl küldése sikertelen!" "error".
Proof.
  apply (sendFile_unregistered_rejected Scenario.inboundClosed 1%Q "peer-b").
  reflexivity.
Defined.

Lemma nth_error_last {A : Type} (l : list A) (a : A) :
  nth_error (l ++ [a]) (List.length l) = Some a.
Proof.
  induction l as [| b rest IH]; simpl; auto.
Qed.

Lemma store_last {A : Type} (l : list A) (a b : A) :
  store (l ++ [a]) (List.length l) b = (l ++ [b])%list.
Proof.
  induction l as [| c rest IH]; simpl; [reflexivity | rewrite IH; reflexivity].
Qed.

Lemma update_last (app : App) (l : list DataConnection) (c : DataConnection)
    (f : DataConnection -> DataConnection) :
  heap app = (l ++ [c])%list ->
  Peer.update app (List.length l) f = with_peer app (l ++ [f c]) (connections app).
Proof.
  intros H. unfold Peer.update. rewrite H, nth_error_last, store_last. reflexivity.
Qed.

(** The [close] event of an inbound connection takes it out of
    [this.connections] and leaves it closed. *)
Theorem inbound_close_unregisters :
  forall (app : App) (remote : string),
    let conn := List.length (heap app) in
    let closed := Peer.emit (Peer.incoming app remote) conn Peer.EvClose in
    ~ In conn (connections closed)
    /\ option_map state (nth_error (heap closed) conn) = Some Closed.
Proof.
  intros app remote conn closed. subst closed conn.
  unfold Peer.incoming, Peer.handleIncomingConnection.
  cbn [heap connections with_peer].
  do 2 (match goal with
        | |- context [Peer.update ?a (Datatypes.length (heap app)) ?f] =>
            lazymatch a with
            | context [Peer.update] => fail
            | _ => rewrite (update_last a (heap app) _ f eq_refl)
            end
        end; cbn [heap connections with_peer]).
  unfold Peer.emit. cbn [heap connections with_peer]. rewrite nth_error_last.
  match goal with
  | |- context [Peer.update ?a (Datatypes.length (heap app)) ?f] =>
      rewrite (update_last a (heap app) _ f eq_refl)
  end.
  cbn -[filter nth_error].
  split.
  - intros Hin. apply filter_In in Hin. destruct Hin as [_ Hne].
    rewrite Nat.eqb_refl in Hne. discriminate.
  - rewrite nth_error_last. reflexivity.
Qed.

(** ** Resize handles *)

(** C5. On a 100 x 100 canvas and the rectangle (10, 10, 20, 20):
    dragging handle [e] to x = 10 is accepted and leaves width 0, dragging
    handle [s] to y = 10 leaves height 0, and handle [se] at (10, 10) leaves
    both 0; handles [w], [n] and [nw] dragged onto the opposite edge are
    rejected. *)
Theorem C5_resize_accepts_degenerate_rectangle :
  let canvas := {| Crop.cwidth := 100; Crop.cheight := 100 |} in
  let area := {| Crop.x := 10; Crop.y := 10; Crop.width := 20; Crop.height := 20 |} in
  Crop.handleResize canvas 10 15 "e" area
    = {| Crop.x := 10; Crop.y := 10; Crop.width := 0; Crop.height := 20 |}
  /\ Crop.handleResize canvas 15 10 "s" area
    = {| Crop.x := 10; Crop.y := 10; Crop.width := 20; Crop.height := 0 |}
  /\ Crop.handleResize canvas 10 10 "se" area
    = {| Crop.x := 10; Crop.y := 10; Crop.width := 0; Crop.height := 0 |}
  /\ Crop.handleResize canvas 30 15 "w" area = area
  /\ Crop.handleResize canvas 15 30 "n" area = area
  /\ Crop.handleResize canvas 30 30 "nw" area = area.
Proof.
  repeat split.
Qed.

(** ** Crop session *)

(** C4. A selection (100, 100, 400, 300) drawn in a session over a
    1600 x 1200 image survives [closeCropMode]. In the next session, over a
    100 x 100 image, choosing the ratio 4:3 moves it to (-300, -200); a drag
    then puts it at (0, 0). The rectangle has the ratio 4:3 and is not empty,
    and it reaches 400 x 300 over a 100 x 100 canvas. *)
Theorem C4_stale_selection_leaves_canvas :
  let first := Crop.cropArea (Crop.cropState Scenario.firstSession) in
  let chosen := Crop.cropArea (Crop.cropState Scenario.secondSession) in
  let dragged := Crop.cropArea (Crop.cropState Scenario.secondSessionDragged) in
  first = {| Crop.x := 100; Crop.y := 100; Crop.width := 400; Crop.height := 300 |}
  /\ Crop.canvas (Crop.cropState Scenario.secondSessionDragged)
       = Some {| Crop.cwidth := 100; Crop.cheight := 100 |}
  /\ (Crop.x chosen == -300 /\ Crop.y chosen == -200
      /\ Crop.width chosen == 400 /\ Crop.height chosen == 300)%Q
  /\ (Crop.x dragged == 0 /\ Crop.y dragged == 0
      /\ Crop.width dragged == 400 /\ Crop.height dragged == 300)%Q
  /\ (Crop.width dragged / Crop.height dragged == 4 / 3)%Q
  /\ ~ (Crop.x dragged + Crop.width dragged <= 100)%Q
  /\ ~ (Crop.y dragged + Crop.height dragged <= 100)%Q
  /\ ~ (0 <= Crop.x chosen)%Q.
Proof.
  repeat split; try (vm_compute; reflexivity);
    intros H; vm_compute in H; apply H; reflexivity.
Qed.

(** ** Crop session: what the mutations preserve *)

Lemma gt_true (a b : Q) : gt a b = true -> (b < a)%Q.
Proof. unfold gt. destruct (Qlt_le_dec b a); [auto | discriminate]. Qed.

Lemma gt_false (a b : Q) : gt a b = false -> (a <= b)%Q.
Proof. unfold gt. destruct (Qlt_le_dec b a); [discriminate | auto]. Qed.

Lemma ge_true (a b : Q) : ge a b = true -> (b <= a)%Q.
Proof. unfold ge. destruct (Qlt_le_dec a b); [discriminate | auto]. Qed.

Lemma ge_false (a b : Q) : ge a b = false -> (a < b)%Q.
Proof. unfold ge. destruct (Qlt_le_dec a b); [auto | discriminate]. Qed.

Lemma le_true (a b : Q) : le a b = true -> (a <= b)%Q.
Proof. apply ge_true. Qed.

Lemma le_false (a b : Q) : le a b = false -> (b < a)%Q.
Proof. apply ge_false. Qed.

(** Turns the boolean tests of the hypotheses into inequalities. *)
Ltac tests :=
  repeat match goal with
  | H : (_ && _)%bool = true |- _ => apply andb_prop in H; destruct H
  | H : gt _ _ = true |- _ => apply gt_true in H
  | H : gt _ _ = false |- _ => apply gt_false in H
  | H : ge _ _ = true |- _ => apply ge_true in H
  | H : ge _ _ = false |- _ => apply ge_false in H
  | H : le _ _ = true |- _ => apply le_true in H
  | H : le _ _ = false |- _ => apply le_false in H
  end.

Lemma ratios_positive (aspectRatio : string) (r : Q) :
  Crop.ratios aspectRatio = Some r -> (0 < r)%Q.
Proof.
  unfold Crop.ratios.
  repeat match goal with
  | |- context [if ?b then _ else _] => destruct b
  end; intros H; try discriminate; injection H as <-; reflexivity.
Qed.

Lemma ratios_not_free (aspectRatio : string) (r : Q) :
  Crop.ratios aspectRatio = Some r -> (aspectRatio === "free") = false.
Proof.
  intros H. destruct (String.eqb_spec aspectRatio "free") as [-> |]; [| reflexivity].
  discriminate H.
Qed.

(** Inside the canvas [constrainToAspectRatio] keeps the origin, does not grow
    the rectangle and gives a non-empty one the selected ratio. *)
Lemma constrain_inside :
  forall aspectRatio r cv area,
    Crop.ratios aspectRatio = Some r ->
    inCanvas cv area ->
    inCanvas cv (Crop.constrainToAspectRatio aspectRatio cv area)
    /\ hasRatio r (Crop.constrainToAspectRatio aspectRatio cv area).
Proof.
  intros aspectRatio r cv [ax ay aw ah] Hr Hin.
  pose proof (ratios_positive _ _ Hr) as Hpos.
  unfold Crop.constrainToAspectRatio.
  rewrite (ratios_not_free _ _ Hr), Hr.
  unfold inCanvas in Hin. cbn [Crop.x Crop.y Crop.width Crop.height] in Hin.
  destruct Hin as (Hx & Hy & Hw & Hh & Hxw & Hyh).
  cbn [Crop.x Crop.y Crop.width Crop.height].
  assert (Hshrink :
    exists w' h', (0 <= w' /\ w' <= aw /\ 0 <= h' /\ h' <= ah
                   /\ (0 < w' -> 0 < h' -> w' / h' == r))%Q
      /\ (if div_gt aw ah r
          then {| Crop.x := ax; Crop.y := ay; Crop.width := ah * r; Crop.height := ah |}
          else {| Crop.x := ax; Crop.y := ay; Crop.width := aw; Crop.height := aw / r |})
         = {| Crop.x := ax; Crop.y := ay; Crop.width := w'; Crop.height := h' |}).
  { unfold div_gt. destruct (Qeq_bool ah 0) eqn:Hz.
    - apply Qeq_bool_iff in Hz.
      destruct (gt aw 0) eqn:Hg; tests.
      + exists (ah * r)%Q, ah. split; [| reflexivity].
        assert (E : (ah * r == 0)%Q) by (rewrite Hz; ring).
        repeat split; try lra; intros _ H0; lra.
      + exists aw, (aw / r)%Q. split; [| reflexivity].
        assert (E : (aw == 0)%Q) by lra.
        assert (E' : (aw / r == 0)%Q) by (rewrite E; field; lra).
        repeat split; try lra; intros H0 _; lra.
    - apply Qeq_bool_neq in Hz.
      assert (Hah : (0 < ah)%Q) by (destruct (Qlt_le_dec 0 ah); [auto | exfalso; apply Hz; lra]).
      assert (E : (aw == aw / ah * ah)%Q) by (field; lra).
      destruct (gt (aw / ah) r) eqn:Hg; tests.
      + exists (ah * r)%Q, ah. split; [| reflexivity].
        assert (H1 : (r * ah < aw / ah * ah)%Q) by (apply Qmult_lt_compat_r; lra).
        assert (H2 : (0 < ah * r)%Q) by (apply Qmult_lt_0_compat; lra).
        repeat split; try lra; intros _ _; field; lra.
      + exists aw, (aw / r)%Q. split; [| reflexivity].
        assert (H1 : (aw / ah * ah <= r * ah)%Q) by (apply Qmult_le_compat_r; lra).
        assert (H2 : (aw / r <= ah)%Q) by (apply Qle_shift_div_r; lra).
        assert (H3 : (0 <= aw / r)%Q) by (apply Qle_shift_div_l; lra).
        repeat split; try lra; intros H0 _; field; lra. }
  destruct Hshrink as (w' & h' & (Hw0 & Hw1 & Hh0 & Hh1 & Hrat) & ->).
  cbn [Crop.x Crop.y Crop.width Crop.height].
  destruct (gt (ax + w') (inject_Z (Crop.cwidth cv))) eqn:G1; tests; [lra |].
  cbn [Crop.x Crop.y Crop.width Crop.height].
  destruct (gt (ay + h') (inject_Z (Crop.cheight cv))) eqn:G2; tests; [lra |].
  split.
  - unfold inCanvas. cbn [Crop.x Crop.y Crop.width Crop.height]. repeat split; lra.
  - unfold hasRatio. cbn [Crop.x Crop.y Crop.width Crop.height]. exact Hrat.
Qed.

Lemma handleResize_inside :
  forall cv px py handle area,
    inCanvas cv area -> inCanvas cv (Crop.handleResize cv px py handle area).
Proof.
  intros cv px py handle [ax ay aw ah] Hin.
  unfold inCanvas in *. cbn [Crop.x Crop.y Crop.width Crop.height] in *.
  destruct Hin as (Hx & Hy & Hw & Hh & Hxw & Hyh).
  unfold Crop.handleResize. cbn [Crop.x Crop.y Crop.width Crop.height].
  repeat match goal with
  | |- context [if ?b then _ else _] => destruct b eqn:?
  end; tests; cbn [Crop.x Crop.y Crop.width Crop.height]; repeat split; lra.
Qed.

Lemma updateCropSelection_ratio (area : Crop.CropArea) (ov : Crop.Overlay) :
  Crop.cropAspectRatio (Crop.updateCropSelection area ov) = Crop.cropAspectRatio ov.
Proof.
  unfold Crop.updateCropSelection.
  destruct (gt (Crop.width area) 0 && gt (Crop.height area) 0); reflexivity.
Qed.

Lemma mousedown_preserves :
  forall cv r px py cs ov it,
    pointerOnCanvas cv (Crop.MouseDown px py) ->
    piecesInvariant cv r (cs, ov, it) ->
    piecesInvariant cv r (Crop.mousedown px py cs ov it).
Proof.
  intros cv r px py cs ov it Hp (Hcv & Hr & Hin & Hrat & Hsel).
  simpl in Hp. destruct Hp as (Hp1 & Hp2 & Hp3 & Hp4).
  unfold Crop.mousedown.
  destruct (Crop.getHandleAtPosition ov px py) as [handle |].
  - split; [exact Hcv |]. split; [exact Hr |]. split; [exact Hin |].
    split; [exact Hrat | exact Hsel].
  - destruct (Crop.isPointInSelection (Crop.cropArea cs) px py) eqn:Hpt.
    + unfold Crop.isPointInSelection in Hpt. tests.
      unfold inCanvas in Hin. destruct Hin as (Hx & Hy & Hw & Hh & Hxw & Hyh).
      split; [exact Hcv |]. split; [exact Hr |].
      split; [unfold inCanvas; auto 10 |]. split; [exact Hrat |].
      cbn [Crop.isSelecting Crop.startX Crop.startY]. intros _.
      repeat split; lra.
    + destruct cs as [act iid area sc can]. cbn [Crop.canvas] in Hcv.
      unfold piecesInvariant, Crop.with_cropArea.
      cbn [Crop.canvas Crop.cropArea Crop.active Crop.imageId Crop.scale].
      rewrite updateCropSelection_ratio.
      split; [exact Hcv |]. split; [exact Hr |].
      split; [unfold inCanvas; cbn [Crop.x Crop.y Crop.width Crop.height];
              repeat split; lra |].
      split.
      * unfold hasRatio. cbn [Crop.width Crop.height]. intros H0. lra.
      * cbn [Crop.isSelecting Crop.startX Crop.startY]. intros _. repeat split; lra.
Qed.

Lemma drawn_inside :
  forall cv sx sy px py,
    (0 <= sx /\ sx <= inject_Z (Crop.cwidth cv)
     /\ 0 <= sy /\ sy <= inject_Z (Crop.cheight cv))%Q ->
    (0 <= px /\ px <= inject_Z (Crop.cwidth cv)
     /\ 0 <= py /\ py <= inject_Z (Crop.cheight cv))%Q ->
    inCanvas cv
      {| Crop.x := if gt (px - sx) 0 then sx else px;
         Crop.y := if gt (py - sy) 0 then sy else py;
         Crop.width := Math_abs (px - sx);
         Crop.height := Math_abs (py - sy) |}.
Proof.
  intros cv sx sy px py (Hs1 & Hs2 & Hs3 & Hs4) (Hp1 & Hp2 & Hp3 & Hp4).
  unfold inCanvas, Math_abs. cbn [Crop.x Crop.y Crop.width Crop.height].
  assert (Ew : ((gt (px - sx) 0 = true /\ Qabs (px - sx) == px - sx)
               \/ (gt (px - sx) 0 = false /\ Qabs (px - sx) == sx - px))%Q).
  { destruct (gt (px - sx) 0) eqn:G; tests.
    - left. split; [reflexivity |]. apply Qabs_pos. lra.
    - right. split; [reflexivity |]. rewrite Qabs_neg by lra. ring. }
  assert (Eh : ((gt (py - sy) 0 = true /\ Qabs (py - sy) == py - sy)
               \/ (gt (py - sy) 0 = false /\ Qabs (py - sy) == sy - py))%Q).
  { destruct (gt (py - sy) 0) eqn:G; tests.
    - left. split; [reflexivity |]. apply Qabs_pos. lra.
    - right. split; [reflexivity |]. rewrite Qabs_neg by lra. ring. }
  destruct Ew as [[-> Ew] | [-> Ew]]; destruct Eh as [[-> Eh] | [-> Eh]];
    repeat split; try apply Qabs_nonneg; lra.
Qed.

Lemma dragged_inside :
  forall cv area px py sx sy,
    inCanvas cv area ->
    inCanvas cv
      {| Crop.x := Math_max 0 (Math_min (inject_Z (Crop.cwidth cv) - Crop.width area) (px - sx));
         Crop.y := Math_max 0 (Math_min (inject_Z (Crop.cheight cv) - Crop.height area) (py - sy));
         Crop.width := Crop.width area;
         Crop.height := Crop.height area |}.
Proof.
  intros cv area px py sx sy (Hx & Hy & Hw & Hh & Hxw & Hyh).
  unfold inCanvas. cbn [Crop.x Crop.y Crop.width Crop.height].
  unfold Math_max, Math_min.
  repeat match goal with
  | |- context [Qlt_le_dec ?a ?b] => destruct (Qlt_le_dec a b)
  end; repeat split; lra.
Qed.

Lemma mousemove_preserves :
  forall cv r px py cs ov it,
    pointerOnCanvas cv (Crop.MouseMove px py) ->
    piecesInvariant cv r (cs, ov, it) ->
    piecesInvariant cv r (Crop.mousemove cv px py cs ov it).
Proof.
  intros cv r px py cs ov it Hp (Hcv & Hr & Hin & Hrat & Hsel).
  simpl in Hp.
  destruct cs as [act iid area sc can]. cbn [Crop.canvas Crop.cropArea] in *.
  unfold Crop.mousemove, Crop.with_cropArea.
  cbn [Crop.canvas Crop.cropArea Crop.active Crop.imageId Crop.scale].
  destruct (Crop.isSelecting it) eqn:Hs; [| destruct (Crop.isDragging it);
                                            [| destruct (Crop.isResizing it)]].
  - unfold piecesInvariant. cbn [Crop.canvas Crop.cropArea].
    rewrite updateCropSelection_ratio.
    pose proof (drawn_inside cv _ _ px py (Hsel eq_refl) Hp) as Hd.
    destruct (constrain_inside _ _ _ _ Hr Hd) as [Hin' Hrat'].
    rewrite Hs. auto 10.
  - unfold piecesInvariant. cbn [Crop.canvas Crop.cropArea].
    rewrite updateCropSelection_ratio.
    split; [exact Hcv |]. split; [exact Hr |].
    split; [apply dragged_inside; exact Hin |].
    split; [exact Hrat | rewrite Hs; exact Hsel].
  - unfold piecesInvariant. cbn [Crop.canvas Crop.cropArea].
    rewrite updateCropSelection_ratio.
    assert (Hres : inCanvas cv
              match Crop.currentHandle it with
              | Some handle => Crop.handleResize cv px py handle area
              | None => area
              end).
    { destruct (Crop.currentHandle it); [apply handleResize_inside |]; exact Hin. }
    destruct (constrain_inside _ _ _ _ Hr Hres) as [Hin' Hrat'].
    rewrite Hs. auto 10.
  - unfold piecesInvariant. cbn [Crop.canvas Crop.cropArea]. rewrite Hs. auto 10.
Qed.

Lemma step_preserves :
  forall cv r w e,
    pointerOnCanvas cv e ->
    sessionInvariant cv r w ->
    sessionInvariant cv r (Crop.step w e).
Proof.
  intros cv r w e Hp (ov & it & Hov & Hit & Hcv & Hr & Hin & Hrat & Hsel).
  unfold Crop.step. rewrite Hov, Hit, Hcv.
  assert (Hpieces : piecesInvariant cv r (Crop.cropState w, ov, it))
    by (unfold piecesInvariant; auto 10).
  destruct e as [px py | px py | | handle].
  - pose proof (mousedown_preserves cv r px py _ _ _ Hp Hpieces) as H.
    destruct (Crop.mousedown px py (Crop.cropState w) ov it) as [[cs' ov'] it'].
    destruct H as (H1 & H2 & H3 & H4 & H5).
    exists ov', it'. cbn [Crop.overlay Crop.interaction Crop.cropState]. auto 10.
  - pose proof (mousemove_preserves cv r px py _ _ _ Hp Hpieces) as H.
    destruct (Crop.mousemove cv px py (Crop.cropState w) ov it) as [[cs' ov'] it'].
    destruct H as (H1 & H2 & H3 & H4 & H5).
    exists ov', it'. cbn [Crop.overlay Crop.interaction Crop.cropState]. auto 10.
  - exists ov, (Crop.mouseup it).
    cbn [Crop.overlay Crop.interaction Crop.cropState Crop.mouseup Crop.isSelecting].
    do 6 (split; [solve [auto] |]). discriminate.
  - eexists ov, _.
    cbn [Crop.overlay Crop.interaction Crop.cropState].
    do 6 (split; [solve [eauto] |]). exact Hsel.
Qed.

Lemma run_preserves :
  forall cv r events w,
    Forall (pointerOnCanvas cv) events ->
    sessionInvariant cv r w ->
    sessionInvariant cv r (Crop.run w events).
Proof.
  intros cv r events. unfold Crop.run.
  induction events as [| e rest IH]; intros w Hall Hinv; simpl; [exact Hinv |].
  inversion Hall as [| ? ? He Hrest]; subst.
  apply IH; [exact Hrest |]. apply step_preserves; assumption.
Qed.

(** Choosing a ratio in an open session whose rectangle lies inside the
    canvas establishes the invariant. *)
Lemma setCropAspectRatio_establishes :
  forall cv r aspectRatio w ov it,
    Crop.overlay w = Some ov ->
    Crop.interaction w = Some it ->
    Crop.canvas (Crop.cropState w) = Some cv ->
    Crop.isSelecting it = false ->
    Crop.ratios aspectRatio = Some r ->
    inCanvas cv (Crop.cropArea (Crop.cropState w)) ->
    sessionInvariant cv r (Crop.setCropAspectRatio aspectRatio w).
Proof.
  intros cv r aspectRatio w ov it Hov Hit Hcv Hsel Hr Hin.
  unfold Crop.setCropAspectRatio. rewrite Hov, Hcv.
  cbn [Crop.cropAspectRatio].
  destruct (gt (Crop.width (Crop.cropArea (Crop.cropState w))) 0
            && gt (Crop.height (Crop.cropArea (Crop.cropState w))) 0) eqn:Hne.
  - destruct (constrain_inside _ _ _ _ Hr Hin) as [Hin' Hrat'].
    destruct (Crop.cropState w) as [act iid area sc can]. cbn [Crop.canvas] in Hcv.
    eexists _, it. unfold Crop.with_cropArea.
    cbn [Crop.overlay Crop.interaction Crop.cropState Crop.canvas Crop.cropArea].
    rewrite updateCropSelection_ratio. cbn [Crop.cropAspectRatio].
    do 6 (split; [solve [eauto] |]). rewrite Hsel. discriminate.
  - eexists _, it.
    cbn [Crop.overlay Crop.interaction Crop.cropState Crop.cropAspectRatio].
    do 5 (split; [solve [eauto] |]).
    split; [| rewrite Hsel; discriminate].
    unfold hasRatio. intros H1 H2.
    apply andb_false_iff in Hne. destruct Hne as [Hne | Hne]; tests; lra.
Qed.

Lemma Math_round_nonneg (q : Q) : (0 <= q)%Q -> 0 <= Math_round q.
Proof.
  intros H. unfold Math_round.
  change 0 with (Qfloor 0). apply Qfloor_resp_le. lra.
Qed.

Lemma setupCropCanvas_nonneg (image : ImageRecord) :
  0 < width image -> 0 < height image ->
  0 <= Crop.cwidth (fst (Crop.setupCropCanvas image))
  /\ 0 <= Crop.cheight (fst (Crop.setupCropCanvas image)).
Proof.
  intros Hw Hh. unfold Crop.setupCropCanvas, Crop.imageWidth, Crop.imageHeight.
  pose proof (inject_Z_pos _ Hw) as Qw. pose proof (inject_Z_pos _ Hh) as Qh.
  destruct ((width image >? 800) || (height image >? 600))%bool.
  - cbn [fst Crop.cwidth Crop.cheight].
    set (s := Math_min _ _).
    assert (Hs : (0 <= s)%Q).
    { unfold s, Math_min.
      destruct (Qlt_le_dec _ _); apply Qle_shift_div_l; lra. }
    split; apply Math_round_nonneg; apply Qmult_le_0_compat; lra.
  - cbn [fst Crop.cwidth Crop.cheight]. lia.
Qed.

(** Shape of the conclusion: inside the canvas, and of ratio [r] up to any
    positive [eps] when not empty. *)
Lemma invariant_gives_claim :
  forall cv r eps w,
    (0 < eps)%Q ->
    sessionInvariant cv r w ->
    let area := Crop.cropArea (Crop.cropState w) in
    ((0 < Crop.width area -> 0 < Crop.height area ->
      Qabs (Crop.width area / Crop.height area - r) < eps)
     /\ 0 <= Crop.x area /\ 0 <= Crop.y area
     /\ Crop.x area + Crop.width area <= inject_Z (Crop.cwidth cv)
     /\ Crop.y area + Crop.height area <= inject_Z (Crop.cheight cv))%Q.
Proof.
  intros cv r eps w Heps (ov & it & _ & _ & _ & _ & Hin & Hrat & _) area.
  fold area in Hin, Hrat.
  destruct Hin as (Hx & Hy & _ & _ & Hxw & Hyh).
  split; [| auto].
  intros Hpw Hph. rewrite (Hrat Hpw Hph).
  setoid_replace (r - r)%Q with 0%Q by ring. exact Heps.
Qed.

(** In an open session whose rectangle lies inside the canvas when a ratio is
    chosen, every sequence of mouse events on the canvas leaves a rectangle
    inside the canvas which, when not empty, has the chosen ratio. *)
Theorem session_keeps_ratio_and_bounds :
  forall (cv : Crop.CropCanvas) (w : Crop.World) (ov : Crop.Overlay)
         (it : Crop.Interaction) (aspectRatio : string) (r eps : Q)
         (events : list Crop.Event),
    Crop.overlay w = Some ov ->
    Crop.interaction w = Some it ->
    Crop.canvas (Crop.cropState w) = Some cv ->
    Crop.isSelecting it = false ->
    inCanvas cv (Crop.cropArea (Crop.cropState w)) ->
    Crop.ratios aspectRatio = Some r ->
    (0 < eps)%Q ->
    Forall (pointerOnCanvas cv) events ->
    let area :=
      Crop.cropArea
        (Crop.cropState (Crop.run (Crop.setCropAspectRatio aspectRatio w) events)) in
    ((0 < Crop.width area -> 0 < Crop.height area ->
      Qabs (Crop.width area / Crop.height area - r) < eps)
     /\ 0 <= Crop.x area /\ 0 <= Crop.y area
     /\ Crop.x area + Crop.width area <= inject_Z (Crop.cwidth cv)
     /\ Crop.y area + Crop.height area <= inject_Z (Crop.cheight cv))%Q.
Proof.
  intros cv w ov it aspectRatio r eps events Hov Hit Hcv Hsel Hin Hr Heps Hall.
  apply invariant_gives_claim; [exact Heps |].
  apply run_preserves; [exact Hall |].
  eapply setCropAspectRatio_establishes; eassumption.
Qed.

Lemma session_keeps_ratio_and_bounds_witness :
  let drawnFree :=
    Crop.run (Crop.initializeCropMode [Scenario.large] true 1%Q Crop.newWorld)
      [Crop.MouseDown 100 100; Crop.MouseMove 700 200; Crop.MouseUp] in
  let area :=
    Crop.cropArea
      (Crop.cropState
         (Crop.run (Crop.setCropAspectRatio "16:9" drawnFree)
            [Crop.MouseDown 300 150; Crop.MouseMove 800 600; Crop.MouseUp])) in
  (0 <= Crop.x area /\ 0 <= Crop.y area
   /\ Crop.x area + Crop.width area <= 800
   /\ Crop.y area + Crop.height area <= 600)%Q.
Proof.
  intros drawnFree area.
  refine (proj2 (session_keeps_ratio_and_bounds
                   {| Crop.cwidth := 800; Crop.cheight := 600 |} drawnFree
                   _ _ "16:9" (16 / 9)%Q 1%Q
                   [Crop.MouseDown 300 150; Crop.MouseMove 800 600; Crop.MouseUp]
                   eq_refl eq_refl eq_refl eq_refl _ eq_refl ltac:(reflexivity) _)).
  - vm_compute. repeat split; discriminate.
  - repeat constructor; simpl; discriminate.
Defined.

(** In the first crop session of the application, with a ratio chosen before
    anything is drawn, every sequence of mouse events on the canvas leaves a
    rectangle inside the canvas which, when not empty, has the chosen ratio. *)
Theorem first_session_keeps_ratio_and_bounds :
  forall (imgs : list ImageRecord) (imageId : Q) (ref : nat) (image : ImageRecord)
         (aspectRatio : string) (r eps : Q) (events : list Crop.Event),
    findIndex imgs imageId = Some (ref, image) ->
    0 < width image -> 0 < height image ->
    Crop.ratios aspectRatio = Some r ->
    (0 < eps)%Q ->
    let cv := fst (Crop.setupCropCanvas image) in
    Forall (pointerOnCanvas cv) events ->
    let opened :=
      Crop.setCropAspectRatio aspectRatio
        (Crop.initializeCropMode imgs true imageId Crop.newWorld) in
    let area := Crop.cropArea (Crop.cropState (Crop.run opened events)) in
    ((0 < Crop.width area -> 0 < Crop.height area ->
      Qabs (Crop.width area / Crop.height area - r) < eps)
     /\ 0 <= Crop.x area /\ 0 <= Crop.y area
     /\ Crop.x area + Crop.width area <= inject_Z (Crop.cwidth cv)
     /\ Crop.y area + Crop.height area <= inject_Z (Crop.cheight cv))%Q.
Proof.
  intros imgs imageId ref image aspectRatio r eps events Hfind Hw Hh Hr Heps cv Hall
         opened area.
  apply invariant_gives_claim; [exact Heps |].
  apply run_preserves; [exact Hall |].
  unfold opened, Crop.initializeCropMode. rewrite Hfind.
  destruct (setupCropCanvas_nonneg image Hw Hh) as [Hcw Hch].
  fold cv in Hcw, Hch.
  destruct (Crop.setupCropCanvas image) as [cv' s] eqn:Hsetup.
  cbn [fst] in cv. subst cv.
  eapply setCropAspectRatio_establishes; try reflexivity; [exact Hr |].
  unfold inCanvas. cbn.
  assert (H1 : (0 <= inject_Z (Crop.cwidth cv'))%Q)
    by (change 0%Q with (inject_Z 0); rewrite <- Zle_Qle; exact Hcw).
  assert (H2 : (0 <= inject_Z (Crop.cheight cv'))%Q)
    by (change 0%Q with (inject_Z 0); rewrite <- Zle_Qle; exact Hch).
  repeat split; lra.
Qed.

Lemma first_session_witness :
  let events := [Crop.MouseDown 100 100; Crop.MouseMove 500 300; Crop.MouseUp;
                 Crop.MouseDown 300 200; Crop.MouseMove 800 600] in
  let opened :=
    Crop.setCropAspectRatio "16:9"
      (Crop.initializeCropMode [Scenario.large] true 1%Q Crop.newWorld) in
  let area := Crop.cropArea (Crop.cropState (Crop.run opened events)) in
  (0 <= Crop.x area /\ 0 <= Crop.y area
   /\ Crop.x area + Crop.width area <= 800
   /\ Crop.y area + Crop.height area <= 600)%Q.
Proof.
  intros events opened area.
  refine (proj2 (first_session_keeps_ratio_and_bounds [Scenario.large] 1%Q 0%nat
                   Scenario.large "16:9" (16 / 9)%Q 1%Q
                   [Crop.MouseDown 100 100; Crop.MouseMove 500 300; Crop.MouseUp;
                    Crop.MouseDown 300 200; Crop.MouseMove 800 600]
                   eq_refl ltac:(reflexivity) ltac:(reflexivity) eq_refl
                   ltac:(reflexivity) _)).
  repeat constructor; simpl; discriminate.
Defined.

(** ** Resize handles that test the new extent with [> 0] *)

(** Handles [nw], [ne], [sw], [n] and [w] keep a positive width and height. *)
Theorem strict_handles_keep_positive_extent :
  forall (cv : Crop.CropCanvas) (px py : Q) (handle : string) (area : Crop.CropArea),
    In handle ["nw"; "ne"; "sw"; "n"; "w"] ->
    (0 < Crop.width area)%Q -> (0 < Crop.height area)%Q ->
    (0 < Crop.width (Crop.handleResize cv px py handle area)
     /\ 0 < Crop.height (Crop.handleResize cv px py handle area))%Q.
Proof.
  intros cv px py handle [ax ay aw ah] Hh Hw Hht.
  cbn [Crop.width Crop.height] in Hw, Hht.
  simpl in Hh.
  destruct Hh as [<- | [<- | [<- | [<- | [<- | []]]]]];
    unfold Crop.handleResize; cbn [String.eqb Ascii.eqb Bool.eqb];
    cbn [Crop.x Crop.y Crop.width Crop.height];
    match goal with
    | |- context [if ?b then _ else _] => destruct b eqn:?
    end; tests; cbn [Crop.width Crop.height]; split; lra.
Qed.

Lemma strict_handles_witness :
  (0 < Crop.width (Crop.handleResize {| Crop.cwidth := 100; Crop.cheight := 100 |} 30 15 "w"
                     {| Crop.x := 10; Crop.y := 10; Crop.width := 20; Crop.height := 20 |}))%Q.
Proof.
  refine (proj1 (strict_handles_keep_positive_extent
                   {| Crop.cwidth := 100; Crop.cheight := 100 |} 30 15 "w"
                   {| Crop.x := 10; Crop.y := 10; Crop.width := 20; Crop.height := 20 |}
                   _ ltac:(reflexivity) ltac:(reflexivity))).
  simpl. auto 10.
Defined.

(** ** Storage counters *)

Lemma sum_app (f : ImageRecord -> Z) (l : list ImageRecord) (a : ImageRecord) :
  fold_right (fun im acc => f im + acc) 0 (l ++ [a])
    = fold_right (fun im acc => f im + acc) 0 l + f a.
Proof.
  induction l as [| b rest IH]; simpl; [lia | rewrite IH; lia].
Qed.

Lemma sum_store (f : ImageRecord -> Z) (l : list ImageRecord) (i : nat) (a b : ImageRecord) :
  nth_error l i = Some a ->
  fold_right (fun im acc => f im + acc) 0 (store l i b)
    = fold_right (fun im acc => f im + acc) 0 l - f a + f b.
Proof.
  revert i. induction l as [| c rest IH]; intros [| j]; simpl; try discriminate.
  - intros H. injection H as ->. lia.
  - intros H. rewrite (IH _ H). lia.
Qed.

Lemma sum_splice1 (f : ImageRecord -> Z) (l : list ImageRecord) (i : nat) (a : ImageRecord) :
  nth_error l i = Some a ->
  fold_right (fun im acc => f im + acc) 0 (splice1 l i)
    = fold_right (fun im acc => f im + acc) 0 l - f a.
Proof.
  revert i. induction l as [| c rest IH]; intros [| j]; simpl; try discriminate.
  - intros H. injection H as ->. lia.
  - intros H. rewrite (IH _ H). lia.
Qed.

Lemma addImage_paired br app file newId :
  countersPaired app -> countersPaired (fst (Pipeline.addImage br app file newId)).
Proof.
  intros [Ho Hc]. unfold Pipeline.addImage.
  destruct (Pipeline.file_data file) as [result |]; [| split; assumption].
  destruct (decodeImage br result) as [[w h] |]; [| split; assumption].
  destruct ((w =? 0) || (h =? 0))%bool; [split; assumption |].
  destruct ((w >? 16384) || (h >? 16384))%bool; [split; assumption |].
  unfold countersPaired, sumSizes, sumProcessedSizes. simpl.
  rewrite !sum_app. simpl. fold (sumSizes (images app)).
  fold (sumProcessedSizes (images app)). split; lia.
Qed.

Lemma removeImage_paired app imageId :
  countersPaired app -> countersPaired (Pipeline.removeImage app imageId).
Proof.
  intros [Ho Hc]. unfold Pipeline.removeImage.
  destruct (findIndex (images app) imageId) as [[i image] |] eqn:Hf; [| split; assumption].
  destruct (findIndex_nth_error _ _ _ _ Hf) as [Hnth _].
  unfold countersPaired, sumSizes, sumProcessedSizes. simpl.
  rewrite !(sum_splice1 _ _ _ _ Hnth).
  fold (sumSizes (images app)). fold (sumProcessedSizes (images app)).
  split; [lia |].
  destruct (truthy (processedSize image)) eqn:Ht; [lia |].
  rewrite (truthy_false_or_else _ 0 Ht). lia.
Qed.

(** What a transform changes: on success the entry found by id and
    [compressedSize]; otherwise neither the list nor the counters. *)
Lemma transform_effect br app imageId settings :
  let app' := fst (Pipeline.processImageWithSettings br app imageId settings) in
  (images app' = images app /\ storageData app' = storageData app)
  \/ exists ref image image' n,
       findIndex (images app) imageId = Some (ref, image)
       /\ nth_error (images app) ref = Some image
       /\ images app' = store (images app) ref image'
       /\ size image' = size image
       /\ processedSize image' = Some n
       /\ originalSize (storageData app') = originalSize (storageData app)
       /\ compressedSize (storageData app') = compressedSize (storageData app) + n.
Proof.
  unfold Pipeline.processImageWithSettings.
  destruct (findIndex (images app) imageId) as [[ref image] |] eqn:Hf; [| left; split; reflexivity].
  destruct (findIndex_nth_error _ _ _ _ Hf) as [Hnth _].
  unfold Pipeline.processImageLossless.
  destruct (decodeImage br (src image)) as [img |]; [| left; split; reflexivity].
  destruct (Pipeline.applyLosslessProcessing br (processingOptions app) img settings)
    as [pd | e]; [| left; split; reflexivity].
  right. eexists ref, image, _, (Pipeline.pd_size pd). simpl.
  repeat split; auto.
Qed.

Lemma or_else_Some (n : Z) : or_else (Some n) 0 = n.
Proof. simpl. destruct (Z.eqb_spec n 0); congruence. Qed.

Lemma transform_original br app imageId settings :
  originalSize (storageData app) = sumSizes (images app) ->
  let app' := fst (Pipeline.processImageWithSettings br app imageId settings) in
  originalSize (storageData app') = sumSizes (images app').
Proof.
  intros Ho app'.
  destruct (transform_effect br app imageId settings)
    as [[Hi Hs] | (ref & image & image' & n & _ & Hnth & Hi & Hsz & _ & Hos & _)];
    fold app' in Hi; try fold app' in Hs; try fold app' in Hos.
  - rewrite Hi, Hs. exact Ho.
  - rewrite Hi, Hos, Ho. unfold sumSizes. rewrite (sum_store _ _ _ _ _ Hnth). lia.
Qed.

Lemma transform_once_paired br app imageId settings :
  countersPaired app ->
  match findIndex (images app) imageId with
  | Some (_, image) => truthy (processedSize image) = false
  | None => True
  end ->
  countersPaired (fst (Pipeline.processImageWithSettings br app imageId settings)).
Proof.
  intros [Ho Hc] Hfresh.
  split; [apply transform_original; exact Ho |].
  destruct (transform_effect br app imageId settings)
    as [[Hi Hs] | (ref & image & image' & n & Hf & Hnth & Hi & _ & Hps & _ & Hcs)].
  - rewrite Hi, Hs. exact Hc.
  - rewrite Hf in Hfresh. rewrite Hi, Hcs, Hc. unfold sumProcessedSizes.
    rewrite (sum_store _ _ _ _ _ Hnth).
    rewrite (truthy_false_or_else _ 0 Hfresh), Hps, or_else_Some. lia.
Qed.

Lemma newApp_paired : countersPaired newApp.
Proof. split; reflexivity. Qed.

(** [originalSize] equals the sum of the sizes of the listed images after
    every sequence of additions, transforms (repeated ones too) and removals. *)
Theorem originalSize_always_paired :
  forall (br : Browser) (ops : list Op),
    originalSize (storageData (runOps br newApp ops))
      = sumSizes (images (runOps br newApp ops)).
Proof.
  intros br ops. unfold runOps.
  assert (H : forall app, originalSize (storageData app) = sumSizes (images app) ->
                originalSize (storageData (fold_left (applyOp br) ops app))
                  = sumSizes (images (fold_left (applyOp br) ops app))).
  { induction ops as [| op rest IH]; intros app Ho; simpl; [exact Ho |].
    apply IH. destruct op as [file newId | imageId settings | imageId]; simpl.
    - unfold Pipeline.addImage.
      destruct (Pipeline.file_data file) as [result |]; [| exact Ho].
      destruct (decodeImage br result) as [[w h] |]; [| exact Ho].
      destruct ((w =? 0) || (h =? 0))%bool; [exact Ho |].
      destruct ((w >? 16384) || (h >? 16384))%bool; [exact Ho |].
      unfold sumSizes. simpl. rewrite sum_app. simpl.
      fold (sumSizes (images app)). lia.
    - apply transform_original. exact Ho.
    - unfold Pipeline.removeImage.
      destruct (findIndex (images app) imageId) as [[i image] |] eqn:Hf; [| exact Ho].
      destruct (findIndex_nth_error _ _ _ _ Hf) as [Hnth _].
      unfold sumSizes. simpl. rewrite (sum_splice1 _ _ _ _ Hnth).
      fold (sumSizes (images app)). lia. }
  apply H. reflexivity.
Qed.


(** ** Transform pipeline: failure and completion of the drivers *)

Lemma store_length {A : Type} (l : list A) (i : nat) (a : A) :
  List.length (store l i a) = List.length l.
Proof.
  revert i. induction l as [| b rest IH]; intros [| j]; simpl; auto.
Qed.

Lemma nth_error_store_other {A : Type} (l : list A) (i j : nat) (a : A) :
  i <> j -> nth_error (store l i a) j = nth_error l j.
Proof.
  revert i j. induction l as [| b rest IH]; intros [| i] [| j] H; simpl; auto;
    try contradiction.
Qed.

Lemma failed_transform_facts br app app' imageId settings error :
  Pipeline.processImageWithSettings br app imageId settings = (app', Rejected error) ->
  images app' = images app
  /\ storageData app' = storageData app
  /\ notifications app'
     = (notifications app ++ [("Képfeldolgozás sikertelen!", "error")])%list.
Proof.
  unfold Pipeline.processImageWithSettings.
  destruct (findIndex (images app) imageId) as [[ref image] |]; [| discriminate].
  unfold Pipeline.processImageLossless.
  destruct (decodeImage br (src image)) as [img |].
  - destruct (Pipeline.applyLosslessProcessing br (processingOptions app) img settings)
      as [pd | e]; [discriminate |].
    intros H. injection H as <- _. repeat split.
  - intros H. injection H as <- _. repeat split.
Qed.

(** A transform that fails changes neither the image list nor the counters;
    it only adds the error toast. *)
Theorem failed_transform_changes_nothing :
  forall (br : Browser) (app app' : App) (imageId : Q) (settings : Settings.t)
         (error : Error),
    Pipeline.processImageWithSettings br app imageId settings = (app', Rejected error) ->
    images app' = images app
    /\ storageData app' = storageData app
    /\ totalProcessed app' = totalProcessed app
    /\ notifications app'
       = (notifications app ++ [("Képfeldolgozás sikertelen!", "error")])%list.
Proof.
  intros br app app' imageId settings error.
  unfold Pipeline.processImageWithSettings.
  destruct (findIndex (images app) imageId) as [[ref image] |]; [| discriminate].
  unfold Pipeline.processImageLossless.
  destruct (decodeImage br (src image)) as [img |].
  - destruct (Pipeline.applyLosslessProcessing br (processingOptions app) img settings)
      as [pd | e]; [discriminate |].
    intros H. injection H as <- _. repeat split.
  - intros H. injection H as <- _. repeat split.
Qed.

Lemma failed_transform_witness :
  images (fst (Pipeline.processImageWithSettings Scenario.host Scenario.threeImages 2%Q
                 Scenario.pngSettings)) = images Scenario.threeImages.
Proof.
  refine (proj1 (failed_transform_changes_nothing Scenario.host Scenario.threeImages _ 2%Q
                   Scenario.pngSettings (Err "Failed to load image for processing") _)).
  vm_compute. reflexivity.
Defined.

(** What a transform leaves alone whatever its outcome: the number of listed
    images, the progress modal and the peer state. *)
Lemma transform_frame br app imageId settings :
  let app' := fst (Pipeline.processImageWithSettings br app imageId settings) in
  List.length (images app') = List.length (images app)
  /\ progressModal app' = progressModal app
  /\ map id (images app') = map id (images app)
  /\ map src (images app') = map src (images app).
Proof.
  unfold Pipeline.processImageWithSettings.
  destruct (findIndex (images app) imageId) as [[ref image] |] eqn:Hf;
    [| repeat split].
  destruct (findIndex_nth_error _ _ _ _ Hf) as [Hnth _].
  unfold Pipeline.processImageLossless.
  destruct (decodeImage br (src image)) as [img |]; [| repeat split].
  destruct (Pipeline.applyLosslessProcessing br (processingOptions app) img settings)
    as [pd | e]; [| repeat split].
  cbn [fst images progressModal with_images with_storageData with_totalProcessed].
  split; [apply store_length |]. split; [reflexivity |].
  assert (Hmap : forall (B : Type) (f : ImageRecord -> B) (l : list ImageRecord) i a b,
             nth_error l i = Some a -> f b = f a -> map f (store l i b) = map f l).
  { intros B f l. induction l as [| c rest IH]; intros [| j] a b; simpl;
      try discriminate.
    - intros H E. injection H as ->. rewrite E. reflexivity.
    - intros H E. rewrite (IH _ _ _ H E). reflexivity. }
  split; eapply Hmap; try exact Hnth; reflexivity.
Qed.

(** The loop of [batchProcess] returns whenever the fuel covers the images
    from index [i] on. *)
Lemma batchLoop_returns br settings :
  forall fuel app i,
    (List.length (images app) <= i + fuel)%nat ->
    exists r, Pipeline.batchLoop br fuel app settings i = Some r.
Proof.
  induction fuel as [| fuel IH]; intros app i Hlen.
  - simpl. destruct (nth_error (images app) i) eqn:Hn; [| eauto].
    exfalso. assert (Hlt : (i < List.length (images app))%nat)
      by (apply nth_error_Some; congruence).
    lia.
  - simpl. destruct (nth_error (images app) i) as [image |]; [| eauto].
    pose proof (transform_frame br app (id image) settings) as (Hl & _).
    destruct (Pipeline.processImageWithSettings br app (id image) settings)
      as [app' [pd | e]]; [| eauto].
    cbn [fst] in Hl. apply IH.
    cbn [images updateProgress with_progress]. lia.
Qed.

(** [batchProcess] always returns: the length of the list is fuel enough. *)
Theorem batchProcess_returns :
  forall (br : Browser) (app : App) (form : Pipeline.Form),
    exists app' outcome, Pipeline.batchProcess br app form = Some (app', outcome).
Proof.
  intros br app form. unfold Pipeline.batchProcess.
  destruct (images app) as [| im rest] eqn:Himgs; [eauto |].
  match goal with
  | |- context [Pipeline.batchLoop br ?f ?a ?s ?i] =>
      destruct (batchLoop_returns br s f a i) as [[app' [[] | e]] Hr]
  end.
  - cbn [images showProgress with_progress]. lia.
  - rewrite Hr. eauto.
  - rewrite Hr. eauto.
Qed.

Lemma batchLoop_rejected br settings :
  forall fuel app i app' error,
    Pipeline.batchLoop br fuel app settings i = Some (app', Rejected error) ->
    progressModal app' = progressModal app
    /\ exists earlier,
         notifications app' = (earlier ++ [("Képfeldolgozás sikertelen!", "error")])%list.
Proof.
  induction fuel as [| fuel IH]; intros app i app' error; simpl.
  - destruct (nth_error (images app) i); discriminate.
  - destruct (nth_error (images app) i) as [image |]; [| discriminate].
    pose proof (transform_frame br app (id image) settings) as (_ & Hp & _).
    destruct (Pipeline.processImageWithSettings br app (id image) settings)
      as [app1 [pd | e]] eqn:Ht; cbn [fst] in Hp.
    + intros H. apply IH in H. destruct H as [H1 H2].
      split; [| exact H2]. rewrite H1. cbn [progressModal updateProgress with_progress].
      exact Hp.
    + intros H. injection H as <- <-. split; [exact Hp |].
      destruct (failed_transform_facts _ _ _ _ _ _ Ht) as (_ & _ & Hn).
      eauto.
Qed.

(** A batch that fails leaves the progress modal open and ends on the error
    toast of the failing item: it shows no completion toast. *)
Theorem failed_batch_keeps_progress_open :
  forall (br : Browser) (app app' : App) (form : Pipeline.Form) (error : Error),
    Pipeline.batchProcess br app form = Some (app', Rejected error) ->
    progressModal app' = true
    /\ exists earlier,
         notifications app' = (earlier ++ [("Képfeldolgozás sikertelen!", "error")])%list.
Proof.
  intros br app app' form error. unfold Pipeline.batchProcess.
  destruct (images app) as [| im rest]; [discriminate |].
  match goal with
  | |- context [Pipeline.batchLoop br ?f ?a ?s ?i] =>
      destruct (Pipeline.batchLoop br f a s i) as [[app1 [[] | e]] |] eqn:Hl
  end; try discriminate.
  intros H. injection H as <- <-.
  apply batchLoop_rejected in Hl. exact Hl.
Qed.

Lemma failed_batch_witness :
  progressModal
    (match Pipeline.batchProcess Scenario.host Scenario.threeImages Scenario.pngForm with
     | Some (app', _) => app'
     | None => newApp
     end) = true.
Proof.
  refine (proj1 (failed_batch_keeps_progress_open Scenario.host Scenario.threeImages _
                   Scenario.pngForm (Err "Failed to load image for processing") _)).
  vm_compute. reflexivity.
Defined.

Lemma applyFormatOptimization_is_encode br configs canvas format q :
  exists type q',
    Encoder.applyFormatOptimization br configs canvas format q
      = toDataURL br canvas type q'.
Proof.
  unfold Encoder.applyFormatOptimization, Encoder.optimizeWebP, Encoder.optimizePNG,
    Encoder.optimizeAVIF, Encoder.optimizeTIFF, Encoder.optimizeJPEG.
  repeat match goal with
  | |- context [if ?b then _ else _] => destruct b
  end; eauto.
Qed.

Lemma applyLosslessProcessing_resolves br opts img settings :
  encoderHasPayload br ->
  exists pd, Pipeline.applyLosslessProcessing br opts img settings = Resolved pd.
Proof.
  intros Henc. unfold Pipeline.applyLosslessProcessing. destruct img as [nw nh].
  destruct (Pipeline.targetDimensions nw nh settings) as [tw th].
  match goal with
  | |- context [Encoder.applyFormatOptimization br ?c ?cv ?f ?q] =>
      destruct (applyFormatOptimization_is_encode br c cv f q) as (type & q' & ->)
  end.
  match goal with
  | |- context [nth_error ?l 1] => destruct (nth_error l 1) eqn:Hn
  end; [eauto |].
  exfalso. eapply Henc. exact Hn.
Qed.

Lemma findIndex_distinct (imgs : list ImageRecord) :
  distinctIds (map id imgs) ->
  forall i im, nth_error imgs i = Some im -> findIndex imgs (id im) = Some (i, im).
Proof.
  induction imgs as [| a rest IH]; intros Hd [| i] im Hn; simpl in *; try discriminate.
  - injection Hn as ->. rewrite (proj2 (Qeq_bool_iff _ _) (Qeq_refl _)). reflexivity.
  - destruct (Qeq_bool (id a) (id im)) eqn:E.
    + apply Qeq_bool_iff in E. exfalso.
      assert (H : O = S i).
      { apply (Hd O (S i) (id a) (id im)); simpl; auto.
        rewrite nth_error_map, Hn. reflexivity. }
      discriminate.
    + rewrite (IH (fun i j a b Hi Hj Hab => eq_add_S _ _ (Hd (S i) (S j) a b Hi Hj Hab))
                 i im Hn).
      reflexivity.
Qed.

(** A transform on a decodable image, on a host whose encoder returns a
    payload, marks the entry found by id as processed. *)
Lemma transform_resolves br app ref image settings :
  encoderHasPayload br ->
  decodeImage br (src image) <> None ->
  findIndex (images app) (id image) = Some (ref, image) ->
  exists app' pd image',
    Pipeline.processImageWithSettings br app (id image) settings
      = (app', Resolved (Some pd))
    /\ images app' = store (images app) ref image'
    /\ processed image' = true
    /\ progressModal app' = progressModal app
    /\ notifications app' = notifications app
    /\ totalProcessed app' = totalProcessed app + 1.
Proof.
  intros Henc Hdec Hf. unfold Pipeline.processImageWithSettings. rewrite Hf.
  unfold Pipeline.processImageLossless.
  destruct (decodeImage br (src image)) as [img |]; [| contradiction].
  destruct (applyLosslessProcessing_resolves br (processingOptions app) img settings Henc)
    as [pd ->].
  eexists _, pd, _. split; [reflexivity |]. repeat split.
Qed.

Lemma batchLoop_all_processed br settings :
  encoderHasPayload br ->
  forall fuel app i,
    (List.length (images app) <= i + fuel)%nat ->
    distinctIds (map id (images app)) ->
    Forall (fun s => decodeImage br s <> None) (map src (images app)) ->
    (forall j im, (j < i)%nat -> nth_error (images app) j = Some im -> processed im = true) ->
    exists app',
      Pipeline.batchLoop br fuel app settings i = Some (app', Resolved tt)
      /\ Forall (fun im => processed im = true) (images app')
      /\ progressModal app' = progressModal app
      /\ notifications app' = notifications app
      /\ totalProcessed app'
         = totalProcessed app + Z.of_nat (List.length (images app) - i).
Proof.
  intros Henc. induction fuel as [| fuel IH]; intros app i Hlen Hd Hdec Hdone.
  - simpl. destruct (nth_error (images app) i) eqn:Hn.
    + exfalso. assert (Hlt : (i < List.length (images app))%nat)
        by (apply nth_error_Some; congruence).
      lia.
    + exists app. split; [reflexivity |]. split.
      * apply Forall_forall. intros im Hin. apply In_nth_error in Hin.
        destruct Hin as [j Hj]. apply (Hdone j im); [| exact Hj].
        assert (Hlt : (j < List.length (images app))%nat)
          by (apply nth_error_Some; congruence).
        apply nth_error_None in Hn. lia.
      * apply nth_error_None in Hn.
        replace (List.length (images app) - i)%nat with O by lia.
        repeat split. simpl. lia.
  - simpl. destruct (nth_error (images app) i) as [image |] eqn:Hn.
    + assert (Hsrc : decodeImage br (src image) <> None).
      { rewrite Forall_forall in Hdec. apply Hdec. apply in_map.
        eapply nth_error_In. exact Hn. }
      destruct (transform_resolves br app i image settings Henc Hsrc
                  (findIndex_distinct _ Hd _ _ Hn))
        as (app1 & pd & image' & Ht & Hi & Hp & Hm & Hnot & Htot).
      pose proof (transform_frame br app (id image) settings) as (Hl & _ & Hids & Hsrcs).
      rewrite Ht in *. cbn [fst] in Hl, Hids, Hsrcs.
      destruct (IH (updateProgress app1 (Z.of_nat i + 1)) (S i)) as (app' & Hr & Hall & Hpm & Hn' & Htot').
      * cbn [images updateProgress with_progress]. lia.
      * cbn [images updateProgress with_progress]. rewrite Hids. exact Hd.
      * cbn [images updateProgress with_progress]. rewrite Hsrcs. exact Hdec.
      * cbn [images updateProgress with_progress]. intros j im Hj Hnj.
        rewrite Hi in Hnj. destruct (Nat.eq_dec i j) as [<- | Hne].
        -- rewrite (nth_error_store _ _ _ _ Hn) in Hnj. injection Hnj as <-. exact Hp.
        -- rewrite (nth_error_store_other _ _ _ _ Hne) in Hnj.
           apply (Hdone j im); [lia | exact Hnj].
      * exists app'. split; [exact Hr |]. split; [exact Hall |].
        cbn [images progressModal notifications totalProcessed updateProgress with_progress]
          in Hpm, Hn', Htot'.
        split; [congruence |]. split; [congruence |].
        rewrite Htot', Htot, Hl.
        assert (Hlt : (i < List.length (images app))%nat)
          by (apply nth_error_Some; congruence).
        lia.
    + exists app. split; [reflexivity |]. split.
      * apply Forall_forall. intros im Hin. apply In_nth_error in Hin.
        destruct Hin as [j Hj]. apply (Hdone j im); [| exact Hj].
        assert (Hlt : (j < List.length (images app))%nat)
          by (apply nth_error_Some; congruence).
        apply nth_error_None in Hn. lia.
      * apply nth_error_None in Hn.
        replace (List.length (images app) - i)%nat with O by lia.
        repeat split. simpl. lia.
Qed.

(** With distinct ids, images that all decode and an encoder that returns a
    payload, [batchProcess] resolves: every listed image is marked processed,
    one transform is counted per image, the progress modal is hidden and the
    completion toast is the only new one. *)
Theorem batch_processes_every_image :
  forall (br : Browser) (app : App) (form : Pipeline.Form),
    images app <> [] ->
    encoderHasPayload br ->
    distinctIds (map id (images app)) ->
    Forall (fun s => decodeImage br s <> None) (map src (images app)) ->
    exists app',
      Pipeline.batchProcess br app form = Some (app', Resolved tt)
      /\ Forall (fun im => processed im = true) (images app')
      /\ totalProcessed app' = totalProcessed app + Z.of_nat (List.length (images app))
      /\ progressModal app' = false
      /\ notifications app'
         = (notifications app ++ [("Batch feldolgozás befejezve!", "success")])%list.
Proof.
  intros br app form Hne Henc Hd Hdec. unfold Pipeline.batchProcess.
  destruct (images app) as [| im rest] eqn:Himgs; [contradiction |].
  rewrite <- Himgs in *.
  match goal with
  | |- context [Pipeline.batchLoop br ?f ?a ?s ?i] =>
      destruct (batchLoop_all_processed br s Henc f a i)
        as (app1 & -> & Hall & Hpm & Hn & Htot)
  end.
  - cbn [images showProgress with_progress]. lia.
  - exact Hd.
  - exact Hdec.
  - intros j im' Hj. lia.
  - eexists. split; [reflexivity |].
    cbn [images progressModal notifications totalProcessed showProgress hideProgress
         with_progress showNotification] in *.
    split; [exact Hall |]. split; [rewrite Htot; f_equal; f_equal; lia |].
    split; [reflexivity |]. rewrite Hn. reflexivity.
Qed.

Lemma batch_processes_witness :
  exists app',
    Pipeline.batchProcess Scenario.host Scenario.twoImages Scenario.pngForm
      = Some (app', Resolved tt)
    /\ Forall (fun im => processed im = true) (images app')
    /\ totalProcessed app'
       = totalProcessed Scenario.twoImages + Z.of_nat (List.length (images Scenario.twoImages))
    /\ progressModal app' = false
    /\ notifications app'
       = (notifications Scenario.twoImages
          ++ [("Batch feldolgozás befejezve!", "success")])%list.
Proof.
  apply (batch_processes_every_image Scenario.host Scenario.twoImages Scenario.pngForm).
  - discriminate.
  - intros canvas type q. unfold Scenario.host. cbn [toDataURL].
    destruct ((type === "image/jpeg") || (type === "image/webp"))%bool eqn:E.
    + apply orb_true_iff in E. destruct E as [E | E]; apply String.eqb_eq in E; subst;
        discriminate.
    + discriminate.
  - intros [| [| i]] [| [| j]] a b Hi Hj Hab; simpl in Hi, Hj; try reflexivity;
      try (destruct i; discriminate); try (destruct j; discriminate);
      injection Hi as <-; injection Hj as <-; vm_compute in Hab; discriminate.
  - repeat constructor; discriminate.
Defined.

(** ** Target dimensions and the canvas handed to the encoder *)

(** The cases of the dimension computation besides the derived one: with
    neither width nor height the natural size is kept; with both they are
    used as given, aspect preservation or not; with aspect preservation off a
    single given dimension is paired with the natural other one. *)
Theorem targetDimensions_other_cases :
  forall (nw nh : Z) (format : string) (quality : option Q) (aspect : option bool),
    (forall w h, truthy w = false -> truthy h = false ->
       Pipeline.targetDimensions nw nh
         {| Settings.format := format; Settings.quality := quality;
            Settings.width := w; Settings.height := h;
            Settings.maintainAspect := aspect |} = (nw, nh))
    /\ (forall w h, w <> 0 -> h <> 0 ->
       Pipeline.targetDimensions nw nh
         {| Settings.format := format; Settings.quality := quality;
            Settings.width := Some w; Settings.height := Some h;
            Settings.maintainAspect := aspect |} = (w, h))
    /\ (forall w, w <> 0 ->
       Pipeline.targetDimensions nw nh
         {| Settings.format := format; Settings.quality := quality;
            Settings.width := Some w; Settings.height := None;
            Settings.maintainAspect := Some false |} = (w, nh)
       /\ Pipeline.targetDimensions nw nh
         {| Settings.format := format; Settings.quality := quality;
            Settings.width := None; Settings.height := Some w;
            Settings.maintainAspect := Some false |} = (nw, w)).
Proof.
  intros nw nh format quality aspect. split; [| split].
  - intros w h Hw Hh. unfold Pipeline.targetDimensions.
    cbn [Settings.width Settings.height Settings.maintainAspect].
    rewrite Hw, Hh, !truthy_false_or_else by assumption. reflexivity.
  - intros w h Hw Hh. unfold Pipeline.targetDimensions.
    cbn [Settings.width Settings.height Settings.maintainAspect truthy or_else].
    destruct (Z.eqb_spec w 0); [contradiction |].
    destruct (Z.eqb_spec h 0); [contradiction |].
    cbn. destruct aspect as [[|] |]; reflexivity.
  - intros w Hw. unfold Pipeline.targetDimensions.
    cbn [Settings.width Settings.height Settings.maintainAspect truthy or_else].
    destruct (Z.eqb_spec w 0); [contradiction |]. split; reflexivity.
Qed.

(** A transform with neither width nor height reports the natural size and
    takes the direct-draw branch, whatever Pica would do. Up to a device
    pixel ratio of 1 the canvas that is encoded has the natural size and an
    unscaled context, so the draw is a copy; above 1 the natural size is
    only the style size of the canvas and the context is scaled by the
    ratio, so the draw enlarges the source. *)
Theorem conversion_only_copies :
  forall (br : Browser) (opts : ProcessingOptions) (nw nh : Z) (settings : Settings.t)
         (pd : Pipeline.ProcessedData),
    truthy (Settings.width settings) = false ->
    truthy (Settings.height settings) = false ->
    Pipeline.applyLosslessProcessing br opts (nw, nh) settings = Resolved pd ->
    Pipeline.dimensions pd = (nw, nh)
    /\ exists canvas,
         Pipeline.dataUrl pd
           = Encoder.applyFormatOptimization br Encoder.formatConfigs canvas
               (Settings.format settings) (Settings.quality settings)
         /\ canvas_drawn canvas = DirectCopy
         /\ ((devicePixelRatio br <= 1)%Q ->
             canvas_width canvas = nw /\ canvas_height canvas = nh
             /\ canvas_scale canvas = 1%Q /\ canvas_style canvas = None)
         /\ ((1 < devicePixelRatio br)%Q ->
             canvas_scale canvas = devicePixelRatio br
             /\ canvas_style canvas = Some (nw, nh)).
Proof.
  intros br opts nw nh settings pd Hw Hh.
  unfold Pipeline.applyLosslessProcessing.
  assert (Ht : Pipeline.targetDimensions nw nh settings = (nw, nh)).
  { unfold Pipeline.targetDimensions.
    rewrite Hw, Hh, !truthy_false_or_else by assumption. reflexivity. }
  rewrite Ht, !Z.eqb_refl. cbn [negb orb].
  destruct (nth_error _ 1); [| discriminate].
  intros H. injection H as <-. split; [reflexivity |].
  exists (Pipeline.paint (Pipeline.createHighQualityCanvas br nw nh) DirectCopy).
  split; [reflexivity |]. split; [reflexivity |].
  unfold Pipeline.createHighQualityCanvas, gt.
  destruct (Qlt_le_dec 1 (devicePixelRatio br)) as [Hgt | Hle];
    cbn [Pipeline.paint canvas_width canvas_height canvas_scale canvas_style];
    split; intros Hd; try (exfalso; lra); repeat split.
Qed.

Lemma conversion_only_witness :
  Pipeline.dimensions
    {| Pipeline.dataUrl := "data:image/png;base64,AAAA"; Pipeline.pd_size := 3;
       Pipeline.dimensions := (4000, 3000); Pipeline.pd_format := "png" |} = (4000, 3000).
Proof.
  refine (proj1 (conversion_only_copies Scenario.retinaHost
                   {| algorithm := "lanczos"; enableSharpening := false |}
                   4000 3000 Scenario.pngSettings _ eq_refl eq_refl _)).
  vm_compute. reflexivity.
Defined.




(** ** Removing an image *)

Lemma findIndex_splice1 (imgs : list ImageRecord) (imageId : Q) :
  distinctIds (map id imgs) ->
  forall i im, findIndex imgs imageId = Some (i, im) ->
    findIndex (splice1 imgs i) imageId = None.
Proof.
  induction imgs as [| a rest IH]; intros Hd i im; simpl; [discriminate |].
  assert (Hd' : distinctIds (map id rest)).
  { intros i0 j a0 b Hi Hj Hab. apply eq_add_S. apply (Hd (S i0) (S j) a0 b Hi Hj Hab). }
  destruct (Qeq_bool (id a) imageId) eqn:E.
  - intros H. injection H as <- <-.
    destruct (findIndex rest imageId) as [[j found] |] eqn:Hf; [| reflexivity].
    exfalso. destruct (findIndex_nth_error _ _ _ _ Hf) as [Hn Hq].
    apply Qeq_bool_iff in E, Hq.
    assert (H : O = S j).
    { apply (Hd O (S j) (id a) (id found)); simpl; auto.
      - rewrite nth_error_map, Hn. reflexivity.
      - rewrite E, Hq. reflexivity. }
    discriminate.
  - destruct (findIndex rest imageId) as [[j found] |] eqn:Hf; [| discriminate].
    intros H. injection H as <- <-. simpl. rewrite E.
    rewrite (IH Hd' j found eq_refl). reflexivity.
Qed.

(** [removeImage] of an id that is not listed changes nothing, not even the
    toasts; with distinct ids no image of the removed id remains, and the
    list is one shorter when the id was listed. *)
Theorem removeImage_effect :
  forall (app : App) (imageId : Q),
    (findIndex (images app) imageId = None -> Pipeline.removeImage app imageId = app)
    /\ (distinctIds (map id (images app)) ->
        findIndex (images (Pipeline.removeImage app imageId)) imageId = None)
    /\ (findIndex (images app) imageId <> None ->
        S (List.length (images (Pipeline.removeImage app imageId)))
          = List.length (images app)).
Proof.
  intros app imageId. unfold Pipeline.removeImage.
  destruct (findIndex (images app) imageId) as [[i im] |] eqn:Hf.
  - split; [discriminate |]. split.
    + intros Hd. cbn [images showNotification with_images with_storageData].
      eapply findIndex_splice1; eassumption.
    + intros _. cbn [images showNotification with_images with_storageData].
      destruct (findIndex_nth_error _ _ _ _ Hf) as [Hn _].
      clear Hf. revert i Hn. generalize (images app).
      induction l as [| a rest IH]; intros [| j]; simpl; try discriminate; auto.
  - split; [reflexivity |]. split; [intros _; exact Hf | congruence].
Qed.

(** ** Preview canvas *)

Lemma Z_le_of_Q_half (a b : Z) : (inject_Z a <= inject_Z b + (1 # 2))%Q -> a <= b.
Proof.
  unfold Qle, inject_Z. simpl. lia.
Qed.

Lemma Z_pos_of_Q_half (a : Z) : (- (1 # 2) < inject_Z a)%Q -> 0 <= a.
Proof.
  unfold Qlt, inject_Z. simpl. lia.
Qed.

(** The preview canvas of an image of positive size fits 800 x 600 and is
    never larger than the image; the scale factor lies in [0, 1]; an image
    that fits is shown at its own size with scale 1; and the scale factor is
    positive exactly when the image is at most 1200 times as tall as wide. *)
Theorem preview_canvas_fits :
  forall (image : ImageRecord),
    0 < width image -> 0 < height image ->
    let cv := fst (Crop.setupCropCanvas image) in
    let scale := snd (Crop.setupCropCanvas image) in
    0 <= Crop.cwidth cv <= 800
    /\ 0 <= Crop.cheight cv <= 600
    /\ Crop.cwidth cv <= width image
    /\ (0 <= scale /\ scale <= 1)%Q
    /\ (width image <= 800 -> height image <= 600 ->
        cv = {| Crop.cwidth := width image; Crop.cheight := height image |}
        /\ (scale == 1)%Q)
    /\ ((0 < scale)%Q <-> height image <= 1200 * width image).
Proof.
  intros image Hw Hh cv scale.
  pose proof (inject_Z_pos _ Hw) as Qw. pose proof (inject_Z_pos _ Hh) as Qh.
  assert (Hscale : forall c, 0 <= c <= width image ->
            (0 <= inject_Z c / inject_Z (width image)
             /\ inject_Z c / inject_Z (width image) <= 1)%Q).
  { intros c [Hc0 Hc1]. rewrite Zle_Qle in Hc0, Hc1. change (inject_Z 0) with 0%Q in Hc0.
    split; [apply Qle_shift_div_l | apply Qle_shift_div_r]; lra. }
  assert (Hpos : forall c, (0 < inject_Z c / inject_Z (width image))%Q <-> 0 < c).
  { intros c. split.
    - intros H. destruct (Z_lt_le_dec 0 c) as [| Hle]; [assumption | exfalso].
      rewrite Zle_Qle in Hle. change (inject_Z 0) with 0%Q in Hle.
      assert (H' : (inject_Z c / inject_Z (width image) <= 0)%Q)
        by (apply Qle_shift_div_r; lra).
      lra.
    - intros H. rewrite Zlt_Qlt in H. change (inject_Z 0) with 0%Q in H.
      apply Qlt_shift_div_l; lra. }
  unfold cv, scale, Crop.setupCropCanvas, Crop.imageWidth, Crop.imageHeight.
  destruct ((width image >? 800) || (height image >? 600))%bool eqn:Hbig.
  - cbn [fst snd Crop.cwidth Crop.cheight].
    set (W := inject_Z (width image)) in *. set (H := inject_Z (height image)) in *.
    set (s := Math_min (800 / W) (600 / H)).
    assert (HsW : (s <= 800 / W)%Q) by apply Math_min_le_l.
    assert (HsH : (s <= 600 / H)%Q) by apply Math_min_le_r.
    assert (Hs0 : (0 < s)%Q).
    { unfold s, Math_min. destruct (Qlt_le_dec _ _); apply Qlt_shift_div_l; lra. }
    assert (HWs : (W * s <= 800)%Q).
    { assert (E : (W * (800 / W) == 800)%Q) by (field; lra).
      assert (L : (W * s <= W * (800 / W))%Q) by (apply Qmult_le_l; lra). lra. }
    assert (HHs : (H * s <= 600)%Q).
    { assert (E : (H * (600 / H) == 600)%Q) by (field; lra).
      assert (L : (H * s <= H * (600 / H))%Q) by (apply Qmult_le_l; lra). lra. }
    assert (Hs1 : (s < 1)%Q).
    { apply orb_true_iff in Hbig. destruct Hbig as [Hb | Hb]; apply Z.gtb_lt in Hb;
        rewrite Zlt_Qlt in Hb.
      - change (inject_Z 800) with 800%Q in Hb. fold W in Hb.
        assert (L : (800 / W < 1)%Q) by (apply Qlt_shift_div_r; lra). lra.
      - change (inject_Z 600) with 600%Q in Hb. fold H in Hb.
        assert (L : (600 / H < 1)%Q) by (apply Qlt_shift_div_r; lra). lra. }
    assert (HWs' : (0 < W * s /\ W * s < W)%Q).
    { split; [apply Qmult_lt_0_compat; lra |].
      assert (L : (W * s < W * 1)%Q) by (apply Qmult_lt_l; lra). lra. }
    assert (HHs' : (0 < H * s)%Q) by (apply Qmult_lt_0_compat; lra).
    destruct (Math_round_near (W * s)) as [Ra Rb].
    destruct (Math_round_near (H * s)) as [Rc Rd].
    assert (Hcw : 0 <= Math_round (W * s) <= 800).
    { split; [apply Z_pos_of_Q_half; lra |].
      apply Z_le_of_Q_half. change (inject_Z 800) with 800%Q. lra. }
    assert (Hch : 0 <= Math_round (H * s) <= 600).
    { split; [apply Z_pos_of_Q_half; lra |].
      apply Z_le_of_Q_half. change (inject_Z 600) with 600%Q. lra. }
    assert (Hcw' : Math_round (W * s) <= width image).
    { apply Z_le_of_Q_half. fold W. lra. }
    split; [exact Hcw |]. split; [exact Hch |]. split; [exact Hcw' |].
    split; [apply Hscale; lia |].
    split.
    { intros Hw8 Hh6. exfalso. apply orb_true_iff in Hbig.
      destruct Hbig as [Hb | Hb]; apply Z.gtb_lt in Hb; lia. }
    rewrite Hpos.
    assert (H1200 : height image <= 1200 * width image <-> (H <= 1200 * W)%Q).
    { rewrite Zle_Qle, inject_Z_mult. reflexivity. }
    rewrite H1200.
    assert (Hhalf : 0 < Math_round (W * s) <-> (1 # 2 <= W * s)%Q).
    { split.
      - intros Hp. destruct (Qlt_le_dec (W * s) (1 # 2)) as [Hlt |]; [exfalso | assumption].
        assert (Hle : Math_round (W * s) <= 0).
        { apply Z_le_of_Q_half. change (inject_Z 0) with 0%Q.
          assert (Hz : (inject_Z (Math_round (W * s)) < 1)%Q) by lra.
          change 1%Q with (inject_Z 1) in Hz. rewrite <- Zlt_Qlt in Hz.
          rewrite Zle_Qle in Hcw. assert (Hzz : Math_round (W * s) <= 0) by lia.
          rewrite Zle_Qle in Hzz. change (inject_Z 0) with 0%Q in Hzz. lra. }
        lia.
      - intros Hge. assert (Hz : (0 < inject_Z (Math_round (W * s)))%Q) by lra.
        change 0%Q with (inject_Z 0) in Hz. rewrite <- Zlt_Qlt in Hz. exact Hz. }
    rewrite Hhalf.
    unfold s, Math_min. destruct (Qlt_le_dec (600 / H) (800 / W)) as [Hlt | Hle].
    + assert (E : (W * (600 / H) * H == 600 * W)%Q) by (field; lra).
      split.
      * intros L. assert (L' : ((1 # 2) * H <= W * (600 / H) * H)%Q)
          by (apply Qmult_le_compat_r; lra).
        lra.
      * intros L. destruct (Qlt_le_dec (W * (600 / H)) (1 # 2)) as [Hc |]; [| assumption].
        exfalso. assert (L' : (W * (600 / H) * H < (1 # 2) * H)%Q)
          by (apply Qmult_lt_compat_r; lra).
        lra.
    + assert (E : (W * (800 / W) == 800)%Q) by (field; lra).
      assert (E1 : (800 / W * W == 800)%Q) by (field; lra).
      assert (E2 : (600 / H * H == 600)%Q) by (field; lra).
      assert (L1 : (800 / W * W * H <= 600 / H * W * H)%Q).
      { apply Qmult_le_compat_r; [| lra]. apply Qmult_le_compat_r; lra. }
      assert (E3 : (600 / H * W * H == 600 * W)%Q) by (field; lra).
      assert (E4 : (800 / W * W * H == 800 * H)%Q) by (field; lra).
      split; intros _; lra.
  - cbn [fst snd Crop.cwidth Crop.cheight].
    apply orb_false_iff in Hbig. destruct Hbig as [Hb1 Hb2].
    rewrite Z.gtb_ltb in Hb1, Hb2. apply Z.ltb_ge in Hb1, Hb2.
    split; [lia |]. split; [lia |]. split; [lia |].
    split; [apply Hscale; lia |].
    split.
    + intros _ _. split; [reflexivity |]. field. lra.
    + rewrite Hpos. split; intros _; lia.
Qed.

Lemma preview_canvas_witness :
  (0 <= snd (Crop.setupCropCanvas Scenario.large)
   /\ snd (Crop.setupCropCanvas Scenario.large) <= 1)%Q.
Proof.
  destruct (preview_canvas_fits Scenario.large ltac:(reflexivity) ltac:(reflexivity))
    as (_ & _ & _ & H & _).
  exact H.
Defined.

(** ** Pointer handling of the crop session *)

Lemma near_true (e : Q) : (- (8) < e)%Q -> (e < 8)%Q -> gt 8 (Math_abs e) = true.
Proof.
  intros H1 H2. unfold gt, Math_abs.
  destruct (Qlt_le_dec (Qabs e) 8) as [| Hle]; [reflexivity | exfalso].
  assert (Hlt : (Qabs e < 8)%Q) by (apply Qabs_Qlt_condition; split; lra).
  lra.
Qed.

Lemma near_false (e : Q) : (8 <= e \/ e <= - (8))%Q -> gt 8 (Math_abs e) = false.
Proof.
  intros H. unfold gt, Math_abs.
  destruct (Qlt_le_dec (Qabs e) 8) as [Hlt |]; [exfalso | reflexivity].
  apply Qabs_Qlt_condition in Hlt. destruct H; lra.
Qed.

(** A displayed selection less than 8 pixels wide and high cannot be dragged:
    a mousedown anywhere on it is taken by the [nw] handle and starts a
    resize. *)
Theorem small_selection_press_resizes_nw :
  forall (cs : Crop.CropState) (ov : Crop.Overlay) (it : Crop.Interaction) (px py : Q),
    let area := Crop.cropArea cs in
    (0 < Crop.width area)%Q -> (Crop.width area < 8)%Q ->
    (0 < Crop.height area)%Q -> (Crop.height area < 8)%Q ->
    Crop.isPointInSelection area px py = true ->
    let shown := Crop.updateCropSelection area ov in
    Crop.getHandleAtPosition shown px py = Some "nw"
    /\ Crop.mousedown px py cs shown it
       = (cs, shown,
          {| Crop.isSelecting := Crop.isSelecting it; Crop.isDragging := Crop.isDragging it;
             Crop.isResizing := true; Crop.startX := Crop.startX it;
             Crop.startY := Crop.startY it; Crop.currentHandle := Some "nw" |}).
Proof.
  intros cs ov it px py area Hw0 Hw8 Hh0 Hh8 Hin shown.
  unfold Crop.isPointInSelection in Hin. tests.
  assert (Hg : Crop.getHandleAtPosition shown px py = Some "nw").
  { unfold shown, Crop.updateCropSelection.
    assert (G1 : gt (Crop.width area) 0 = true)
      by (unfold gt; destruct (Qlt_le_dec 0 (Crop.width area)); [reflexivity | lra]).
    assert (G2 : gt (Crop.height area) 0 = true)
      by (unfold gt; destruct (Qlt_le_dec 0 (Crop.height area)); [reflexivity | lra]).
    rewrite G1, G2. cbn [andb].
    unfold Crop.getHandleAtPosition, Crop.updateHandlePositions, Crop.handleNames.
    cbn [Crop.handlesDisplayed Crop.handleStyle negb Crop.firstHandleNear].
    rewrite !near_true by lra. reflexivity. }
  split; [exact Hg |]. unfold Crop.mousedown. rewrite Hg. reflexivity.
Qed.

Lemma small_selection_witness :
  Crop.getHandleAtPosition
    (Crop.updateCropSelection
       {| Crop.x := 10; Crop.y := 10; Crop.width := 5; Crop.height := 5 |}
       {| Crop.cropAspectRatio := "free"; Crop.selectionDisplayed := false;
          Crop.handlesDisplayed := false; Crop.handleStyle := [] |})
    15 15 = Some "nw".
Proof.
  refine (proj1 (small_selection_press_resizes_nw
                   {| Crop.active := true; Crop.imageId := None;
                      Crop.cropArea := {| Crop.x := 10; Crop.y := 10;
                                          Crop.width := 5; Crop.height := 5 |};
                      Crop.scale := None; Crop.canvas := None |}
                   {| Crop.cropAspectRatio := "free"; Crop.selectionDisplayed := false;
                      Crop.handlesDisplayed := false; Crop.handleStyle := [] |}
                   {| Crop.isSelecting := false; Crop.isDragging := false;
                      Crop.isResizing := false; Crop.startX := 0; Crop.startY := 0;
                      Crop.currentHandle := None |}
                   15 15 ltac:(reflexivity) ltac:(reflexivity) ltac:(reflexivity)
                   ltac:(reflexivity) ltac:(reflexivity))).
Defined.

(** For a displayed selection at least 16 pixels wide and high, the pointer
    on the position of a handle finds that handle, for each of the eight. *)
Theorem handle_found_at_its_position :
  forall (area : Crop.CropArea) (ov : Crop.Overlay),
    (16 <= Crop.width area)%Q -> (16 <= Crop.height area)%Q ->
    let shown := Crop.updateCropSelection area ov in
    map (fun p => Crop.getHandleAtPosition shown (fst p) (snd p))
        (Crop.updateHandlePositions area)
      = map Some Crop.handleNames.
Proof.
  intros [ax ay aw ah] ov Hw Hh shown.
  cbn [Crop.width Crop.height] in Hw, Hh.
  unfold shown, Crop.updateCropSelection. cbn [Crop.width Crop.height].
  assert (G1 : gt aw 0 = true)
    by (unfold gt; destruct (Qlt_le_dec 0 aw); [reflexivity | lra]).
  assert (G2 : gt ah 0 = true)
    by (unfold gt; destruct (Qlt_le_dec 0 ah); [reflexivity | lra]).
  rewrite G1, G2. cbn [andb].
  unfold Crop.getHandleAtPosition, Crop.updateHandlePositions, Crop.handleNames.
  cbn [Crop.handlesDisplayed Crop.handleStyle negb Crop.firstHandleNear map fst snd
       Crop.x Crop.y Crop.width Crop.height].
  assert (Ew : (aw / 2 == aw * (1 # 2))%Q) by (field).
  assert (Eh : (ah / 2 == ah * (1 # 2))%Q) by (field).
  repeat match goal with
  | |- context [gt 8 (Math_abs ?e)] =>
      first [ rewrite (near_true e) by lra | rewrite (near_false e) by lra ];
      cbn [andb]
  end.
  reflexivity.
Qed.

Lemma handle_found_witness :
  map (fun p => Crop.getHandleAtPosition
                  (Crop.updateCropSelection
                     {| Crop.x := 10; Crop.y := 10; Crop.width := 40; Crop.height := 20 |}
                     {| Crop.cropAspectRatio := "free"; Crop.selectionDisplayed := false;
                        Crop.handlesDisplayed := false; Crop.handleStyle := [] |})
                  (fst p) (snd p))
      (Crop.updateHandlePositions
         {| Crop.x := 10; Crop.y := 10; Crop.width := 40; Crop.height := 20 |})
    = map Some Crop.handleNames.
Proof.
  apply (handle_found_at_its_position
           {| Crop.x := 10; Crop.y := 10; Crop.width := 40; Crop.height := 20 |});
    discriminate.
Defined.

(** After a mouseup the listeners are idle: a mousemove changes nothing. *)
Theorem idle_after_mouseup :
  forall (w : Crop.World) (px py : Q),
    Crop.step (Crop.step w Crop.MouseUp) (Crop.MouseMove px py)
      = Crop.step w Crop.MouseUp.
Proof.
  intros w px py. unfold Crop.step at 2 3.
  destruct (Crop.overlay w) as [ov |] eqn:Hov;
    [destruct (Crop.interaction w) as [it |] eqn:Hit;
       [destruct (Crop.canvas (Crop.cropState w)) as [cv |] eqn:Hcv |] |].
  - unfold Crop.step. cbn [Crop.overlay Crop.interaction Crop.cropState].
    rewrite Hcv. reflexivity.
  - unfold Crop.step. rewrite Hov, Hit, Hcv. reflexivity.
  - unfold Crop.step. rewrite Hov, Hit. reflexivity.
  - unfold Crop.step. rewrite Hov. reflexivity.
Qed.

(** While a selection is dragged its width and height stay as they are, its
    origin is never negative, and it ends inside the canvas whenever it is
    not larger than the canvas. *)
Theorem drag_keeps_size :
  forall (cv : Crop.CropCanvas) (px py : Q) (cs : Crop.CropState) (ov : Crop.Overlay)
         (it : Crop.Interaction),
    Crop.isSelecting it = false ->
    Crop.isDragging it = true ->
    let area := Crop.cropArea cs in
    let area' := Crop.cropArea (fst (fst (Crop.mousemove cv px py cs ov it))) in
    Crop.width area' = Crop.width area
    /\ Crop.height area' = Crop.height area
    /\ (0 <= Crop.x area' /\ 0 <= Crop.y area')%Q
    /\ ((Crop.width area <= inject_Z (Crop.cwidth cv))%Q ->
        (Crop.x area' + Crop.width area' <= inject_Z (Crop.cwidth cv))%Q)
    /\ ((Crop.height area <= inject_Z (Crop.cheight cv))%Q ->
        (Crop.y area' + Crop.height area' <= inject_Z (Crop.cheight cv))%Q).
Proof.
  intros cv px py cs ov it Hs Hd area area'.
  unfold area', Crop.mousemove. rewrite Hs, Hd.
  cbn [fst Crop.cropArea Crop.with_cropArea Crop.x Crop.y Crop.width Crop.height].
  fold area.
  split; [reflexivity |]. split; [reflexivity |].
  split; [split; apply Math_max_ge_l |].
  unfold Math_max, Math_min.
  split; intros Hle;
    repeat match goal with
    | |- context [Qlt_le_dec ?a ?b] => destruct (Qlt_le_dec a b)
    end; lra.
Qed.

Lemma drag_keeps_size_witness :
  Crop.width
    (Crop.cropArea (Crop.cropState
       (Crop.run (Crop.initializeCropMode [Scenario.large] true 1%Q Crop.newWorld)
          [Crop.MouseDown 100 100; Crop.MouseMove 300 200; Crop.MouseUp;
           Crop.MouseDown 200 150; Crop.MouseMove 700 500])))
    = Crop.width
        (Crop.cropArea (Crop.cropState
           (Crop.run (Crop.initializeCropMode [Scenario.large] true 1%Q Crop.newWorld)
              [Crop.MouseDown 100 100; Crop.MouseMove 300 200; Crop.MouseUp;
               Crop.MouseDown 200 150]))).
Proof.
  pose (w := Crop.run (Crop.initializeCropMode [Scenario.large] true 1%Q Crop.newWorld)
               [Crop.MouseDown 100 100; Crop.MouseMove 300 200; Crop.MouseUp;
                Crop.MouseDown 200 150]).
  refine (proj1 (drag_keeps_size {| Crop.cwidth := 800; Crop.cheight := 600 |} 700 500
                   (Crop.cropState w)
                   {| Crop.cropAspectRatio := "free"; Crop.selectionDisplayed := true;
                      Crop.handlesDisplayed := true;
                      Crop.handleStyle :=
                        Crop.updateHandlePositions (Crop.cropArea (Crop.cropState w)) |}
                   {| Crop.isSelecting := false; Crop.isDragging := true;
                      Crop.isResizing := false; Crop.startX := 200 - 100;
                      Crop.startY := 150 - 100; Crop.currentHandle := None |}
                   eq_refl eq_refl)).
Defined.

(** With the ratio select on [free], a selection being drawn is the rectangle
    spanned by the anchor and the pointer: one of its vertical edges passes
    through the anchor and the other through the pointer, likewise for the
    horizontal edges, and its extent is not negative. *)
Theorem free_drawing_spans_anchor_and_pointer :
  forall (cv : Crop.CropCanvas) (px py : Q) (cs : Crop.CropState) (ov : Crop.Overlay)
         (it : Crop.Interaction),
    Crop.cropAspectRatio ov = "free" ->
    Crop.isSelecting it = true ->
    let area := Crop.cropArea (fst (fst (Crop.mousemove cv px py cs ov it))) in
    (0 <= Crop.width area /\ 0 <= Crop.height area
     /\ ((Crop.x area == Crop.startX it /\ Crop.x area + Crop.width area == px)
         \/ (Crop.x area == px /\ Crop.x area + Crop.width area == Crop.startX it))
     /\ ((Crop.y area == Crop.startY it /\ Crop.y area + Crop.height area == py)
         \/ (Crop.y area == py /\ Crop.y area + Crop.height area == Crop.startY it)))%Q.
Proof.
  intros cv px py cs ov it Hfree Hs area.
  unfold area, Crop.mousemove. rewrite Hs, Hfree.
  unfold Crop.constrainToAspectRatio. cbn [String.eqb Ascii.eqb Bool.eqb].
  cbn [fst Crop.cropArea Crop.with_cropArea Crop.x Crop.y Crop.width Crop.height].
  unfold Math_abs.
  split; [apply Qabs_nonneg |]. split; [apply Qabs_nonneg |].
  split.
  - destruct (gt (px - Crop.startX it) 0) eqn:G; tests.
    + left. rewrite Qabs_pos by lra. split; [reflexivity | ring].
    + right. rewrite Qabs_neg by lra. split; [reflexivity | ring].
  - destruct (gt (py - Crop.startY it) 0) eqn:G; tests.
    + left. rewrite Qabs_pos by lra. split; [reflexivity | ring].
    + right. rewrite Qabs_neg by lra. split; [reflexivity | ring].
Qed.

Lemma free_drawing_witness :
  (0 <= Crop.width
          (Crop.cropArea (Crop.cropState
             (Crop.run (Crop.initializeCropMode [Scenario.large] true 1%Q Crop.newWorld)
                [Crop.MouseDown 300 300; Crop.MouseMove 100 200]))))%Q.
Proof.
  pose (w := Crop.run (Crop.initializeCropMode [Scenario.large] true 1%Q Crop.newWorld)
               [Crop.MouseDown 300 300]).
  refine (proj1 (free_drawing_spans_anchor_and_pointer
                   {| Crop.cwidth := 800; Crop.cheight := 600 |} 100 200
                   (Crop.cropState w)
                   {| Crop.cropAspectRatio := "free"; Crop.selectionDisplayed := false;
                      Crop.handlesDisplayed := false; Crop.handleStyle := [] |}
                   {| Crop.isSelecting := true; Crop.isDragging := false;
                      Crop.isResizing := false; Crop.startX := 300; Crop.startY := 300;
                      Crop.currentHandle := None |}
                   eq_refl eq_refl)).
Defined.

(** ** Crop export *)

(** Without a selection the export does nothing: no transform, no change of
    the session; this is the case right after [resetCropSelection]. *)
Theorem export_needs_selection :
  forall (br : Browser) (imgs : list ImageRecord) (cropAlgorithm : string) (w : Crop.World),
    ((Crop.width (Crop.cropArea (Crop.cropState w)) == 0)%Q
     \/ (Crop.height (Crop.cropArea (Crop.cropState w)) == 0)%Q ->
     Crop.applyCropAndDownload br imgs cropAlgorithm w = (w, Crop.NothingSelected))
    /\ (Crop.overlay w <> None ->
        Crop.applyCropAndDownload br imgs cropAlgorithm (Crop.resetCropSelection w)
          = (Crop.resetCropSelection w, Crop.NothingSelected)).
Proof.
  intros br imgs cropAlgorithm w. split.
  - intros H. unfold Crop.applyCropAndDownload.
    destruct H as [H | H]; apply Qeq_bool_iff in H; rewrite H;
      [reflexivity | rewrite orb_true_r; reflexivity].
  - intros Hov. unfold Crop.resetCropSelection.
    destruct (Crop.overlay w); [reflexivity | contradiction].
Qed.

(** A finished export produced a PNG encode of a canvas of the size of the
    source-space rectangle, saved as [cropped_] plus the image name; it closes
    the session, so that later mouse events are ignored, and it leaves the
    crop rectangle in [cropState] as it was. *)
Theorem export_closes_session :
  forall (br : Browser) (imgs : list ImageRecord) (cropAlgorithm : string)
         (w w' : Crop.World) (filename dataUrl : string) (source : Crop.SourceArea),
    Crop.applyCropAndDownload br imgs cropAlgorithm w
      = (w', Crop.Downloaded filename dataUrl source) ->
    (exists canvas image ref id,
       Crop.imageId (Crop.cropState w) = Some id
       /\ findIndex imgs id = Some (ref, image)
       /\ filename = "cropped_" ++ name image
       /\ dataUrl = toDataURL br canvas "image/png" None
       /\ canvas_width canvas = Crop.swidth source
       /\ canvas_height canvas = Crop.sheight source)
    /\ Crop.active (Crop.cropState w') = false
    /\ Crop.overlay w' = None
    /\ Crop.cropArea (Crop.cropState w') = Crop.cropArea (Crop.cropState w)
    /\ forall e, Crop.step w' e = w'.
Proof.
  intros br imgs cropAlgorithm w w' filename dataUrl source.
  unfold Crop.applyCropAndDownload.
  destruct (Qeq_bool _ 0 || Qeq_bool _ 0)%bool; [discriminate |].
  destruct (Crop.imageId (Crop.cropState w)) as [id |]; [| discriminate].
  destruct (Crop.scale (Crop.cropState w)) as [scale |]; [| discriminate].
  destruct (findIndex imgs id) as [[ref image] |] eqn:Hf; [| discriminate].
  destruct (Crop.processCroppedImage br image _ cropAlgorithm) as [url | e] eqn:Hp;
    [| discriminate].
  intros H. injection H as <- <- <- <-.
  split.
  - unfold Crop.processCroppedImage in Hp.
    destruct (decodeImage br (src image)); [| discriminate].
    destruct (pica br) as [[|] |]; destruct (cropAlgorithm === "lanczos");
      try discriminate; injection Hp as <-;
      eexists _, image, ref, id; repeat split; exact Hf.
  - repeat split.
Qed.

Lemma export_closes_witness :
  Crop.overlay
    (fst (Crop.applyCropAndDownload Scenario.host [Scenario.large; Scenario.small] "lanczos"
            (Crop.run (Crop.initializeCropMode [Scenario.large; Scenario.small] true 1%Q
                         Crop.newWorld)
               [Crop.MouseDown 100 100; Crop.MouseMove 500 400; Crop.MouseUp]))) = None.
Proof.
  refine (proj1 (proj2 (proj2 (export_closes_session Scenario.host
            [Scenario.large; Scenario.small] "lanczos"
            (Crop.run (Crop.initializeCropMode [Scenario.large; Scenario.small] true 1%Q
                         Crop.newWorld)
               [Crop.MouseDown 100 100; Crop.MouseMove 500 400; Crop.MouseUp]) _
            "cropped_large.png" "data:image/png;base64,AAAA"
            {| Crop.sx := 200; Crop.sy := 200; Crop.swidth := 800; Crop.sheight := 600 |}
            _)))).
  vm_compute. reflexivity.
Defined.

(** ** Peer session: registration and messages *)

Lemma trimStart_blank (s : string) : AllWhite s -> Peer.trimStart s = "".
Proof.
  induction 1 as [| codePoint rest Hin _ IH]; [reflexivity |].
  rewrite <- IH. unfold whiteSpace in Hin.
  repeat (destruct Hin as [<- | Hin]; [reflexivity |]).
  destruct Hin.
Qed.

(** A device id made of white space only, in the sense of
    [String.prototype.trim], opens no connection: the only effect of
    [connectManual] is the warning toast. *)
Theorem blank_device_id_connects_nothing :
  forall (app : App) (input : string),
    AllWhite input ->
    Peer.connectManual app input
      = showNotification app "Kérem adja meg az eszköz ID-ját!" "warning".
Proof.
  intros app input H. unfold Peer.connectManual, Peer.trim.
  rewrite (trimStart_blank _ H). reflexivity.
Qed.

Lemma blank_device_id_witness :
  heap (Peer.connectManual newApp (encode [32; 194; 160; 9; 227; 128; 128]%nat)) = [].
Proof.
  rewrite (blank_device_id_connects_nothing newApp
             (encode [32; 194; 160; 9; 227; 128; 128]%nat)).
  - reflexivity.
  - apply (AllWhite_more [32%nat]); [simpl; tauto |].
    apply (AllWhite_more [194; 160]%nat); [simpl; tauto |].
    apply (AllWhite_more [9%nat]); [simpl; tauto |].
    apply (AllWhite_more [227; 128; 128]%nat); [simpl; tauto |].
    apply AllWhite_empty.
Defined.

(** An outbound connection is registered when, and only when, it opens:
    [connectManual] itself registers nothing, the [open] event appends the
    connection to [this.connections] and the [error] event only shows the
    failure toast. *)
Theorem outbound_registered_on_open :
  forall (app : App) (input : string),
    Peer.trim input <> "" ->
    peerReady app = true ->
    let conn := List.length (heap app) in
    let pending := Peer.connectManual app input in
    connections pending = connections app
    /\ option_map state (nth_error (heap pending) conn) = Some Opening
    /\ option_map peer (nth_error (heap pending) conn) = Some (Peer.trim input)
    /\ connections (Peer.emit pending conn Peer.EvOpen) = (connections app ++ [conn])%list
    /\ option_map state (nth_error (heap (Peer.emit pending conn Peer.EvOpen)) conn)
       = Some Open
    /\ connections (Peer.emit pending conn Peer.EvError) = connections app
    /\ notifications (Peer.emit pending conn Peer.EvError)
       = (notifications app ++ [("Csatlakozás sikertelen!", "error")])%list.
Proof.
  intros app input Hne Hready conn pending. subst pending conn.
  unfold Peer.connectManual.
  destruct (String.eqb_spec (Peer.trim input) "") as [E | _]; [contradiction |].
  rewrite Hready. cbn [negb].
  set (c0 := {| peer := Peer.trim input; state := Opening; handlers := []; sent := [] |}).
  rewrite (update_last (with_peer app (heap app ++ [c0]) (connections app))
             (heap app) c0 _ eq_refl).
  cbn [heap connections with_peer].
  match goal with
  | |- context [Peer.update ?a (Datatypes.length (heap app)) ?f] =>
      rewrite (update_last a (heap app) _ f eq_refl)
  end.
  cbn [heap connections with_peer].
  set (c2 := Peer.on (Peer.on c0 "open" RegisterOnOpen) "error" NotifyOnError).
  split; [reflexivity |].
  split; [rewrite nth_error_last; reflexivity |].
  split; [rewrite nth_error_last; reflexivity |].
  unfold Peer.emit. cbn [heap connections with_peer]. rewrite nth_error_last.
  match goal with
  | |- context [Peer.update ?a (Datatypes.length (heap app)) ?f] =>
      rewrite (update_last a (heap app) _ f eq_refl)
  end.
  cbn -[nth_error]. rewrite nth_error_last. repeat split.
Qed.

Lemma outbound_registered_witness :
  let input := encode [194; 160]%nat ++ "peer-b" ++ encode [32; 227; 128; 128]%nat in
  option_map peer (nth_error (heap (Peer.connectManual newApp input)) 0) = Some "peer-b"
  /\ connections (Peer.emit (Peer.connectManual newApp input) 0%nat Peer.EvOpen)
     = [0%nat].
Proof.
  intros input.
  destruct (outbound_registered_on_open newApp input ltac:(discriminate) eq_refl)
    as [_ [_ [Hpeer [Hopen _]]]].
  split; [exact Hpeer | exact Hopen].
Defined.

(** On an inbound connection a data message whose [type] is not ['file']
    changes nothing. A ['file'] message saves the payload through a link
    click, [href] the data and [download] the name the sender gave, and then
    shows the toast; images, counters and connections stay as they are. *)
Theorem inbound_data_handling :
  forall (app : App) (remote : string) (data : FileData),
    let conn := List.length (heap app) in
    let registered := Peer.incoming app remote in
    ((fd_type data === "file") = false ->
     Peer.emit registered conn (Peer.EvData data) = registered)
    /\ ((fd_type data === "file") = true ->
        Peer.emit registered conn (Peer.EvData data)
          = showNotification
              (with_received registered
                 (received app
                  ++ [{| link_href := fd_data data; link_download := fd_name data |}]))
              ("Fájl érkezett: " ++ fd_name data) "success").
Proof.
  intros app remote data conn registered. subst registered conn.
  unfold Peer.incoming, Peer.handleIncomingConnection.
  cbn [heap connections with_peer].
  do 2 (match goal with
        | |- context [Peer.update ?a (Datatypes.length (heap app)) ?f] =>
            lazymatch a with
            | context [Peer.update] => fail
            | _ => rewrite (update_last a (heap app) _ f eq_refl)
            end
        end; cbn [heap connections with_peer]).
  unfold Peer.emit. cbn [heap connections with_peer]. rewrite nth_error_last.
  cbn -[String.eqb String.append].
  split; intros ->; reflexivity.
Qed.

(** ** Disconnecting a device *)

Lemma map_store {A B : Type} (f : A -> B) (l : list A) (i : nat) (a b : A) :
  nth_error l i = Some a -> f b = f a -> map f (store l i b) = map f l.
Proof.
  revert i. induction l as [| c rest IH]; intros [| j]; simpl; try discriminate.
  - intros H E. injection H as ->. rewrite E. reflexivity.
  - intros H E. rewrite (IH _ H E). reflexivity.
Qed.

Lemma findConnection_none (h : list DataConnection) (conns : list nat) (peerId : string) :
  (forall conn p, In conn conns -> nth_error (map peer h) conn = Some p ->
                  (p === peerId) = false) ->
  Peer.findConnection h conns peerId = None.
Proof.
  induction conns as [| conn rest IH]; intros H; simpl; [reflexivity |].
  destruct (nth_error h conn) as [c |] eqn:Hn.
  - rewrite (H conn (peer c)); [| left; reflexivity | rewrite nth_error_map, Hn; reflexivity].
    apply IH. intros conn' p Hin. apply H. right. exact Hin.
  - apply IH. intros conn' p Hin. apply H. right. exact Hin.
Qed.

(** Closing connections one by one: peers stay, closed connections stay
    closed, and every connection of the list that is hit ends closed. *)
Lemma close_hits (hit : nat -> bool) (conns : list nat) :
  forall app,
    let app' :=
      fold_left (fun app conn =>
                   if hit conn then Peer.update app conn (fun c => Peer.with_state c Closed)
                   else app) conns app in
    map peer (heap app') = map peer (heap app)
    /\ notifications app' = notifications app
    /\ images app' = images app
    /\ (forall conn, option_map state (nth_error (heap app) conn) = Some Closed ->
                     option_map state (nth_error (heap app') conn) = Some Closed)
    /\ (forall conn c, In conn conns -> hit conn = true ->
                       nth_error (heap app) conn = Some c ->
                       option_map state (nth_error (heap app') conn) = Some Closed).
Proof.
  induction conns as [| conn rest IH]; intros app; simpl.
  - repeat split; auto. intros conn c [].
  - set (app1 := if hit conn
                 then Peer.update app conn (fun c => Peer.with_state c Closed) else app).
    assert (H1 : map peer (heap app1) = map peer (heap app)
                 /\ notifications app1 = notifications app
                 /\ images app1 = images app
                 /\ (forall k, option_map state (nth_error (heap app) k) = Some Closed ->
                               option_map state (nth_error (heap app1) k) = Some Closed)
                 /\ (forall c, hit conn = true -> nth_error (heap app) conn = Some c ->
                               option_map state (nth_error (heap app1) conn) = Some Closed)).
    { unfold app1, Peer.update. destruct (hit conn); [| repeat split; auto; discriminate].
      destruct (nth_error (heap app) conn) as [c |] eqn:Hn;
        [| repeat split; auto; discriminate].
      cbn [heap notifications images with_peer].
      split; [apply (map_store peer _ _ c); [exact Hn | reflexivity] |].
      split; [reflexivity |]. split; [reflexivity |]. split.
      - intros k Hk. destruct (Nat.eq_dec conn k) as [<- | Hne].
        + rewrite (nth_error_store _ _ _ _ Hn). reflexivity.
        + rewrite (nth_error_store_other _ _ _ _ Hne). exact Hk.
      - intros c' _ _. rewrite (nth_error_store _ _ _ _ Hn). reflexivity. }
    destruct H1 as (Hp1 & Hn1 & Hi1 & Hc1 & Hh1).
    destruct (IH app1) as (Hp & Hn & Hi & Hc & Hh).
    split; [congruence |]. split; [congruence |]. split; [congruence |]. split.
    + intros k Hk. apply Hc, Hc1, Hk.
    + intros k c [<- | Hin] Hhit Hk.
      * apply Hc. apply (Hh1 c Hhit Hk).
      * assert (Hk1 : exists c1, nth_error (heap app1) k = Some c1).
        { assert (Hm : nth_error (map peer (heap app1)) k = Some (peer c))
            by (rewrite Hp1, nth_error_map, Hk; reflexivity).
          rewrite nth_error_map in Hm.
          destruct (nth_error (heap app1) k); [eauto | discriminate]. }
        destruct Hk1 as [c1 Hk1]. apply (Hh k c1 Hin Hhit Hk1).
Qed.

(** After [disconnectDevice] no registered connection leads to the peer:
    every connection to it that was registered is closed, and [sendFile]
    towards it sends nothing and reports the failure. *)
Theorem disconnected_peer_unreachable :
  forall (app : App) (peerId : string) (imageId : Q),
    let app' := Peer.disconnectDevice app peerId in
    Peer.findConnection (heap app') (connections app') peerId = None
    /\ (forall conn c, In conn (connections app) -> nth_error (heap app) conn = Some c ->
          peer c = peerId ->
          option_map state (nth_error (heap app') conn) = Some Closed)
    /\ heap (Peer.sendFile app' imageId peerId) = heap app'
    /\ notifications (Peer.sendFile app' imageId peerId)
       = (notifications app ++ [("Eszköz leválasztva", "info");
                                ("Fájl küldése sikertelen!", "error")])%list.
Proof.
  intros app peerId imageId app'.
  set (hit := fun conn => match nth_error (heap app) conn with
                          | Some c => peer c === peerId
                          | None => false
                          end).
  set (closed := fold_left
                   (fun app conn =>
                      if hit conn
                      then Peer.update app conn (fun c => Peer.with_state c Closed)
                      else app) (connections app) app).
  pose proof (close_hits hit (connections app) app) as (Hp & Hn & Hi & _ & Hh).
  fold closed in Hp, Hn, Hi, Hh.
  assert (Happ : app' = showNotification
                          (with_peer closed (heap closed)
                             (filter (fun conn => negb (hit conn)) (connections app)))
                          "Eszköz leválasztva" "info") by reflexivity.
  clearbody closed app'. subst app'.
  cbn [heap connections notifications images showNotification with_peer].
  assert (Hfind : Peer.findConnection (heap closed)
                    (filter (fun conn => negb (hit conn)) (connections app)) peerId = None).
  { apply findConnection_none. intros conn p Hin Hnth.
    apply filter_In in Hin. destruct Hin as [_ Hnot].
    rewrite Hp, nth_error_map in Hnth. unfold hit in Hnot.
    destruct (nth_error (heap app) conn) as [c |]; [| discriminate].
    injection Hnth as <-. destruct (peer c === peerId); [discriminate | reflexivity]. }
  split; [exact Hfind |]. split.
  - intros conn c Hin Hnth Hpeer.
    apply (Hh conn c Hin); [| exact Hnth].
    unfold hit. rewrite Hnth, Hpeer. apply String.eqb_refl.
  - unfold Peer.sendFile.
    cbn [heap connections notifications images showNotification with_peer].
    rewrite Hfind.
    destruct (findIndex (images closed) imageId) as [[ref image] |];
      cbn [heap notifications showNotification with_peer];
      rewrite Hn, <- app_assoc; split; reflexivity.
Qed.

(** ** Loading files *)

Lemma totalSize_sum (files : list Pipeline.File) :
  Library.totalSize files = sumFileSizes files.
Proof.
  unfold Library.totalSize.
  assert (H : forall acc, fold_left (fun sum file => sum + Pipeline.file_size file) files acc
                          = acc + sumFileSizes files).
  { induction files as [| f rest IH]; intros acc; simpl; [lia |]. rewrite IH. lia. }
  rewrite H. lia.
Qed.

(** [addImage] adds exactly the files that load, at the end of the list. *)
Lemma addImage_loads br app file newId :
  let app' := fst (Pipeline.addImage br app file newId) in
  progressModal app' = progressModal app
  /\ progressCount app' = progressCount app
  /\ notifications app' = notifications app
  /\ compressedSize (storageData app') = compressedSize (storageData app)
  /\ limit (storageData app') = limit (storageData app)
  /\ if loads br file then
       (exists im, images app' = (images app ++ [im])%list
                   /\ name im = Pipeline.file_name file
                   /\ size im = Pipeline.file_size file
                   /\ id im = newId
                   /\ processed im = false /\ processedSize im = None)
       /\ originalSize (storageData app')
          = originalSize (storageData app) + Pipeline.file_size file
       /\ (exists u, snd (Pipeline.addImage br app file newId) = Resolved u)
     else
       images app' = images app
       /\ originalSize (storageData app') = originalSize (storageData app)
       /\ (exists e, snd (Pipeline.addImage br app file newId) = Rejected e).
Proof.
  unfold loads, Pipeline.addImage.
  destruct (Pipeline.file_data file) as [result |]; [| cbn; repeat split; eauto].
  destruct (decodeImage br result) as [[w h] |]; [| cbn; repeat split; eauto].
  destruct ((w =? 0) || (h =? 0))%bool; [cbn; repeat split; eauto |].
  destruct ((w >? 16384) || (h >? 16384))%bool; [cbn; repeat split; eauto |].
  cbn. repeat split; eauto. eexists. repeat split.
Qed.

Lemma addAll_effect br newIds :
  forall files app i successCount failedFiles,
    let '(app', successCount', failedFiles') :=
      Library.addAll br app files newIds i successCount failedFiles in
    map name (images app')
      = (map name (images app) ++ map Pipeline.file_name (filter (loads br) files))%list
    /\ map size (images app')
       = (map size (images app) ++ map Pipeline.file_size (filter (loads br) files))%list
    /\ map processedSize (images app')
       = (map processedSize (images app)
          ++ map (fun _ => None) (filter (loads br) files))%list
    /\ originalSize (storageData app')
       = originalSize (storageData app) + sumFileSizes (filter (loads br) files)
    /\ compressedSize (storageData app') = compressedSize (storageData app)
    /\ limit (storageData app') = limit (storageData app)
    /\ progressModal app' = progressModal app
    /\ notifications app' = notifications app
    /\ successCount' = (successCount + List.length (filter (loads br) files))%nat
    /\ failedFiles'
       = (failedFiles
          ++ map Pipeline.file_name (filter (fun f => negb (loads br f)) files))%list.
Proof.
  induction files as [| file rest IH]; intros app i successCount failedFiles.
  - simpl. rewrite !app_nil_r. repeat split; lia.
  - simpl.
    pose proof (addImage_loads br app file (newIds i))
      as (Hpm & Hpc & Hno & Hcs & Hli & Hload).
    destruct (Pipeline.addImage br app file (newIds i)) as [app1 outcome].
    cbn [fst snd] in *.
    destruct (loads br file) eqn:Hl.
    + destruct Hload as ((im & Him & Hnm & Hsz & _ & _ & Hps) & Hos & (u & ->)).
      specialize (IH (updateProgress app1 (Z.of_nat i + 1)) (S i) (S successCount)
                     failedFiles).
      destruct (Library.addAll br _ rest newIds (S i) (S successCount) failedFiles)
        as [[app' sc'] ff'].
      cbn [images storageData progressModal notifications updateProgress with_progress
           negb] in IH.
      destruct IH as (I1 & I2 & I3 & I4 & I5 & I6 & I7 & I8 & I9 & I10).
      rewrite Him in I1, I2, I3. rewrite !map_app in I1, I2, I3.
      cbn [map] in *. rewrite <- !app_assoc in I1, I2, I3. cbn [List.app] in I1, I2, I3.
      rewrite Hnm in I1. rewrite Hsz in I2. rewrite Hps in I3.
      unfold sumFileSizes in *. cbn [fold_right]. fold sumFileSizes in *.
      repeat split; try congruence; try lia.
      * cbn [List.length]. lia.
      * cbn [negb]. exact I10.
    + destruct Hload as (Him & Hos & (e & ->)).
      specialize (IH (updateProgress app1 (Z.of_nat i + 1)) (S i) successCount
                     (failedFiles ++ [Pipeline.file_name file])%list).
      destruct (Library.addAll br _ rest newIds (S i) successCount _)
        as [[app' sc'] ff'].
      cbn [images storageData progressModal notifications updateProgress with_progress
           negb map] in *.
      destruct IH as (I1 & I2 & I3 & I4 & I5 & I6 & I7 & I8 & I9 & I10).
      rewrite Him in I1, I2, I3. rewrite <- app_assoc in I10. cbn [List.app] in I10.
      repeat split; try congruence; try lia.
Qed.

Lemma filter_filter {A : Type} (f g : A -> bool) (l : list A) :
  filter g (filter f l) = filter (fun a => f a && g a) l.
Proof.
  induction l as [| a rest IH]; simpl; [reflexivity |].
  destruct (f a); simpl; [destruct (g a); rewrite IH; reflexivity | exact IH].
Qed.

(** What [processFiles] does to the list and the counters: the loading loop
    runs when [admitted], and then appends the accepted files that load. *)
Lemma processFiles_effect br app files newIds :
  let app' := Library.processFiles br app files newIds in
  let good :=
    if admitted app files
    then filter (fun f => Library.accepted f && loads br f) files else [] in
  map name (images app') = (map name (images app) ++ map Pipeline.file_name good)%list
  /\ map size (images app') = (map size (images app) ++ map Pipeline.file_size good)%list
  /\ map processedSize (images app')
     = (map processedSize (images app) ++ map (fun _ => None) good)%list
  /\ originalSize (storageData app') = originalSize (storageData app) + sumFileSizes good
  /\ compressedSize (storageData app') = compressedSize (storageData app)
  /\ limit (storageData app') = limit (storageData app)
  /\ (progressModal app = false -> progressModal app' = false).
Proof.
  unfold Library.processFiles, admitted.
  assert (Hsame : forall a : App,
            images a = images app -> storageData a = storageData app ->
            progressModal a = progressModal app ->
            map name (images a) = (map name (images app) ++ map Pipeline.file_name [])%list
            /\ map size (images a) = (map size (images app) ++ map Pipeline.file_size [])%list
            /\ map processedSize (images a)
               = (map processedSize (images app) ++ map (fun _ => None) (@nil Pipeline.File))%list
            /\ originalSize (storageData a) = originalSize (storageData app) + sumFileSizes []
            /\ compressedSize (storageData a) = compressedSize (storageData app)
            /\ limit (storageData a) = limit (storageData app)
            /\ (progressModal app = false -> progressModal a = false)).
  { intros a -> -> ->. cbn. rewrite !app_nil_r. repeat split; auto; lia. }
  destruct (List.length files =? 0)%nat; [apply Hsame; reflexivity |].
  destruct (100 <? List.length files)%nat; [apply Hsame; reflexivity |].
  cbn [negb andb].
  set (warned := match Library.invalidEntries files with
                 | [] => app
                 | _ => showNotification app _ "warning"
                 end).
  assert (Hw : images warned = images app /\ storageData warned = storageData app
               /\ progressModal warned = progressModal app).
  { unfold warned. destruct (Library.invalidEntries files); repeat split. }
  destruct Hw as (Hw1 & Hw2 & Hw3).
  destruct (filter Library.accepted files) as [| v vs] eqn:Hvalid.
  - assert (Hgood : filter (fun f => Library.accepted f && loads br f) files = [])
      by (rewrite <- filter_filter, Hvalid; reflexivity).
    rewrite Hgood.
    match goal with
    | |- context [if ?b then [] else []] => destruct b
    end; apply Hsame; assumption.
  - rewrite <- Hvalid. rewrite totalSize_sum, Hw2.
    destruct (originalSize (storageData app) + sumFileSizes (filter Library.accepted files)
              >? limit (storageData app)); cbn [negb].
    + apply Hsame; assumption.
    + pose proof (addAll_effect br newIds (filter Library.accepted files)
                    (showProgress warned true) 0%nat 0%nat []) as He.
      destruct (Library.addAll br (showProgress warned true)
                  (filter Library.accepted files) newIds 0 0 [])
        as [[app1 sc] ff].
      cbn [images storageData progressModal notifications showProgress with_progress] in He.
      destruct He as (I1 & I2 & I3 & I4 & I5 & I6 & _).
      rewrite filter_filter in I1, I2, I3, I4. rewrite Hw1 in I1, I2, I3.
      rewrite Hw2 in I4, I5, I6.
      destruct (0 <? sc)%nat;
        cbn [images storageData progressModal showNotification hideProgress showProgress
             with_progress]; repeat split; assumption.
Qed.

(** [processFiles] appends to the image list exactly the accepted files that
    load, in their order, and adds their sizes to [originalSize]; a file that
    fails to load does not stop the ones after it. Nothing is added when no
    file or more than 100 files are given or when the accepted files exceed
    the storage limit. The progress modal is not left open. *)
Theorem processFiles_loads_the_good_files :
  forall (br : Browser) (app : App) (files : list Pipeline.File) (newIds : nat -> Q),
    let app' := Library.processFiles br app files newIds in
    let good :=
      if admitted app files
      then filter (fun f => Library.accepted f && loads br f) files else [] in
    map name (images app') = (map name (images app) ++ map Pipeline.file_name good)%list
    /\ map size (images app') = (map size (images app) ++ map Pipeline.file_size good)%list
    /\ originalSize (storageData app') = originalSize (storageData app) + sumFileSizes good
    /\ compressedSize (storageData app') = compressedSize (storageData app)
    /\ (progressModal app = false -> progressModal app' = false).
Proof.
  intros br app files newIds app' good.
  destruct (processFiles_effect br app files newIds) as (H1 & H2 & _ & H4 & H5 & _ & H7).
  auto.
Qed.







(** ** Converting, downloading *)

Lemma findIndex_store (imgs : list ImageRecord) (imageId : Q) :
  forall ref image image',
    findIndex imgs imageId = Some (ref, image) ->
    id image' = id image ->
    findIndex (store imgs ref image') imageId = Some (ref, image').
Proof.
  induction imgs as [| a rest IH]; intros ref image image'; simpl; [discriminate |].
  destruct (Qeq_bool (id a) imageId) eqn:E.
  - intros H Hid. injection H as <- <-. simpl. rewrite Hid, E. reflexivity.
  - destruct (findIndex rest imageId) as [[j found] |] eqn:Hf; [| discriminate].
    intros H Hid. injection H as <- <-. simpl. rewrite E.
    rewrite (IH j found image' eq_refl Hid). reflexivity.
Qed.

(** What a successful transform stores, in full. *)
Lemma transform_success br app app' imageId settings pd :
  Pipeline.processImageWithSettings br app imageId settings = (app', Resolved (Some pd)) ->
  exists ref image image' img,
    findIndex (images app) imageId = Some (ref, image)
    /\ decodeImage br (src image) = Some img
    /\ Pipeline.applyLosslessProcessing br (processingOptions app) img settings = Resolved pd
    /\ findIndex (images app') imageId = Some (ref, image')
    /\ nth_error (images app') ref = Some image'
    /\ name image' = name image /\ src image' = src image /\ size image' = size image
    /\ processed image' = true
    /\ processedSrc image' = Some (Pipeline.dataUrl pd)
    /\ processedSize image' = Some (Pipeline.pd_size pd)
    /\ processedFormat image' = Some (Settings.format settings)
    /\ processedDimensions image' = Some (Pipeline.dimensions pd)
    /\ notifications app' = notifications app.
Proof.
  unfold Pipeline.processImageWithSettings.
  destruct (findIndex (images app) imageId) as [[ref image] |] eqn:Hf; [| discriminate].
  destruct (findIndex_nth_error _ _ _ _ Hf) as [Hnth _].
  unfold Pipeline.processImageLossless.
  destruct (decodeImage br (src image)) as [img |] eqn:Hd; [| discriminate].
  destruct (Pipeline.applyLosslessProcessing br (processingOptions app) img settings)
    as [pd' | e] eqn:Ha; [| discriminate].
  intros H. injection H as <- <-.
  eexists ref, image, _, img. split; [reflexivity |]. split; [exact Hd |].
  split; [exact Ha |].
  cbn [images notifications with_images with_storageData with_totalProcessed].
  split; [apply (findIndex_store _ _ _ _ _ Hf); reflexivity |].
  split; [apply (nth_error_store _ _ _ _ Hnth) |].
  repeat split.
Qed.

Lemma dataUrl_not_empty br opts img settings pd :
  Pipeline.applyLosslessProcessing br opts img settings = Resolved pd ->
  (Pipeline.dataUrl pd === "") = false.
Proof.
  unfold Pipeline.applyLosslessProcessing. destruct img as [nw nh].
  destruct (Pipeline.targetDimensions nw nh settings) as [tw th].
  match goal with
  | |- context [split "," ?u] => generalize u
  end.
  intros u. destruct (nth_error (split "," u) 1) eqn:Hn; [| discriminate].
  intros H. injection H as <-. cbn [Pipeline.dataUrl].
  destruct u; [discriminate Hn | reflexivity].
Qed.

(** After a successful transform, whatever the format, [downloadImage] saves
    the new artifact under [processed_] plus the unchanged image name, and
    [downloadOriginal] still saves the untouched source. *)
Theorem downloads_after_transform :
  forall (br : Browser) (app app' : App) (imageId : Q) (settings : Settings.t)
         (pd : Pipeline.ProcessedData),
    Pipeline.processImageWithSettings br app imageId settings = (app', Resolved (Some pd)) ->
    exists ref image,
      findIndex (images app) imageId = Some (ref, image)
      /\ snd (Library.downloadImage app' imageId)
         = Some {| Library.filename := "processed_" ++ name image;
                   Library.href := Pipeline.dataUrl pd |}
      /\ snd (Library.downloadOriginal app' imageId)
         = Some {| Library.filename := "original_" ++ name image;
                   Library.href := src image |}.
Proof.
  intros br app app' imageId settings pd H.
  destruct (transform_success _ _ _ _ _ _ H)
    as (ref & image & image' & img & Hf & _ & Ha & Hf' & _ & Hn & Hs & _ & Hp & Hps & _).
  exists ref, image. split; [exact Hf |].
  unfold Library.downloadImage, Library.downloadOriginal. rewrite Hf'.
  cbn [snd]. rewrite Hp, Hps, Hn, Hs. unfold Peer.str_or.
  rewrite (dataUrl_not_empty _ _ _ _ _ Ha). split; reflexivity.
Qed.

Lemma downloads_after_transform_witness :
  exists ref image,
    findIndex (images Scenario.added) 1%Q = Some (ref, image)
    /\ snd (Library.downloadImage
              (fst (Pipeline.processImageWithSettings Scenario.host Scenario.added 1%Q
                      Scenario.tiffSettings)) 1%Q)
       = Some {| Library.filename := "processed_" ++ name image;
                 Library.href := "data:image/png;base64,AAAA" |}
    /\ snd (Library.downloadOriginal
              (fst (Pipeline.processImageWithSettings Scenario.host Scenario.added 1%Q
                      Scenario.tiffSettings)) 1%Q)
       = Some {| Library.filename := "original_" ++ name image; Library.href := src image |}.
Proof.
  refine (downloads_after_transform Scenario.host Scenario.added _ 1%Q Scenario.tiffSettings
            {| Pipeline.dataUrl := "data:image/png;base64,AAAA"; Pipeline.pd_size := 3;
               Pipeline.dimensions := (4000, 3000); Pipeline.pd_format := "tiff" |} _).
  vm_compute. reflexivity.
Defined.

Lemma conversion_only_dimensions br opts nw nh settings pd :
  truthy (Settings.width settings) = false ->
  truthy (Settings.height settings) = false ->
  Pipeline.applyLosslessProcessing br opts (nw, nh) settings = Resolved pd ->
  Pipeline.dimensions pd = (nw, nh).
Proof.
  intros Hw Hh Ha. rewrite (applyLosslessProcessing_dimensions _ _ _ _ _ _ Ha).
  unfold Pipeline.targetDimensions.
  rewrite Hw, Hh, !truthy_false_or_else by assumption. reflexivity.
Qed.


(** [convertFormat] never resizes and never fails: for a listed image it
    either records the artifact with the requested format and the decoded
    natural size and shows the conversion toast, or leaves list and counters
    as they were and shows the two error toasts. An unknown id changes
    nothing. *)
Theorem convertFormat_outcome :
  forall (br : Browser) (app : App) (imageId : Q) (targetFormat : string),
    let app' := Library.convertFormat br app imageId targetFormat in
    (findIndex (images app) imageId = None -> app' = app)
    /\ (forall ref image, findIndex (images app) imageId = Some (ref, image) ->
          (images app' = images app /\ storageData app' = storageData app
           /\ notifications app'
              = (notifications app ++ [("Képfeldolgozás sikertelen!", "error");
                                       ("Formátum konverzió sikertelen!", "error")])%list)
          \/ (exists image',
                nth_error (images app') ref = Some image'
                /\ processed image' = true
                /\ processedFormat image' = Some targetFormat
                /\ processedDimensions image' = decodeImage br (src image)
                /\ notifications app'
                   = (notifications app
                      ++ [(("Kép konvertálva " ++ Library.toUpperCase targetFormat
                            ++ " formátumba!")%string, "success")])%list)).
Proof.
  intros br app imageId targetFormat app'. unfold app', Library.convertFormat.
  split.
  - intros ->. reflexivity.
  - intros ref image Hf. rewrite Hf.
    match goal with
    | |- context [Pipeline.processImageWithSettings br app imageId ?s] =>
        set (settings := s);
        destruct (Pipeline.processImageWithSettings br app imageId settings)
          as [app1 [[pd |] | e]] eqn:Ht
    end.
    + right.
      destruct (transform_success _ _ _ _ _ _ Ht)
        as (ref' & image0 & image' & img & Hf0 & Hd & Ha & _ & Hn & _ & _ & _ & Hp & _ & _
            & Hpf & Hpd & Hno).
      rewrite Hf in Hf0. injection Hf0 as <- <-.
      exists image'. split; [exact Hn |]. split; [exact Hp |]. split; [exact Hpf |].
      split.
      * rewrite Hpd, Hd. f_equal. destruct img as [nw nh].
        apply (conversion_only_dimensions br (processingOptions app) nw nh settings pd);
          [reflexivity | reflexivity | exact Ha].
      * cbn [notifications showNotification]. rewrite Hno. reflexivity.
    + exfalso. unfold Pipeline.processImageWithSettings in Ht. rewrite Hf in Ht.
      destruct (Pipeline.processImageLossless br app ref image settings) as [a [p | e]];
        discriminate.
    + left. destruct (failed_transform_facts _ _ _ _ _ _ Ht) as (H1 & H2 & H3).
      cbn [images storageData notifications showNotification].
      rewrite H1, H2, H3, <- app_assoc. repeat split.
Qed.

(** ** Sizes of data URLs *)

Lemma split_no_comma (s : string) :
  Library.countChar "," s = 0 -> split "," s = [s].
Proof.
  induction s as [| c rest IH]; simpl; [reflexivity |].
  destruct (Ascii.eqb c ",") eqn:E.
  - intros H. exfalso.
    assert (Hn : 0 <= Library.countChar "," rest).
    { clear. induction rest as [| d r IHr]; simpl; [lia |].
      destruct (Ascii.eqb d ","); lia. }
    lia.
  - intros H. rewrite IH by lia. reflexivity.
Qed.

Lemma split_header (header payload : string) :
  Library.countChar "," header = 0 ->
  Library.countChar "," payload = 0 ->
  nth_error (split "," (header ++ "," ++ payload)) 1 = Some payload.
Proof.
  intros Hh Hp. induction header as [| c rest IH].
  - simpl. rewrite (split_no_comma _ Hp). reflexivity.
  - simpl in Hh |- *. destruct (Ascii.eqb c ",") eqn:E.
    + exfalso.
      assert (Hn : 0 <= Library.countChar "," rest).
      { clear. induction rest as [| d r IHr]; simpl; [lia |].
        destruct (Ascii.eqb d ","); lia. }
      lia.
    + specialize (IH ltac:(lia)). simpl in IH.
      destruct (split "," (rest ++ String "," payload)) as [| h t]; [discriminate IH |].
      exact IH.
Qed.

Lemma length_append (a b : string) :
  String.length (a ++ b) = (String.length a + String.length b)%nat.
Proof.
  induction a as [| c rest IH]; simpl; [reflexivity | rewrite IH; reflexivity].
Qed.

Lemma countChar_append (c : ascii) (a b : string) :
  Library.countChar c (a ++ b) = Library.countChar c a + Library.countChar c b.
Proof.
  induction a as [| d rest IH]; simpl; [reflexivity | rewrite IH; lia].
Qed.

Lemma repeatChar_facts (n : nat) :
  String.length (repeatChar "=" n) = n
  /\ Library.countChar "=" (repeatChar "=" n) = Z.of_nat n
  /\ Library.countChar "," (repeatChar "=" n) = 0.
Proof.
  induction n as [| m (I1 & I2 & I3)]; [simpl; auto |].
  cbn [repeatChar String.length Library.countChar].
  change (Ascii.eqb "=" "=") with true. change (Ascii.eqb "=" ",") with false.
  rewrite I1, I2, I3. repeat split; lia.
Qed.

(** For a data URL whose payload is base64 text of a length that is a
    multiple of four, ending in [pad] padding characters,
    [calculateDataUrlSize] returns the number of bytes the payload decodes to,
    [3 * length / 4 - pad], while the size the pipeline records for the same
    URL is [3 * length / 4]: it counts the padding as data. *)
Theorem data_url_sizes :
  forall (header body : string) (pad : nat) (br : Browser) (opts : ProcessingOptions)
         (img : Z * Z) (settings : Settings.t) (pd : Pipeline.ProcessedData),
    Library.countChar "," header = 0 ->
    Library.countChar "," body = 0 ->
    Library.countChar "=" body = 0 ->
    body <> "" ->
    let n := Z.of_nat (String.length body + pad) in
    n mod 4 = 0 ->
    let url := header ++ "," ++ body ++ repeatChar "=" pad in
    Library.calculateDataUrlSize (Some url) = 3 * (n / 4) - Z.of_nat pad
    /\ (Pipeline.applyLosslessProcessing br opts img settings = Resolved pd ->
        Pipeline.dataUrl pd = url ->
        Pipeline.pd_size pd = 3 * (n / 4)).
Proof.
  intros header body pad br opts img settings pd Hh Hb Hbe Hne n Hmod url.
  destruct (repeatChar_facts pad) as (Rl & Rc & Rk).
  assert (Hpay : Library.countChar "," (body ++ repeatChar "=" pad) = 0)
    by (rewrite countChar_append; lia).
  assert (Hsplit : nth_error (split "," url) 1 = Some (body ++ repeatChar "=" pad))
    by (apply split_header; assumption).
  assert (Hlen : Z.of_nat (String.length (body ++ repeatChar "=" pad)) = n)
    by (rewrite length_append, Rl; reflexivity).
  assert (Hdiv : n = 4 * (n / 4)) by (pose proof (Z.div_mod n 4); lia).
  split.
  - unfold Library.calculateDataUrlSize.
    assert (Hu : (url === "") = false).
    { unfold url. destruct header; reflexivity. }
    rewrite Hu, Hsplit.
    assert (Hp : (body ++ repeatChar "=" pad === "") = false).
    { destruct body; [contradiction | reflexivity]. }
    rewrite Hp, Hlen, countChar_append, Hbe, Rc.
    rewrite Hdiv at 1. replace (4 * (n / 4) * 3) with ((3 * (n / 4)) * 4) by lia.
    rewrite Z.div_mul by lia. lia.
  - unfold Pipeline.applyLosslessProcessing. destruct img as [nw nh].
    destruct (Pipeline.targetDimensions nw nh settings) as [tw th].
    match goal with
    | |- context [split "," ?u] => generalize u
    end.
    intros u. destruct (nth_error (split "," u) 1) as [b64 |] eqn:Hn; [| discriminate].
    intros H Hurl. injection H as <-. cbn [Pipeline.dataUrl Pipeline.pd_size] in *.
    subst u. rewrite Hsplit in Hn. injection Hn as <-. rewrite Hlen.
    unfold Math_round.
    rewrite (Qfloor_comp _ (inject_Z (3 * (n / 4)) + (1 # 2))%Q).
    + pose proof (Qfloor_le (inject_Z (3 * (n / 4)) + (1 # 2))) as L1.
      pose proof (Qlt_floor (inject_Z (3 * (n / 4)) + (1 # 2))) as L2.
      set (k := Qfloor (inject_Z (3 * (n / 4)) + (1 # 2))) in *.
      assert (Hk1 : k <= 3 * (n / 4)) by (apply Z_le_of_Q_half; exact L1).
      assert (Hk2 : 3 * (n / 4) < k + 1).
      { rewrite Zlt_Qlt. lra. }
      lia.
    + rewrite Hdiv at 1. rewrite !inject_Z_mult. change (inject_Z 4) with 4%Q.
      change (inject_Z 3) with 3%Q. field.
Qed.

Lemma data_url_sizes_witness :
  Library.calculateDataUrlSize (Some "data:image/png;base64,QUJDRA==") = 3 * (8 / 4) - 2.
Proof.
  refine (proj1 (data_url_sizes "data:image/png;base64" "QUJDRA" 2 Scenario.host
                   {| algorithm := "lanczos"; enableSharpening := false |} (1, 1)
                   Scenario.pngSettings
                   {| Pipeline.dataUrl := ""; Pipeline.pd_size := 0;
                      Pipeline.dimensions := (1, 1); Pipeline.pd_format := "png" |}
                   eq_refl eq_refl eq_refl _ eq_refl)).
  discriminate.
Defined.

(** ** Statistics *)

(** With a positive [originalSize] the savings figure lies between 0 and 100
    whenever [compressedSize] lies between 0 and [originalSize]; it is 100 as
    long as nothing is processed, 0 when the two sizes agree, and not
    positive when the artifacts outweigh the originals. *)
Theorem savingsPercent_range :
  forall (sd : StorageData),
    0 < originalSize sd ->
    (0 <= compressedSize sd <= originalSize sd -> 0 <= Library.savingsPercent sd <= 100)
    /\ (compressedSize sd = 0 -> Library.savingsPercent sd = 100)
    /\ (compressedSize sd = originalSize sd -> Library.savingsPercent sd = 0)
    /\ (originalSize sd <= compressedSize sd -> Library.savingsPercent sd <= 0).
Proof.
  intros sd Ho. unfold Library.savingsPercent.
  assert (Hg : (originalSize sd >? 0) = true) by (apply Z.gtb_lt; exact Ho).
  rewrite Hg.
  pose proof (inject_Z_pos _ Ho) as Qo.
  set (c := inject_Z (compressedSize sd)). set (o := inject_Z (originalSize sd)) in *.
  set (q := ((1 - c / o) * 100)%Q).
  destruct (Math_round_near q) as [Ra Rb].
  assert (Hratio : forall lo hi, (lo * o <= c)%Q -> (c <= hi * o)%Q ->
                     ((1 - hi) * 100 <= q /\ q <= (1 - lo) * 100)%Q).
  { intros lo hi H1 H2.
    assert (L1 : (lo <= c / o)%Q) by (apply Qle_shift_div_l; lra).
    assert (L2 : (c / o <= hi)%Q) by (apply Qle_shift_div_r; lra).
    unfold q. split; lra. }
  split; [| split; [| split]].
  - intros [Hc0 Hc1]. rewrite Zle_Qle in Hc0, Hc1. fold c o in Hc0, Hc1.
    change (inject_Z 0) with 0%Q in Hc0.
    destruct (Hratio 0%Q 1%Q) as [Q1 Q2]; [lra | lra |].
    split; [apply Z_pos_of_Q_half; lra |].
    apply Z_le_of_Q_half. change (inject_Z 100) with 100%Q. lra.
  - intros Hc. assert (Ec : (c == 0)%Q) by (unfold c; rewrite Hc; reflexivity).
    destruct (Hratio 0%Q 0%Q) as [Q1 Q2]; [lra | lra |].
    assert (H1 : Math_round q <= 100)
      by (apply Z_le_of_Q_half; change (inject_Z 100) with 100%Q; lra).
    assert (H2 : 99 < Math_round q).
    { rewrite Zlt_Qlt. change (inject_Z 99) with 99%Q. lra. }
    lia.
  - intros Hc. assert (Ec : (c == o)%Q) by (unfold c, o; rewrite Hc; reflexivity).
    destruct (Hratio 1%Q 1%Q) as [Q1 Q2]; [lra | lra |].
    assert (H1 : Math_round q <= 0)
      by (apply Z_le_of_Q_half; change (inject_Z 0) with 0%Q; lra).
    assert (H2 : -1 < Math_round q).
    { rewrite Zlt_Qlt. change (inject_Z (-1)) with (-1)%Q. lra. }
    lia.
  - intros Hc. rewrite Zle_Qle in Hc. fold c o in Hc.
    assert (L1 : (1 <= c / o)%Q) by (apply Qle_shift_div_l; lra).
    assert (Hq : (q <= 0)%Q) by (unfold q; lra).
    apply Z_le_of_Q_half. change (inject_Z 0) with 0%Q. lra.
Qed.

Lemma savingsPercent_witness :
  Library.savingsPercent (storageData Scenario.added) = 100.
Proof.
  refine (proj1 (proj2 (savingsPercent_range (storageData Scenario.added)
                          ltac:(reflexivity))) eq_refl).
Defined.

(** ** Quick processing *)

(** [quickProcess] always returns; it never resizes, so it fails only with a
    failing transform, and then, like [batchProcess], it leaves the progress
    modal open and ends on the error toast of the failing item. *)
Theorem quickProcess_outcome :
  forall (br : Browser) (app : App) (form : Pipeline.Form),
    exists app' outcome,
      Library.quickProcess br app form = Some (app', outcome)
      /\ (forall error, outcome = Rejected error ->
            progressModal app' = true
            /\ exists earlier,
                 notifications app'
                   = (earlier ++ [("Képfeldolgozás sikertelen!", "error")])%list)
      /\ (outcome = Resolved tt -> images app <> [] ->
            progressModal app' = false
            /\ exists earlier,
                 notifications app'
                   = (earlier ++ [("Gyors feldolgozás befejezve!", "success")])%list).
Proof.
  intros br app form. unfold Library.quickProcess.
  destruct (images app) as [| im rest] eqn:Himgs.
  - eexists _, _. split; [reflexivity |]. split; [discriminate |].
    intros _ H. contradiction.
  - rewrite <- Himgs.
    match goal with
    | |- context [Pipeline.batchLoop br ?f ?a ?s ?i] =>
        destruct (batchLoop_returns br s f a i) as [[app1 [[] | e]] Hr];
          [cbn [images showProgress with_progress]; lia | |]
    end; rewrite Hr; eexists _, _; (split; [reflexivity |]).
    + split; [discriminate |]. intros _ _. split; [reflexivity |].
      cbn [notifications showNotification hideProgress showProgress with_progress]. eauto.
    + split; [| discriminate]. intros error H. injection H as <-.
      apply batchLoop_rejected in Hr. exact Hr.
Qed.


(** ** Transforms that overlap other operations *)

Lemma indexOf_nth (l : list nat) (o i : nat) :
  Async.indexOf o l = Some i -> nth_error l i = Some o.
Proof.
  revert i. induction l as [| x rest IH]; simpl; intros i H; [discriminate |].
  destruct (Nat.eqb_spec x o) as [-> | _].
  - injection H as <-. reflexivity.
  - destruct (Async.indexOf o rest) as [j |]; [| discriminate].
    injection H as <-. simpl. apply IH. reflexivity.
Qed.

Lemma nth_indexOf (l : list nat) (o i : nat) :
  NoDup l -> nth_error l i = Some o -> Async.indexOf o l = Some i.
Proof.
  revert i. induction l as [| x rest IH]; intros [| i] Hd H; simpl in *; try discriminate.
  - injection H as ->. rewrite Nat.eqb_refl. reflexivity.
  - inversion Hd as [| ? ? Hnotin Hd']; subst.
    destruct (Nat.eqb_spec x o) as [-> | _].
    + exfalso. apply Hnotin. eapply nth_error_In. exact H.
    + rewrite (IH _ Hd' H). reflexivity.
Qed.

Lemma nth_error_splice1 {A : Type} (l : list A) (i j : nat) :
  j <> i ->
  nth_error (splice1 l i) (if (j <? i)%nat then j else pred j) = nth_error l j.
Proof.
  revert i j. induction l as [| a rest IH]; intros i j H.
  - assert (E : forall n, nth_error (@nil A) n = None) by (intros [| n]; reflexivity).
    destruct i; simpl; rewrite !E; reflexivity.
  - destruct i as [| i], j as [| j]; try contradiction; try reflexivity.
    specialize (IH i j ltac:(lia)).
    change (S j <? S i)%nat with (j <? i)%nat.
    destruct (j <? i)%nat eqn:E; [exact IH |].
    apply Nat.ltb_ge in E. destruct j as [| j']; [lia |]. exact IH.
Qed.

Lemma In_splice1 {A : Type} (l : list A) (i : nat) (x : A) :
  In x (splice1 l i) -> In x l.
Proof.
  revert i. induction l as [| a rest IH]; intros [| i]; simpl; auto.
  intros [H | H]; [left; exact H | right; apply (IH i), H].
Qed.

Lemma NoDup_splice1 {A : Type} (l : list A) (i : nat) :
  NoDup l -> NoDup (splice1 l i).
Proof.
  revert i. induction l as [| a rest IH]; intros [| i] H; simpl; auto;
    inversion H as [| ? ? Hn Hd]; subst; auto.
  constructor; [| apply IH, Hd].
  intros Hin. apply Hn. eapply In_splice1. exact Hin.
Qed.

Lemma splice1_length {A : Type} (l : list A) (i : nat) (a : A) :
  nth_error l i = Some a -> S (List.length (splice1 l i)) = List.length l.
Proof.
  revert i. induction l as [| b rest IH]; intros [| i] H; simpl in *; try discriminate; auto.
Qed.

Lemma map_splice1 {A B : Type} (f : A -> B) (l : list A) (i : nat) :
  map f (splice1 l i) = splice1 (map f l) i.
Proof.
  revert i. induction l as [| a rest IH]; intros [| i]; simpl; auto. rewrite IH. reflexivity.
Qed.

Lemma NoDup_snoc {A : Type} (l : list A) (x : A) :
  NoDup l -> ~ In x l -> NoDup (l ++ [x]).
Proof.
  induction l as [| a rest IH]; simpl; intros Hd Hn.
  - constructor; [intros [] | constructor].
  - inversion Hd as [| ? ? Ha Hd']; subst. constructor.
    + intros Hin. apply in_app_or in Hin. destruct Hin as [Hin | [<- | []]]; tauto.
    + apply IH; tauto.
Qed.

(** The other pending transforms have other targets. *)
Lemma other_pending_target {A B : Type} (f : A -> B) (l : list A) (k : nat) (p q : A) :
  NoDup (map f l) -> nth_error l k = Some p -> In q (splice1 l k) -> f q <> f p.
Proof.
  revert k. induction l as [| a rest IH]; intros [| k] Hd Hp Hq; simpl in *;
    try discriminate; inversion Hd as [| ? ? Hn Hd']; subst.
  - injection Hp as ->. intros E. apply Hn. rewrite <- E. apply in_map, Hq.
  - destruct Hq as [-> | Hq].
    + intros E. apply Hn. rewrite E. apply in_map. eapply nth_error_In. exact Hp.
    + eapply IH; eassumption.
Qed.

Lemma addImage_shape br app file newId :
  match Pipeline.addImage br app file newId with
  | (app', Resolved _) => exists im, images app' = (images app ++ [im])%list
  | (app', Rejected _) => app' = app
  end.
Proof.
  unfold Pipeline.addImage.
  destruct (Pipeline.file_data file) as [result |]; [| reflexivity].
  destruct (decodeImage br result) as [[w h] |]; [| reflexivity].
  destruct ((w =? 0) || (h =? 0))%bool; [reflexivity |].
  destruct ((w >? 16384) || (h >? 16384))%bool; [reflexivity |].
  eexists. reflexivity.
Qed.

Lemma removeImage_images app imageId ref image :
  findIndex (images app) imageId = Some (ref, image) ->
  images (Pipeline.removeImage app imageId) = splice1 (images app) ref.
Proof. intros H. unfold Pipeline.removeImage. rewrite H. reflexivity. Qed.

(** What [processImageLossless] does to the object at position [ref]. *)
Lemma lossless_effect br app ref image settings :
  (exists e, Pipeline.processImageLossless br app ref image settings = (app, Rejected e))
  \/ exists app' pd image',
       Pipeline.processImageLossless br app ref image settings = (app', Resolved pd)
       /\ images app' = store (images app) ref image'
       /\ size image' = size image
       /\ processedSize image' = Some (Pipeline.pd_size pd)
       /\ originalSize (storageData app') = originalSize (storageData app)
       /\ compressedSize (storageData app')
          = compressedSize (storageData app) + Pipeline.pd_size pd.
Proof.
  unfold Pipeline.processImageLossless.
  destruct (decodeImage br (src image)) as [img |]; [| left; eexists; reflexivity].
  destruct (Pipeline.applyLosslessProcessing br (processingOptions app) img settings)
    as [pd | e]; [| left; eexists; reflexivity].
  right. eexists _, pd, _. split; [reflexivity |]. simpl. repeat split.
Qed.

Lemma newSession_consistent : Async.consistent Async.newSession.
Proof.
  unfold Async.consistent. simpl.
  split; [apply newApp_paired |]. split; [reflexivity |].
  split; [constructor |]. split; [intros o [] |].
  split; [constructor | intros p []].
Qed.

Lemma imageLoaded_consistent br s file newId :
  Async.consistent s -> Async.consistent (Async.step br s (Async.ImageLoaded file newId)).
Proof.
  intros (Hp & Hlen & Hnd & Hfresh & Hpd & Hpend).
  pose proof (addImage_paired br (Async.s_app s) file newId Hp) as Hp'.
  pose proof (addImage_shape br (Async.s_app s) file newId) as Hshape.
  unfold Async.step.
  destruct (Pipeline.addImage br (Async.s_app s) file newId) as [app' [[] | e]];
    cbn [fst] in Hp'; unfold Async.consistent;
    cbn [Async.s_app Async.objects Async.fresh Async.pending].
  - destruct Hshape as [im Him].
    split; [exact Hp' |].
    split; [rewrite Him, !length_app; simpl; lia |].
    split; [apply NoDup_snoc; [exact Hnd |];
            intros Hin; apply Hfresh in Hin; lia |].
    split.
    { intros o Hin. apply in_app_or in Hin. destruct Hin as [Hin | [<- | []]].
      - apply Hfresh in Hin. lia.
      - lia. }
    split; [exact Hpd |].
    intros p Hin. destruct (Hpend p Hin) as (ref & image & Ho & Hi & Ht).
    exists ref, image. split; [| split; [| exact Ht]].
    + rewrite nth_error_app1; [exact Ho |]. apply nth_error_Some. congruence.
    + rewrite Him. rewrite nth_error_app1; [exact Hi |]. apply nth_error_Some. congruence.
  - subst app'. exact (conj Hp (conj Hlen (conj Hnd (conj Hfresh (conj Hpd Hpend))))).
Qed.

Lemma transformCalled_consistent br s imageId settings :
  Async.consistent s ->
  match findIndex (images (Async.s_app s)) imageId with
  | Some (ref, image) => truthy (processedSize image) = false /\ ~ Async.busy s ref
  | None => True
  end ->
  Async.consistent (Async.step br s (Async.TransformCalled imageId settings)).
Proof.
  intros Hc Hsched. pose proof Hc as (Hp & Hlen & Hnd & Hfresh & Hpd & Hpend).
  unfold Async.step.
  destruct (findIndex (images (Async.s_app s)) imageId) as [[ref image] |] eqn:Hf;
    [| exact Hc].
  destruct (findIndex_nth_error _ _ _ _ Hf) as [Hnth _].
  destruct Hsched as [Hfresh_img Hidle]. unfold Async.busy in Hidle.
  destruct (nth_error (Async.objects s) ref) as [o |] eqn:Ho; [| exact Hc].
  unfold Async.consistent. cbn [Async.s_app Async.objects Async.fresh Async.pending].
  split; [exact Hp |]. split; [exact Hlen |]. split; [exact Hnd |].
  split; [exact Hfresh |].
  split.
  - rewrite map_app. cbn [map Async.target]. apply NoDup_snoc; assumption.
  - intros p Hin. apply in_app_or in Hin. destruct Hin as [Hin | [<- | []]].
    + apply Hpend, Hin.
    + exists ref, image. cbn [Async.target]. auto.
Qed.

Lemma removeCalled_consistent br s imageId :
  Async.consistent s ->
  match findIndex (images (Async.s_app s)) imageId with
  | Some (ref, _) => ~ Async.busy s ref
  | None => True
  end ->
  Async.consistent (Async.step br s (Async.RemoveCalled imageId)).
Proof.
  intros Hc Hsched. pose proof Hc as (Hp & Hlen & Hnd & Hfresh & Hpd & Hpend).
  unfold Async.step.
  destruct (findIndex (images (Async.s_app s)) imageId) as [[ref image] |] eqn:Hf;
    [| exact Hc].
  destruct (findIndex_nth_error _ _ _ _ Hf) as [Hnth _].
  assert (Hlt : (ref < List.length (Async.objects s))%nat).
  { rewrite Hlen. apply nth_error_Some. congruence. }
  destruct (nth_error (Async.objects s) ref) as [o |] eqn:Ho;
    [| apply nth_error_None in Ho; lia].
  unfold Async.busy in Hsched. rewrite Ho in Hsched.
  unfold Async.consistent. cbn [Async.s_app Async.objects Async.fresh Async.pending].
  split; [apply removeImage_paired; exact Hp |].
  split.
  { rewrite (removeImage_images _ _ _ _ Hf).
    pose proof (splice1_length _ _ _ Ho). pose proof (splice1_length _ _ _ Hnth). lia. }
  split; [apply NoDup_splice1; exact Hnd |].
  split; [intros x Hin; apply Hfresh; eapply In_splice1; exact Hin |].
  split; [exact Hpd |].
  intros p Hin. destruct (Hpend p Hin) as (j & im & Hj & Hi & Ht).
  assert (Hne : j <> ref).
  { intros ->. apply Hsched. rewrite Ho in Hj. injection Hj as ->.
    apply in_map, Hin. }
  exists (if (j <? ref)%nat then j else pred j), im.
  rewrite (removeImage_images _ _ _ _ Hf), !nth_error_splice1 by exact Hne. auto.
Qed.

Lemma sourceDecoded_consistent br s k :
  Async.consistent s -> Async.consistent (Async.step br s (Async.SourceDecoded k)).
Proof.
  intros Hc. pose proof Hc as (Hp & Hlen & Hnd & Hfresh & Hpd & Hpend).
  unfold Async.step.
  destruct (nth_error (Async.pending s) k) as [p |] eqn:Hk; [| exact Hc].
  assert (Hin : In p (Async.pending s)) by (eapply nth_error_In; exact Hk).
  destruct (Hpend p Hin) as (ref & image & Ho & Hi & Ht).
  assert (Hothers : forall q, In q (splice1 (Async.pending s) k) ->
            exists j im, j <> ref
              /\ nth_error (Async.objects s) j = Some (Async.target q)
              /\ nth_error (images (Async.s_app s)) j = Some im
              /\ truthy (processedSize im) = false).
  { intros q Hq.
    pose proof (other_pending_target Async.target _ _ _ _ Hpd Hk Hq) as Hne.
    destruct (Hpend q (In_splice1 _ _ _ Hq)) as (j & im & Hj & Hji & Hjt).
    exists j, im. split; [| auto]. intros ->. congruence. }
  assert (Hpd' : NoDup (map Async.target (splice1 (Async.pending s) k))).
  { rewrite map_splice1. apply NoDup_splice1, Hpd. }
  unfold Async.consistent. cbn [Async.s_app Async.objects Async.fresh Async.pending].
  unfold Async.settle.
  rewrite (nth_indexOf _ _ _ Hnd Ho), Hi.
  destruct (lossless_effect br (Async.s_app s) ref image (Async.p_settings p))
    as [[e He] | (app' & pd & image' & He & Himgs & Hsz & Hps & Hos & Hcs)];
    rewrite He.
  - cbn [images storageData showNotification countersPaired].
    split; [exact Hp |]. split; [exact Hlen |]. split; [exact Hnd |].
    split; [exact Hfresh |]. split; [exact Hpd' |].
    intros q Hq. destruct (Hothers q Hq) as (j & im & _ & H1 & H2 & H3). eauto.
  - destruct Hp as [Hpo Hpc].
    split.
    { split.
      - rewrite Hos, Himgs, Hpo. unfold sumSizes. rewrite (sum_store _ _ _ _ _ Hi). lia.
      - rewrite Hcs, Himgs, Hpc. unfold sumProcessedSizes.
        rewrite (sum_store _ _ _ _ _ Hi).
        rewrite (truthy_false_or_else _ 0 Ht), Hps, or_else_Some. lia. }
    split; [rewrite Himgs, store_length; exact Hlen |].
    split; [exact Hnd |]. split; [exact Hfresh |]. split; [exact Hpd' |].
    intros q Hq. destruct (Hothers q Hq) as (j & im & Hne & H1 & H2 & H3).
    exists j, im. rewrite Himgs, nth_error_store_other by congruence. auto.
Qed.

Lemma run_consistent br events :
  forall s, Async.consistent s -> Async.oneTransformEach br s events ->
    Async.consistent (Async.run br s events).
Proof.
  unfold Async.run.
  induction events as [| e rest IH]; intros s Hc Hs; simpl; [exact Hc |].
  destruct Hs as [He Hrest]. apply IH; [| exact Hrest].
  destruct e as [file newId | imageId settings | k | imageId].
  - apply imageLoaded_consistent, Hc.
  - apply transformCalled_consistent; assumption.
  - apply sourceDecoded_consistent, Hc.
  - apply removeCalled_consistent; assumption.
Qed.

(** Both counters agree with the image list after every schedule of image
    loads, transform calls, decode completions and removals, however they
    interleave, in which no transform is called on an image that has an
    artifact or a pending transform and no image is removed while a
    transform of it is pending. *)
Theorem counters_paired_when_transformed_once :
  forall (br : Browser) (events : list Async.Event),
    Async.oneTransformEach br Async.newSession events ->
    countersPaired (Async.s_app (Async.run br Async.newSession events)).
Proof.
  intros br events H.
  apply (run_consistent br events Async.newSession newSession_consistent H).
Qed.

Lemma counters_paired_witness :
  countersPaired
    (Async.s_app
       (Async.run Scenario.host Async.newSession
          [Async.ImageLoaded Scenario.pngFile 1%Q;
           Async.TransformCalled 1%Q Scenario.pngSettings;
           Async.ImageLoaded Scenario.pngFile 2%Q;
           Async.TransformCalled 2%Q Scenario.tiffSettings;
           Async.SourceDecoded 1;
           Async.RemoveCalled 2%Q;
           Async.SourceDecoded 0;
           Async.RemoveCalled 1%Q])).
Proof.
  apply (counters_paired_when_transformed_once Scenario.host).
  cbv. repeat split; try (intros [E | []]; discriminate E); intros [].
Defined.

(** Without overlap the session does what [processImageWithSettings] does in
    one piece: a transform whose image decodes before anything else happens
    leaves the application as the call on the application does. *)
Lemma transform_without_overlap br s imageId settings :
  List.length (Async.objects s) = List.length (images (Async.s_app s)) ->
  NoDup (Async.objects s) ->
  Async.s_app
    (Async.run br s [Async.TransformCalled imageId settings;
                     Async.SourceDecoded (List.length (Async.pending s))])
    = fst (Pipeline.processImageWithSettings br (Async.s_app s) imageId settings).
Proof.
  intros Hlen Hnd. unfold Async.run. cbn [fold_left].
  unfold Pipeline.processImageWithSettings.
  unfold Async.step at 2.
  destruct (findIndex (images (Async.s_app s)) imageId) as [[ref image] |] eqn:Hf.
  - destruct (findIndex_nth_error _ _ _ _ Hf) as [Hnth _].
    assert (Hlt : (ref < List.length (Async.objects s))%nat).
    { rewrite Hlen. apply nth_error_Some. congruence. }
    destruct (nth_error (Async.objects s) ref) as [o |] eqn:Ho;
      [| apply nth_error_None in Ho; lia].
    unfold Async.step. cbn [Async.pending Async.s_app Async.objects Async.fresh].
    rewrite nth_error_last.
    cbn [Async.s_app]. unfold Async.settle.
    cbn [Async.s_app Async.objects Async.target Async.p_settings].
    rewrite (nth_indexOf _ _ _ Hnd Ho), Hnth.
    destruct (Pipeline.processImageLossless br (Async.s_app s) ref image settings)
      as [app' [pd | e]]; reflexivity.
  - unfold Async.step.
    destruct (nth_error (Async.pending s) (List.length (Async.pending s))) eqn:E;
      [| reflexivity].
    exfalso. assert (H : nth_error (Async.pending s) (List.length (Async.pending s)) <> None)
      by congruence.
    apply nth_error_Some in H. lia.
Qed.

(** The second condition is needed: an image removed while its transform is
    pending leaves [compressedSize] raised for an image that is not listed. *)
Lemma removal_during_transform_unpairs :
  let s := Async.run Scenario.host Async.newSession
             [Async.ImageLoaded Scenario.pngFile 1%Q;
              Async.TransformCalled 1%Q Scenario.pngSettings;
              Async.RemoveCalled 1%Q;
              Async.SourceDecoded 0] in
  images (Async.s_app s) = []
  /\ originalSize (storageData (Async.s_app s)) = 0
  /\ compressedSize (storageData (Async.s_app s)) = 3.
Proof. vm_compute. repeat split. Qed.
